(** * Calculator: the state engine of [src/components/Calculator.tsx]

    The component keeps four pieces of React state ([display],
    [previousValue], [operation], [waitingForOperand]) and updates them
    from button and keyboard handlers.  Each handler is embedded below as
    a function from the state of the last render to the next state; an
    event of the button or keyboard surface runs one handler.

    JavaScript numbers are IEEE 754 binary64 values; they are modelled by
    the Standard Library's [spec_float] at precision 53 and maximal
    exponent 1024, whose single NaN matches the single NaN observable
    from JavaScript, with the library's addition, subtraction,
    multiplication and division.  The built-in functions the handlers
    call are written out after ECMAScript: [parseFloat] reads the
    longest decimal literal at the head of a string and rounds its
    value to the nearest number, ties to even; [String] on a number
    prints the shortest decimal that reads back as that number;
    [toLocaleString] rounds that decimal to ten fraction digits and
    groups the integer digits.

    Strings are sequences of bytes (UTF-8); every string the engine
    stores in [display] is ASCII, so lengths and slices count the same
    units as the UTF-16 code units of the source.

    The file has three parts: the embedding of the code, the notions
    used to state its properties, and the properties with their
    proofs. *)

From Stdlib Require Import ZArith List String Ascii Bool Lia.
From Stdlib Require Import SpecFloat.
Import ListNotations.
Open Scope Z_scope.

(** ** Numbers *)

Module Number.

Definition number := spec_float.

Definition prec : Z := 53.
Definition emax : Z := 1024.

Definition NaN : number := S754_nan.
Definition Infinity : number := S754_infinity false.
Definition zero : number := S754_zero false.

Definition add : number -> number -> number := SFadd prec emax.
Definition sub : number -> number -> number := SFsub prec emax.
Definition mul : number -> number -> number := SFmul prec emax.
Definition div : number -> number -> number := SFdiv prec emax.
Definition opp : number -> number := SFopp.

(** [x === y] and [x !== y] on numbers: NaN differs from everything,
    the two zeros are equal. *)
Definition strict_equal (x y : number) : bool := SFeqb x y.
Definition strict_not_equal (x y : number) : bool := negb (SFeqb x y).

Definition isNaN (x : number) : bool :=
  match x with S754_nan => true | _ => false end.

Definition is_finite (x : number) : bool :=
  match x with S754_zero _ | S754_finite _ _ _ => true | _ => false end.

(** Structural equality of two values (the same sign, mantissa and
    exponent); this is [Object.is]. *)
Definition same_value (x y : number) : bool :=
  match x, y with
  | S754_nan, S754_nan => true
  | S754_zero a, S754_zero b => Bool.eqb a b
  | S754_infinity a, S754_infinity b => Bool.eqb a b
  | S754_finite a m e, S754_finite b m' e' =>
      Bool.eqb a b && Pos.eqb m m' && Z.eqb e e'
  | _, _ => false
  end.

(** Equality of numeric values: [same_value] except that the two zeros
    are identified (SameValueZero). *)
Definition same_value_zero (x y : number) : bool :=
  match x, y with
  | S754_zero _, S754_zero _ => true
  | _, _ => same_value x y
  end.

(** *** The number value of a positive rational

    [round_ratio n d] is the binary64 value nearest to [n / d] for
    [n >= 0] and [d > 0], ties going to the even significand and values
    beyond the largest finite one to infinity. *)

(** [b ^ k] for [k >= 0], and 1 for a negative [k]: a ratio is scaled
    by [b ^ k] by multiplying its numerator by [pow_pos b k] and its
    denominator by [pow_pos b (- k)]. *)
Definition pow_pos (b k : Z) : Z := b ^ Z.max 0 k.

(** [floor (log2 (n / d))] for positive [n] and [d]. *)
Definition ilog2_ratio (n d : Z) : Z :=
  let g := Z.log2 n - Z.log2 d in
  if d * pow_pos 2 g <=? n * pow_pos 2 (- g) then g else g - 1.

Definition finite_of (q e : Z) : number :=
  if q =? 0 then S754_zero false
  else if q =? 2 ^ prec then
    if e + 1 <=? emax - prec
    then S754_finite false (Z.to_pos (2 ^ (prec - 1))) (e + 1)
    else S754_infinity false
  else if e <=? emax - prec then S754_finite false (Z.to_pos q) e
  else S754_infinity false.

Definition round_half_even (q r den : Z) : Z :=
  match 2 * r ?= den with
  | Lt => q
  | Gt => q + 1
  | Eq => if Z.even q then q else q + 1
  end.

Definition round_ratio (n d : Z) : number :=
  if n =? 0 then S754_zero false
  else
    let e := Z.max (ilog2_ratio n d - (prec - 1)) (3 - emax - prec) in
    let num := n * pow_pos 2 (- e) in
    let den := d * pow_pos 2 e in
    finite_of (round_half_even (num / den) (num mod den) den) e.

(** The number value of the decimal [s * 10 ^ p], [s >= 0]. *)
Definition number_of_decimal (s p : Z) : number :=
  round_ratio (s * pow_pos 10 p) (pow_pos 10 (- p)).

(** The number value of an integer literal of the source. *)
Definition of_Z (z : Z) : number :=
  if z <? 0 then opp (number_of_decimal (- z) 0) else number_of_decimal z 0.

End Number.

Import Number.

(** ** Decimal digits *)

Definition is_digit (c : ascii) : bool :=
  (48 <=? Z.of_nat (nat_of_ascii c)) && (Z.of_nat (nat_of_ascii c) <=? 57).

Definition digit_value (c : ascii) : Z := Z.of_nat (nat_of_ascii c) - 48.

Definition digit_char (d : Z) : ascii := ascii_of_nat (Z.to_nat (48 + d)).

(** The longest run of decimal digits at the head of [cs], and the rest. *)
Fixpoint span_digits (cs : list ascii) : list ascii * list ascii :=
  match cs with
  | c :: r =>
      if is_digit c
      then let (d, t) := span_digits r in (c :: d, t)
      else ([], cs)
  | [] => ([], [])
  end.

Definition digits_value (ds : list ascii) : Z :=
  fold_left (fun a c => 10 * a + digit_value c) ds 0.

Fixpoint digits_fuel (fuel : nat) (n : Z) (acc : list ascii) : list ascii :=
  match fuel with
  | O => acc
  | S f =>
      let acc' := digit_char (n mod 10) :: acc in
      if n <? 10 then acc' else digits_fuel f (n / 10) acc'
  end.

(** The decimal digits of [n >= 0], most significant first. *)
Definition decimal_digits (n : Z) : list ascii :=
  digits_fuel (S (Z.to_nat (Z.log2 n))) n [].

(** ** Strings *)

Definition chars (s : string) : list ascii := list_ascii_of_string s.
Definition text (cs : list ascii) : string := string_of_list_ascii cs.

(** [s.includes(needle)]. *)
Fixpoint includes (s needle : string) : bool :=
  String.prefix needle s ||
  match s with
  | EmptyString => false
  | String _ r => includes r needle
  end.

(** [s.endsWith(suffix)]. *)
Definition endsWith (s suffix : string) : bool :=
  let n := String.length s in
  let k := String.length suffix in
  (k <=? n)%nat && String.eqb (substring (n - k) k s) suffix.

(** [s.slice(from, to)], negative indices counting from the end. *)
Definition slice (s : string) (from to : Z) : string :=
  let len := Z.of_nat (String.length s) in
  let a := if from <? 0 then Z.max (len + from) 0 else Z.min from len in
  let b := if to <? 0 then Z.max (len + to) 0 else Z.min to len in
  substring (Z.to_nat a) (Z.to_nat (Z.max (b - a) 0)) s.

(** ** [parseFloat] *)

Inductive literal :=
  | LitInfinity
  | LitDecimal (s p : Z).

Definition number_of_literal (l : literal) : number :=
  match l with
  | LitInfinity => Infinity
  | LitDecimal s p => number_of_decimal s p
  end.

(** White space and line terminators skipped at the head of the
    argument: the ASCII ones and the UTF-8 encodings of U+00A0, U+1680,
    U+2000 to U+200A, U+2028, U+2029, U+202F, U+205F, U+3000, U+FEFF. *)
Definition is_space (c : ascii) : bool :=
  let n := nat_of_ascii c in
  ((9 <=? n) && (n <=? 13) || (n =? 32))%nat.

Fixpoint trim_start (cs : list ascii) : list ascii :=
  match cs with
  | c :: r =>
      if is_space c then trim_start r
      else
        match nat_of_ascii c, r with
        | 194%nat, c2 :: r2 =>
            if (nat_of_ascii c2 =? 160)%nat then trim_start r2 else cs
        | 225%nat, c2 :: c3 :: r3 =>
            if ((nat_of_ascii c2 =? 154) && (nat_of_ascii c3 =? 128))%nat
            then trim_start r3 else cs
        | 226%nat, c2 :: c3 :: r3 =>
            let n2 := nat_of_ascii c2 in
            let n3 := nat_of_ascii c3 in
            if ((n2 =? 128) &&
                ((128 <=? n3) && (n3 <=? 138) || (n3 =? 168) || (n3 =? 169)
                 || (n3 =? 175))
                || (n2 =? 129) && (n3 =? 159))%nat
            then trim_start r3 else cs
        | 227%nat, c2 :: c3 :: r3 =>
            if ((nat_of_ascii c2 =? 128) && (nat_of_ascii c3 =? 128))%nat
            then trim_start r3 else cs
        | 239%nat, c2 :: c3 :: r3 =>
            if ((nat_of_ascii c2 =? 187) && (nat_of_ascii c3 =? 191))%nat
            then trim_start r3 else cs
        | _, _ => cs
        end
  | [] => []
  end.

Fixpoint starts_with (p cs : list ascii) : bool :=
  match p, cs with
  | [], _ => true
  | a :: p', c :: cs' => Ascii.eqb a c && starts_with p' cs'
  | _ :: _, [] => false
  end.

(** The value of the longest ExponentPart at the head of [cs]; 0 when
    there is none. *)
Definition exponent_part (cs : list ascii) : Z :=
  match cs with
  | c :: r =>
      if Ascii.eqb c "e" || Ascii.eqb c "E" then
        match r with
        | "+"%char :: r' => digits_value (fst (span_digits r'))
        | "-"%char :: r' => - digits_value (fst (span_digits r'))
        | _ => digits_value (fst (span_digits r))
        end
      else 0
  | [] => 0
  end.

(** The longest prefix of [cs] that is a StrUnsignedDecimalLiteral. *)
Definition unsigned_literal (cs : list ascii) : option literal :=
  if starts_with (chars "Infinity") cs then Some LitInfinity
  else
    let (i, r) := span_digits cs in
    match r with
    | "."%char :: r' =>
        let (f, r'') := span_digits r' in
        match i, f with
        | [], [] => None
        | _, _ =>
            Some (LitDecimal (digits_value (i ++ f))
                             (exponent_part r'' - Z.of_nat (List.length f)))
        end
    | _ =>
        match i with
        | [] => None
        | _ => Some (LitDecimal (digits_value i) (exponent_part r))
        end
    end.

Definition parse_chars (cs : list ascii) : number :=
  match trim_start cs with
  | "-"%char :: r =>
      match unsigned_literal r with
      | Some l => opp (number_of_literal l)
      | None => NaN
      end
  | "+"%char :: r =>
      match unsigned_literal r with
      | Some l => number_of_literal l
      | None => NaN
      end
  | r =>
      match unsigned_literal r with
      | Some l => number_of_literal l
      | None => NaN
      end
  end.

Definition parseFloat (s : string) : number := parse_chars (chars s).

(** ** [String(x)] on a number, that is Number::toString

    The digits are those of the shortest decimal [s * 10 ^ p] whose
    number value is [x]; among several of that length the one closest
    to [x], and the even one on a tie. *)

Fixpoint strip_zeros (fuel : nat) (s p : Z) : Z * Z :=
  match fuel with
  | O => (s, p)
  | S f =>
      if (s mod 10 =? 0) && negb (s =? 0)
      then strip_zeros f (s / 10) (p + 1)
      else (s, p)
  end.

(** The same decimal without trailing zeros in its digits. *)
Definition normal_decimal (s p : Z) : Z * Z :=
  strip_zeros (S (Z.to_nat (Z.log2 s))) s p.

Fixpoint exponent_below_one (fuel : nat) (num den n : Z) : Z :=
  match fuel with
  | O => n
  | S f =>
      if den <=? num * 10 then n
      else exponent_below_one f (num * 10) den (n - 1)
  end.

(** The [n] with [10 ^ (n - 1) <= num / den < 10 ^ n]. *)
Definition decimal_exponent (num den : Z) : Z :=
  if den <=? num then Z.of_nat (List.length (decimal_digits (num / den)))
  else exponent_below_one (S (Z.to_nat (Z.log2 den))) num den 0.

Definition rounds_to (x : number) (s p : Z) : bool :=
  let (s', p') := normal_decimal s p in
  same_value (number_of_decimal s' p') x.

(** The decimal of [k] digits for [num / den], if one has value [x]. *)
Definition candidate (x : number) (num den n k : Z) : option (Z * Z) :=
  let p := n - k in
  let a := num * pow_pos 10 (- p) in
  let b := den * pow_pos 10 p in
  let lo := a / b in
  let hi := lo + 1 in
  match rounds_to x lo p, rounds_to x hi p with
  | true, true =>
      Some (normal_decimal (round_half_even lo (a mod b) b) p)
  | true, false => Some (normal_decimal lo p)
  | false, true => Some (normal_decimal hi p)
  | false, false => None
  end.

Fixpoint shortest_from (fuel : nat) (x : number) (num den n k : Z)
  : option (Z * Z) :=
  match fuel with
  | O => None
  | S f =>
      match candidate x num den n k with
      | Some c => Some c
      | None => shortest_from f x num den n (k + 1)
      end
  end.

(** The full decimal expansion of [m * 2 ^ e]. *)
Definition exact_decimal (m : positive) (e : Z) : Z * Z :=
  if 0 <=? e then normal_decimal (Zpos m * 2 ^ e) 0
  else normal_decimal (Zpos m * 5 ^ (- e)) e.

(** Seventeen digits identify every binary64 value; the full expansion
    is the default of the search. *)
Definition shortest_decimal (m : positive) (e : Z) : Z * Z :=
  let num := Zpos m * pow_pos 2 e in
  let den := pow_pos 2 (- e) in
  match
    shortest_from 17 (S754_finite false m e) num den
                  (decimal_exponent num den) 1
  with
  | Some c => c
  | None => exact_decimal m e
  end.

Definition zeros (n : nat) : list ascii := repeat "0"%char n.

Definition format_decimal (s p : Z) : list ascii :=
  let ds := decimal_digits s in
  let k := Z.of_nat (List.length ds) in
  let n := p + k in
  if (-5 <=? n) && (n <=? 21) then
    if k <=? n then ds ++ zeros (Z.to_nat (n - k))
    else if 0 <? n then
      firstn (Z.to_nat n) ds ++ "."%char :: skipn (Z.to_nat n) ds
    else "0"%char :: "."%char :: zeros (Z.to_nat (- n)) ++ ds
  else
    let e := n - 1 in
    let sign := if e <? 0 then "-"%char else "+"%char in
    match ds with
    | d :: (_ :: _) as rest =>
        d :: "."%char :: rest ++ "e"%char :: sign :: decimal_digits (Z.abs e)
    | _ => ds ++ "e"%char :: sign :: decimal_digits (Z.abs e)
    end.

Definition number_chars (x : number) : list ascii :=
  match x with
  | S754_nan => chars "NaN"
  | S754_zero _ => chars "0"
  | S754_infinity s => (if s then ["-"%char] else []) ++ chars "Infinity"
  | S754_finite s m e =>
      let (d, p) := shortest_decimal m e in
      (if s then ["-"%char] else []) ++ format_decimal d p
  end.

Definition toString (x : number) : string := text (number_chars x).

(** ** The calculator state and its handlers *)

Open Scope string_scope.

Inductive Op := Plus | Minus | Times | Divide.

(** [type Operation = "+" | "-" | "×" | "÷" | null]. *)
Definition Operation := option Op.

Record CalculatorState := {
  display : string;
  previousValue : option number;
  operation : Operation;
  waitingForOperand : bool
}.

(** The state at mount: the four [useState] initial values. *)
Definition initial : CalculatorState :=
  {| display := "0"; previousValue := None; operation := None;
     waitingForOperand := false |}.

Definition setDisplay (d : string) (s : CalculatorState) :=
  {| display := d; previousValue := previousValue s;
     operation := operation s; waitingForOperand := waitingForOperand s |}.

Definition setPreviousValue (v : option number) (s : CalculatorState) :=
  {| display := display s; previousValue := v;
     operation := operation s; waitingForOperand := waitingForOperand s |}.

Definition setOperation (o : Operation) (s : CalculatorState) :=
  {| display := display s; previousValue := previousValue s;
     operation := o; waitingForOperand := waitingForOperand s |}.

Definition setWaitingForOperand (w : bool) (s : CalculatorState) :=
  {| display := display s; previousValue := previousValue s;
     operation := operation s; waitingForOperand := w |}.

(** [setDisplay(display === "0" ? digit : display + digit)], or a fresh
    operand when one is awaited. *)
Definition inputDigit (digit : string) (s : CalculatorState) : CalculatorState :=
  if waitingForOperand s then
    setWaitingForOperand false (setDisplay digit s)
  else
    setDisplay (if display s =? "0" then digit else display s ++ digit) s.

(** ["0."] when an operand is awaited; otherwise a point is appended
    unless [display.includes(".")]. *)
Definition inputDecimal (s : CalculatorState) : CalculatorState :=
  if waitingForOperand s then
    setWaitingForOperand false (setDisplay "0." s)
  else if negb (includes (display s) ".") then
    setDisplay (display s ++ ".") s
  else s.

(** The four setters with the initial values. *)
Definition clear (s : CalculatorState) : CalculatorState :=
  setWaitingForOperand false
    (setOperation None (setPreviousValue None (setDisplay "0" s))).

(** [display.length === 1 ? "0" : display.slice(0, -1)], and nothing
    while an operand is awaited. *)
Definition backspace (s : CalculatorState) : CalculatorState :=
  if waitingForOperand s then s
  else
    setDisplay (if (String.length (display s) =? 1)%nat then "0"
                else slice (display s) 0 (-1)) s.

(** [setDisplay(String(value * -1))]. *)
Definition toggleSign (s : CalculatorState) : CalculatorState :=
  let value := parseFloat (display s) in
  setDisplay (toString (mul value (of_Z (-1)))) s.

(** [setDisplay(String(value / 100))]. *)
Definition inputPercent (s : CalculatorState) : CalculatorState :=
  let value := parseFloat (display s) in
  setDisplay (toString (div value (of_Z 100))) s.

(** The first operand is stored, or the pending operation is computed
    and shown; then the new operator is recorded and an operand
    awaited. *)
Definition performOperation (nextOperation : Operation) (s : CalculatorState)
  : CalculatorState :=
  let inputValue := parseFloat (display s) in
  let s' :=
    match previousValue s with
    | None => setPreviousValue (Some inputValue) s
    | Some currentValue =>
        match operation s with
        | Some op =>
            let result :=
              match op with
              | Plus => add currentValue inputValue
              | Minus => sub currentValue inputValue
              | Times => mul currentValue inputValue
              | Divide =>
                  if strict_not_equal inputValue (of_Z 0)
                  then div currentValue inputValue
                  else of_Z 0
              end in
            setPreviousValue (Some result) (setDisplay (toString result) s)
        | None => s
        end
    end in
  setOperation nextOperation (setWaitingForOperand true s').

(** Nothing unless an operator and a left operand are pending;
    otherwise the result is shown and both are cleared. *)
Definition calculate (s : CalculatorState) : CalculatorState :=
  match operation s, previousValue s with
  | Some op, Some previous =>
      let inputValue := parseFloat (display s) in
      let result :=
        match op with
        | Plus => add previous inputValue
        | Minus => sub previous inputValue
        | Times => mul previous inputValue
        | Divide =>
            if strict_not_equal inputValue (of_Z 0)
            then div previous inputValue
            else of_Z 0
        end in
      setWaitingForOperand true
        (setOperation None
           (setPreviousValue None (setDisplay (toString result) s)))
  | _, _ => s
  end.

(** ** Events of the button and keyboard surface *)

Inductive Digit := d0 | d1 | d2 | d3 | d4 | d5 | d6 | d7 | d8 | d9.

Definition digit_key (d : Digit) : string :=
  match d with
  | d0 => "0" | d1 => "1" | d2 => "2" | d3 => "3" | d4 => "4"
  | d5 => "5" | d6 => "6" | d7 => "7" | d8 => "8" | d9 => "9"
  end.

Inductive event :=
  | InputDigit (d : Digit)
  | InputDecimal
  | Clear
  | Backspace
  | ToggleSign
  | InputPercent
  | PerformOperation (op : Op)
  | Calculate.

(** The handler each event runs: the buttons pass the digits "0" to
    "9" and the four operators, and so do the key bindings. *)
Definition step (s : CalculatorState) (ev : event) : CalculatorState :=
  match ev with
  | InputDigit d => inputDigit (digit_key d) s
  | InputDecimal => inputDecimal s
  | Clear => clear s
  | Backspace => backspace s
  | ToggleSign => toggleSign s
  | InputPercent => inputPercent s
  | PerformOperation op => performOperation (Some op) s
  | Calculate => calculate s
  end.

Definition run (s : CalculatorState) (evs : list event) : CalculatorState :=
  fold_left step evs s.

(** The states the widget can be in: the state at mount and what the
    events lead to. *)
Inductive reachable : CalculatorState -> Prop :=
  | reachable_initial : reachable initial
  | reachable_step s ev : reachable s -> reachable (step s ev).

(** ** The display formatter

    [num.toLocaleString("en-US", { maximumFractionDigits: 10 })] as the
    engines compute it: the decimal that [toString] prints is rounded to
    ten fraction digits, a tie going away from zero; trailing fraction
    zeros are dropped, and the integer digits are grouped by three. *)

Fixpoint group_digits (ds : list ascii) : list ascii :=
  match ds with
  | [] => []
  | d :: r =>
      d :: (if (0 <? List.length r)%nat && (List.length r mod 3 =? 0)%nat
            then ","%char :: group_digits r
            else group_digits r)
  end.

Fixpoint drop_zeros (rev_ds : list ascii) : list ascii :=
  match rev_ds with
  | c :: r => if Ascii.eqb c "0" then drop_zeros r else rev_ds
  | [] => []
  end.

Definition maximumFractionDigits : Z := 10.

(** The digits of [n / 10 ^ maximumFractionDigits]. *)
Definition fixed_digits (n : Z) : list ascii :=
  let unit := 10 ^ maximumFractionDigits in
  let fs := decimal_digits (n mod unit) in
  let padded :=
    (zeros (Z.to_nat maximumFractionDigits - List.length fs) ++ fs)%list in
  let fraction := rev (drop_zeros (rev padded)) in
  (group_digits (decimal_digits (n / unit)) ++
   match fraction with
   | [] => []
   | _ => "."%char :: fraction
   end)%list.

(** [s * 10 ^ p] in units of [10 ^ - maximumFractionDigits], rounded
    half away from zero. *)
Definition round_fixed (s p : Z) : Z :=
  let k := p + maximumFractionDigits in
  if (0 <=? k)%Z then s * 10 ^ k
  else (2 * s + 10 ^ (- k)) / (2 * 10 ^ (- k)).

(** The infinity sign U+221E. *)
Definition infinity_sign : list ascii :=
  [ascii_of_nat 226; ascii_of_nat 136; ascii_of_nat 158].

Definition toLocaleString (x : number) : string :=
  match x with
  | S754_nan => "NaN"
  | S754_infinity s =>
      text ((if s then ["-"%char] else []) ++ infinity_sign)%list
  | S754_zero s => if s then "-0" else "0"
  | S754_finite s m e =>
      let (d, p) := shortest_decimal m e in
      text ((if s then ["-"%char] else []) ++
            fixed_digits (round_fixed d p))%list
  end.

(** The text shown for [display]: unparsable text, text ending in a
    point, and a fraction ending in "0" are shown as they are. *)
Definition formatDisplay (value : string) : string :=
  let num := parseFloat value in
  if isNaN num then value
  else if endsWith value "." then value
  else if includes value "." && endsWith value "0" then value
  else toLocaleString num.

(** ** Keyboard support *)

(** The operator strings: "+", "-", and the UTF-8 encodings of the
    multiplication sign U+00D7 and the division sign U+00F7. *)
Definition op_symbol (op : Op) : string :=
  match op with
  | Plus => "+"
  | Minus => "-"
  | Times => text [ascii_of_nat 195; ascii_of_nat 151]
  | Divide => text [ascii_of_nat 195; ascii_of_nat 183]
  end.

(** [key as Operation]: the operator a string stands for. *)
Definition as_Operation (key : string) : Operation :=
  if key =? op_symbol Plus then Some Plus
  else if key =? op_symbol Minus then Some Minus
  else if key =? op_symbol Times then Some Times
  else if key =? op_symbol Divide then Some Divide
  else None.

(** The [keydown] listener: the state the handler it calls leaves, and
    whether [e.preventDefault()] was called.  [>=] and [<=] compare
    strings unit by unit; a key that no branch names is ignored. *)
Definition handleKeyDown (key : string) (s : CalculatorState)
  : CalculatorState * bool :=
  if ("0" <=? key) && (key <=? "9") then (inputDigit key s, false)
  else if key =? "." then (inputDecimal s, false)
  else if (key =? "+") || (key =? "-") then
    (performOperation (as_Operation key) s, false)
  else if key =? "*" then (performOperation (Some Times) s, false)
  else if key =? "/" then (performOperation (Some Divide) s, true)
  else if (key =? "Enter") || (key =? "=") then (calculate s, false)
  else if key =? "Escape" then (clear s, false)
  else if key =? "Backspace" then (backspace s, false)
  else if key =? "%" then (inputPercent s, false)
  else (s, false).

(** The state after a key press. *)
Definition press (s : CalculatorState) (key : string) : CalculatorState :=
  fst (handleKeyDown key s).

(** ** The rendered display *)

(** The line above the number, [{previousValue} {operation}]: rendered
    when [operation && previousValue !== null]. *)
Definition pendingLine (s : CalculatorState) : option string :=
  match operation s, previousValue s with
  | Some op, Some previous => Some (toString previous ++ " " ++ op_symbol op)
  | _, _ => None
  end.

(** The [active] property of the operator button of [op]:
    [operation === op]. *)
Definition active (op : Op) (s : CalculatorState) : bool :=
  match operation s with
  | Some o => op_symbol o =? op_symbol op
  | None => false
  end.

(** The number shown, [formatDisplay(display)]. *)
Definition shown (s : CalculatorState) : string := formatDisplay (display s).

(** ** The operator table of the specification *)

(** [apply op a b] as the specification's table gives it:
    [a + b], [a - b], [a * b], and [b <> 0 ? a / b : 0]. *)
Definition apply (op : Op) (a b : number) : number :=
  match op with
  | Plus => add a b
  | Minus => sub a b
  | Times => mul a b
  | Divide => if strict_not_equal b zero then div a b else zero
  end.

(** Keys that edit the operand shown in [display] and nothing else. *)
Definition entry_key (ev : event) : bool :=
  match ev with
  | InputDigit _ | InputDecimal | Backspace | ToggleSign | InputPercent => true
  | Clear | PerformOperation _ | Calculate => false
  end.

(** ** Notions used in the statements below *)

Close Scope string_scope.

(** [2 ^ k <= n / d] and [n / d < 2 ^ k]. *)
Definition pow_le (k n d : Z) : Prop := d * pow_pos 2 k <= n * pow_pos 2 (- k).

Definition pow_gt (k n d : Z) : Prop := n * pow_pos 2 (- k) < d * pow_pos 2 k.

(** The exponent [round_ratio] gives to [n / d] and the quotient it
    rounds. *)
Definition binade (n d : Z) : Z := Z.max (ilog2_ratio n d - 52) (-1074).

Definition quotient (n d : Z) : Z :=
  (n * pow_pos 2 (- binade n d)) / (d * pow_pos 2 (binade n d)).

Definition remainder (n d : Z) : Z :=
  (n * pow_pos 2 (- binade n d)) mod (d * pow_pos 2 (binade n d)).

Definition valid (x : number) : Prop := valid_binary prec emax x = true.

Definition all_digits (ds : list ascii) : Prop :=
  Forall (fun c => is_digit c = true) ds.

(** What may follow the digits of a literal: nothing, or a character
    that is neither a digit nor a point. *)
Definition ends_literal (r : list ascii) : Prop :=
  match r with
  | [] => True
  | c :: _ => is_digit c = false /\ Ascii.eqb c "." = false
  end.

Definition read_literal (cs : list ascii) : number :=
  match unsigned_literal cs with
  | Some l => number_of_literal l
  | None => NaN
  end.

(** The number read back from the rendering of a value: the value
    itself, and 0 for both zeros. *)
Definition read_back (x : number) : number :=
  match x with
  | S754_zero _ => zero
  | _ => x
  end.

(** An unsigned decimal as it is typed: digits, then possibly a point
    and further digits. *)
Definition unsigned_decimal (d : string) : Prop :=
  exists i f,
    all_digits i /\ i <> [] /\ all_digits f /\
    (d = text i \/ d = text (i ++ "."%char :: f)).

(** The keys that type an operand: digits, the point, backspace and
    clear. *)
Definition typing_key (ev : event) : bool :=
  match ev with
  | InputDigit _ | InputDecimal | Clear | Backspace => true
  | ToggleSign | InputPercent | PerformOperation _ | Calculate => false
  end.

(** The sign that [toString] and the formatter print before the
    digits. *)
Definition sign_chars (s : bool) : list ascii :=
  if s then ["-"%char] else [].

(** The number a digit key stands for, the number a sequence of digit
    keys spells, and its characters. *)
Definition digit_number (d : Digit) : Z :=
  match d with
  | d0 => 0 | d1 => 1 | d2 => 2 | d3 => 3 | d4 => 4
  | d5 => 5 | d6 => 6 | d7 => 7 | d8 => 8 | d9 => 9
  end.

Definition digits_number (ds : list Digit) : Z :=
  fold_left (fun a d => 10 * a + digit_number d) ds 0.

Definition digit_chars (ds : list Digit) : list ascii :=
  map (fun d => digit_char (digit_number d)) ds.

(** The number of decimal points in a text. *)
Definition points (cs : list ascii) : nat :=
  List.length (filter (Ascii.eqb ".") cs).

(** Keys as the keyboard reports them: one character, or a name, which
    does not start with a digit. *)
Definition digit_led (key : string) : bool :=
  match key with
  | String c _ => is_digit c
  | EmptyString => false
  end.

Definition keyboard_key (key : string) : Prop :=
  String.length key = 1%nat \/ digit_led key = false.

(** The left operand, when there is one, is a well-formed value. *)
Definition previous_valid (s : CalculatorState) : Prop :=
  forall p, previousValue s = Some p -> valid p.

(** What the four operations give on whole numbers: the sum, the
    difference, the product, and the quotient, 0 when the divisor
    is 0. *)
Definition whole_result (op : Op) (a b : Z) : Z :=
  match op with
  | Plus => a + b
  | Minus => a - b
  | Times => a * b
  | Divide => if b =? 0 then 0 else a / b
  end.

(** The decimal rendering of a whole number, and the same with the
    digits grouped by three. *)
Definition whole_chars (z : Z) : list ascii :=
  if z <? 0 then "-"%char :: decimal_digits (- z) else decimal_digits z.

Definition whole_grouped (z : Z) : list ascii :=
  if z <? 0 then "-"%char :: group_digits (decimal_digits (- z))
  else group_digits (decimal_digits z).

(** The value [x] is the whole number [z]; either zero stands for 0. *)
Definition stands_for (x : number) (z : Z) : Prop :=
  same_value_zero x (of_Z z) = true.

(** An operator key and the digit keys of its right operand; the
    result of a chain of them from the left; and the chains whose
    operands are typed and whose operands and results stay below
    [10 ^ 15], every division being exact or by 0. *)
Definition operation_keys (k : Op * list Digit) : list event :=
  PerformOperation (fst k) :: map InputDigit (snd k).

Definition chain_result (a : Z) (ks : list (Op * list Digit)) : Z :=
  fold_left (fun r k => whole_result (fst k) r (digits_number (snd k))) ks a.

Fixpoint chain_exact (a : Z) (ks : list (Op * list Digit)) : Prop :=
  match ks with
  | [] => True
  | k :: rest =>
      let b := digits_number (snd k) in
      let r := whole_result (fst k) a b in
      snd k <> [] /\ (b < 10 ^ 15)%Z /\ (- 10 ^ 15 < r < 10 ^ 15)%Z /\
      (fst k = Divide -> b = 0%Z \/ (a mod b = 0)%Z) /\
      chain_exact r rest
  end.

(** The value [x] is exactly the whole number [z]: the mantissa of [x]
    scaled by its power of two, with its sign. *)
Definition is_exactly (x : number) (z : Z) : Prop :=
  match x with
  | S754_zero _ => z = 0
  | S754_finite s m e =>
      (if s then - Zpos m else Zpos m) * pow_pos 2 e = z * pow_pos 2 (- e)
  | _ => False
  end.


(** Backspace on a minus sign and one more character leaves the bare
    sign. *)
Definition erases_to_sign (s : CalculatorState) (ev : event) : bool :=
  match ev with
  | Backspace =>
      negb (waitingForOperand s) &&
      (String.length (display s) =? 2)%nat &&
      String.prefix "-" (display s)
  | _ => false
  end.

(** The three texts [String] gives for the values that are not
    finite. *)
Definition not_finite_text (d : string) : bool :=
  ((d =? "NaN") || (d =? "Infinity") || (d =? "-Infinity"))%string.

(** An event in range: it does not erase a negative number down to its
    sign, and no result that is not finite is written to display. *)
Definition in_range (s : CalculatorState) (ev : event) : bool :=
  negb (erases_to_sign s ev) && negb (not_finite_text (display (step s ev))).

Fixpoint in_range_run (s : CalculatorState) (evs : list event) : bool :=
  match evs with
  | [] => true
  | ev :: rest => in_range s ev && in_range_run (step s ev) rest
  end.

(** * Properties *)

(** ** The model on known values *)

Example parseFloat_tenth :
  parseFloat "0.1"%string = S754_finite false 7205759403792794 (-56).
Proof. vm_compute. reflexivity. Qed.

Example parseFloat_agrees_with_division :
  parseFloat "0.1"%string = div (of_Z 1) (of_Z 10) /\
  parseFloat "1e-7"%string = div (of_Z 1) (of_Z 10000000) /\
  parseFloat "-2.5e3xyz"%string = of_Z (-2500).
Proof. repeat split; vm_compute; reflexivity. Qed.

Example parseFloat_prefixes :
  map parseFloat ["3."; ".5"; "1e"; "-"; "."; "Infinit"; "-Infinity"; " 7"]%string
  = [of_Z 3; div (of_Z 1) (of_Z 2); of_Z 1; NaN; NaN; NaN;
     opp Infinity; of_Z 7].
Proof. vm_compute. reflexivity. Qed.

Example toString_known_values :
  map (fun s => toString (parseFloat s))
      ["0.1"; "1e21"; "1e-7"; "0.000001"; "123456789012345678901234567890";
       "5e-324"; "1.7976931348623157e308"; "1e400"; "-0"; "9007199254740993";
       "100"; "4.35"]%string
  = ["0.1"; "1e+21"; "1e-7"; "0.000001"; "1.2345678901234568e+29";
     "5e-324"; "1.7976931348623157e+308"; "Infinity"; "0"; "9007199254740992";
     "100"; "4.35"]%string.
Proof. vm_compute. reflexivity. Qed.

Example sum_of_tenths :
  toString (add (parseFloat "0.1"%string) (parseFloat "0.2"%string))
  = "0.30000000000000004"%string.
Proof. vm_compute. reflexivity. Qed.

Example formatDisplay_known_values :
  map formatDisplay
      ["0"; "1000"; "1234.5"; "3."; "3.50"; "-"; "1234567.891";
       "0.00000000005"; "-0.00000000004"; "1e21"; "NaN"]%string
  = ["0"; "1,000"; "1,234.5"; "3."; "3.50"; "-"; "1,234,567.891";
     "0.0000000001"; "-0"; "1,000,000,000,000,000,000,000"; "NaN"]%string.
Proof. vm_compute. reflexivity. Qed.

(** ** Scaling by powers *)

Lemma pow_pos_ge_1 (b k : Z) : 0 < b -> 1 <= pow_pos b k.
Proof.
  intros Hb. unfold pow_pos.
  assert (0 < b ^ Z.max 0 k) by (apply Z.pow_pos_nonneg; lia). lia.
Qed.

Lemma pow_pos_nonneg (b k : Z) : 0 <= k -> pow_pos b k = b ^ k.
Proof. intros H. unfold pow_pos. now rewrite Z.max_r. Qed.

Lemma pow_pos_nonpos (b k : Z) : k <= 0 -> pow_pos b k = 1.
Proof. intros H. unfold pow_pos. now rewrite Z.max_l. Qed.

(** [b ^ k / b ^ j] written two ways. *)
Lemma pow_pos_cross (b k j : Z) :
  pow_pos b k * pow_pos b (- j) * pow_pos b (j - k) =
  pow_pos b j * pow_pos b (- k) * pow_pos b (k - j).
Proof.
  unfold pow_pos. rewrite <- !Z.pow_add_r by lia. f_equal. lia.
Qed.

Lemma pow_pos_add (b k j : Z) :
  pow_pos b (k + j) * pow_pos b (- k) * pow_pos b (- j) =
  pow_pos b (- (k + j)) * pow_pos b k * pow_pos b j.
Proof.
  unfold pow_pos. rewrite <- !Z.pow_add_r by lia. f_equal. lia.
Qed.

(** ** Comparing a ratio with a power of two *)

Lemma pow_gt_mono (k j n d : Z) :
  0 <= n -> 0 < d -> k <= j -> pow_gt k n d -> pow_gt j n d.
Proof.
  unfold pow_gt. intros Hn Hd Hkj H.
  pose proof (pow_pos_cross 2 k j) as C.
  rewrite (pow_pos_nonpos 2 (k - j)) in C by lia.
  pose proof (pow_pos_ge_1 2 k eq_refl). pose proof (pow_pos_ge_1 2 (- k) eq_refl).
  pose proof (pow_pos_ge_1 2 j eq_refl). pose proof (pow_pos_ge_1 2 (- j) eq_refl).
  pose proof (pow_pos_ge_1 2 (j - k) eq_refl).
  set (Ak := pow_pos 2 k) in *. set (Bk := pow_pos 2 (- k)) in *.
  set (Aj := pow_pos 2 j) in *. set (Bj := pow_pos 2 (- j)) in *.
  set (D := pow_pos 2 (j - k)) in *.
  apply Z.mul_lt_mono_pos_r with (p := Bk); [lia|].
  apply Z.le_lt_trans with (n * Bk * (Bj * D)); [nia|].
  apply Z.lt_le_trans with (d * Ak * (Bj * D)); [|nia].
  apply Z.mul_lt_mono_pos_r; nia.
Qed.

Lemma pow_le_mono (k j n d : Z) :
  0 <= n -> 0 < d -> k <= j -> pow_le j n d -> pow_le k n d.
Proof.
  intros Hn Hd Hkj H.
  destruct (Z.le_gt_cases (d * pow_pos 2 k) (n * pow_pos 2 (- k))) as [L|G];
    [exact L|].
  pose proof (pow_gt_mono k j n d Hn Hd Hkj G). unfold pow_le, pow_gt in *. lia.
Qed.

Lemma pow_le_gt_unique (k j n d : Z) :
  0 <= n -> 0 < d ->
  pow_le k n d -> pow_gt (k + 1) n d ->
  pow_le j n d -> pow_gt (j + 1) n d -> k = j.
Proof.
  intros Hn Hd Lk Gk Lj Gj.
  destruct (Z.lt_trichotomy k j) as [H|[H|H]]; [|exact H|].
  - pose proof (pow_gt_mono (k + 1) j n d Hn Hd ltac:(lia) Gk).
    unfold pow_le, pow_gt in *. lia.
  - pose proof (pow_gt_mono (j + 1) k n d Hn Hd ltac:(lia) Gj).
    unfold pow_le, pow_gt in *. lia.
Qed.

(** The same comparisons for an equal ratio. *)
Lemma pow_le_ratio (k n d n' d' : Z) :
  0 < d -> 0 < d' -> n * d' = n' * d -> pow_le k n d -> pow_le k n' d'.
Proof.
  unfold pow_le. intros Hd Hd' E H.
  pose proof (pow_pos_ge_1 2 k eq_refl). pose proof (pow_pos_ge_1 2 (- k) eq_refl).
  apply Z.mul_le_mono_pos_r with (p := d); [lia|]. nia.
Qed.

Lemma pow_gt_ratio (k n d n' d' : Z) :
  0 < d -> 0 < d' -> n * d' = n' * d -> pow_gt k n d -> pow_gt k n' d'.
Proof.
  unfold pow_gt. intros Hd Hd' E H.
  pose proof (pow_pos_ge_1 2 k eq_refl). pose proof (pow_pos_ge_1 2 (- k) eq_refl).
  apply Z.mul_lt_mono_pos_r with (p := d); [lia|]. nia.
Qed.

(** With [k = x - y] the comparisons are between [d * 2 ^ x] and
    [n * 2 ^ y]. *)
Lemma pow_pos_diff (x y : Z) :
  0 <= x -> 0 <= y ->
  pow_pos 2 (x - y) * 2 ^ y = pow_pos 2 (- (x - y)) * 2 ^ x.
Proof.
  intros Hx Hy. unfold pow_pos. rewrite <- !Z.pow_add_r by lia. f_equal. lia.
Qed.

Lemma pow_le_iff (x y n d : Z) :
  0 <= x -> 0 <= y -> pow_le (x - y) n d <-> d * 2 ^ x <= n * 2 ^ y.
Proof.
  intros Hx Hy. unfold pow_le.
  pose proof (pow_pos_diff x y Hx Hy) as C.
  pose proof (pow_pos_ge_1 2 (x - y) eq_refl).
  pose proof (pow_pos_ge_1 2 (- (x - y)) eq_refl).
  assert (0 < 2 ^ x) by (apply Z.pow_pos_nonneg; lia).
  assert (0 < 2 ^ y) by (apply Z.pow_pos_nonneg; lia).
  set (A := pow_pos 2 (x - y)) in *. set (B := pow_pos 2 (- (x - y))) in *.
  set (X := 2 ^ x) in *. set (Y := 2 ^ y) in *.
  split; intros Hle.
  - apply Z.mul_le_mono_pos_r with (p := B); [lia|].
    replace (d * X * B) with (d * (B * X)) by ring. rewrite <- C.
    replace (d * (A * Y)) with (d * A * Y) by ring.
    replace (n * Y * B) with (n * B * Y) by ring.
    apply Z.mul_le_mono_nonneg_r; lia.
  - apply Z.mul_le_mono_pos_r with (p := Y); [lia|].
    replace (d * A * Y) with (d * (A * Y)) by ring. rewrite C.
    replace (d * (B * X)) with (d * X * B) by ring.
    replace (n * B * Y) with (n * Y * B) by ring.
    apply Z.mul_le_mono_nonneg_r; lia.
Qed.

Lemma pow_gt_iff (x y n d : Z) :
  0 <= x -> 0 <= y -> pow_gt (x - y) n d <-> n * 2 ^ y < d * 2 ^ x.
Proof.
  intros Hx Hy. pose proof (pow_le_iff x y n d Hx Hy) as I.
  unfold pow_le, pow_gt in *. lia.
Qed.

Lemma log2_bounds (n : Z) : 0 < n -> 2 ^ Z.log2 n <= n < 2 * 2 ^ Z.log2 n.
Proof.
  intros H. pose proof (Z.log2_spec n H) as S.
  rewrite Z.pow_succ_r in S by apply Z.log2_nonneg. lia.
Qed.

Lemma ilog2_ratio_spec (n d : Z) :
  0 < n -> 0 < d ->
  pow_le (ilog2_ratio n d) n d /\ pow_gt (ilog2_ratio n d + 1) n d.
Proof.
  intros Hn Hd. unfold ilog2_ratio.
  pose proof (log2_bounds n Hn) as Bn. pose proof (log2_bounds d Hd) as Bd.
  pose proof (Z.log2_nonneg n) as Ln. pose proof (Z.log2_nonneg d) as Ld.
  set (a := Z.log2 n) in *. set (b := Z.log2 d) in *.
  assert (0 < 2 ^ a) by (apply Z.pow_pos_nonneg; lia).
  assert (0 < 2 ^ b) by (apply Z.pow_pos_nonneg; lia).
  assert (Glo : pow_le (a - b - 1) n d).
  { replace (a - b - 1) with (a - (b + 1)) by lia.
    apply pow_le_iff; [lia..|]. rewrite Z.pow_add_r by lia. nia. }
  assert (Ghi : pow_gt (a - b + 1) n d).
  { replace (a - b + 1) with (a + 1 - b) by lia.
    apply pow_gt_iff; [lia..|]. rewrite Z.pow_add_r by lia. nia. }
  cbv zeta. destruct (Z.leb_spec (d * pow_pos 2 (a - b)) (n * pow_pos 2 (- (a - b)))) as [L|G].
  - split; [exact L | exact Ghi].
  - split; [exact Glo|]. replace (a - b - 1 + 1) with (a - b) by lia. exact G.
Qed.

Lemma pow_pos_shift (e k : Z) :
  0 <= k ->
  pow_pos 2 (e + k) * pow_pos 2 (- e) =
  pow_pos 2 e * pow_pos 2 (- (e + k)) * 2 ^ k.
Proof.
  intros Hk. unfold pow_pos. rewrite <- !Z.pow_add_r by lia. f_equal. lia.
Qed.

(** The comparisons for [n / d] scaled down by [2 ^ e]. *)
Lemma scaled_pow_le_iff (e k n d : Z) :
  0 <= k ->
  pow_le (e + k) n d <-> d * pow_pos 2 e * 2 ^ k <= n * pow_pos 2 (- e).
Proof.
  intros Hk. unfold pow_le.
  pose proof (pow_pos_shift e k Hk) as C.
  pose proof (pow_pos_ge_1 2 e eq_refl). pose proof (pow_pos_ge_1 2 (- e) eq_refl).
  pose proof (pow_pos_ge_1 2 (e + k) eq_refl).
  pose proof (pow_pos_ge_1 2 (- (e + k)) eq_refl).
  assert (0 < 2 ^ k) by (apply Z.pow_pos_nonneg; lia).
  set (A := pow_pos 2 e) in *. set (B := pow_pos 2 (- e)) in *.
  set (A' := pow_pos 2 (e + k)) in *. set (B' := pow_pos 2 (- (e + k))) in *.
  set (K := 2 ^ k) in *.
  split; intros Hle.
  - apply Z.mul_le_mono_pos_r with (p := B'); [lia|].
    replace (d * A * K * B') with (d * (A * B' * K)) by ring. rewrite <- C.
    replace (d * (A' * B)) with (d * A' * B) by ring.
    replace (n * B * B') with (n * B' * B) by ring.
    apply Z.mul_le_mono_nonneg_r; lia.
  - apply Z.mul_le_mono_pos_r with (p := B); [lia|].
    replace (d * A' * B) with (d * (A' * B)) by ring. rewrite C.
    replace (d * (A * B' * K)) with (d * A * K * B') by ring.
    replace (n * B' * B) with (n * B * B') by ring.
    apply Z.mul_le_mono_nonneg_r; lia.
Qed.

Lemma scaled_pow_gt_iff (e k n d : Z) :
  0 <= k ->
  pow_gt (e + k) n d <-> n * pow_pos 2 (- e) < d * pow_pos 2 e * 2 ^ k.
Proof.
  intros Hk. pose proof (scaled_pow_le_iff e k n d Hk) as I.
  unfold pow_le, pow_gt in *. lia.
Qed.

Lemma round_ratio_eq (n d : Z) :
  0 < n ->
  round_ratio n d =
  finite_of (round_half_even (quotient n d) (remainder n d)
                             (d * pow_pos 2 (binade n d)))
            (binade n d).
Proof.
  intros Hn. unfold round_ratio.
  destruct (Z.eqb_spec n 0); [lia|]. reflexivity.
Qed.

Lemma quotient_bounds (n d : Z) :
  0 < n -> 0 < d ->
  0 <= quotient n d < 2 ^ 53 /\
  (binade n d = -1074 \/ 2 ^ 52 <= quotient n d).
Proof.
  intros Hn Hd.
  destruct (ilog2_ratio_spec n d Hn Hd) as [L G].
  pose proof (pow_pos_ge_1 2 (binade n d) eq_refl) as HA.
  pose proof (pow_pos_ge_1 2 (- binade n d) eq_refl) as HB.
  assert (Hden : 0 < d * pow_pos 2 (binade n d)) by nia.
  unfold quotient. repeat split.
  - apply Z.div_pos; nia.
  - apply Z.div_lt_upper_bound; [exact Hden|].
    apply (scaled_pow_gt_iff (binade n d) 53 n d); [lia|].
    apply (pow_gt_mono (ilog2_ratio n d + 1)); unfold binade; try lia.
    exact G.
  - destruct (Z.le_gt_cases (-1074) (ilog2_ratio n d - 52)) as [N|S].
    + right. apply Z.div_le_lower_bound; [exact Hden|].
        apply (scaled_pow_le_iff (binade n d) 52 n d); [lia|].
      replace (binade n d + 52) with (ilog2_ratio n d)
        by (unfold binade; lia).
      exact L.
    + left. unfold binade. lia.
Qed.

(** ** Well-formed values *)

Lemma digits2_pos_log2 (p : positive) :
  Zpos (digits2_pos p) = Z.log2 (Zpos p) + 1.
Proof.
  assert (E : digits2_pos p = Pos.size p)
    by (induction p; simpl; congruence).
  rewrite E. destruct p; simpl; lia.
Qed.

Lemma digits2_pos_unique (p : positive) (k : Z) :
  0 < k -> 2 ^ (k - 1) <= Zpos p < 2 ^ k -> Zpos (digits2_pos p) = k.
Proof.
  intros Hk H. rewrite digits2_pos_log2.
  assert (E : Z.log2 (Zpos p) = k - 1).
  { apply Z.log2_unique; [lia|].
    now replace (Z.succ (k - 1)) with k by lia. }
  lia.
Qed.

Lemma digits2_pos_bounds (p : positive) :
  2 ^ (Zpos (digits2_pos p) - 1) <= Zpos p < 2 ^ Zpos (digits2_pos p).
Proof.
  rewrite digits2_pos_log2.
  pose proof (Z.log2_spec (Zpos p) eq_refl) as S.
  replace (Z.log2 (Zpos p) + 1 - 1) with (Z.log2 (Zpos p)) by lia.
  exact S.
Qed.

Lemma valid_finite_intro (s : bool) (m : positive) (e : Z) :
  Zpos m < 2 ^ 53 -> -1074 <= e <= 971 ->
  (e = -1074 \/ 2 ^ 52 <= Zpos m) ->
  valid (S754_finite s m e).
Proof.
  intros Hm He Hn. unfold valid, valid_binary, bounded, canonical_mantissa.
  apply andb_true_iff. split; [|apply Z.leb_le; unfold emax, prec; lia].
  apply Z.eqb_eq. unfold fexp, emin, emax, prec.
  pose proof (digits2_pos_bounds m) as B.
  assert (D : Zpos (digits2_pos m) <= 53).
  { destruct (Z.le_gt_cases (Zpos (digits2_pos m)) 53) as [L|G]; [exact L|].
    assert (2 ^ 53 <= 2 ^ (Zpos (digits2_pos m) - 1))
      by (apply Z.pow_le_mono_r; lia). lia. }
  destruct Hn as [->|Hn]; [lia|].
  assert (53 <= Zpos (digits2_pos m)).
  { destruct (Z.le_gt_cases 53 (Zpos (digits2_pos m))) as [L|G]; [exact L|].
    assert (2 ^ Zpos (digits2_pos m) <= 2 ^ 52)
      by (apply Z.pow_le_mono_r; lia). lia. }
  lia.
Qed.

Lemma valid_finite_elim (s : bool) (m : positive) (e : Z) :
  valid (S754_finite s m e) ->
  Zpos m < 2 ^ 53 /\ -1074 <= e <= 971 /\
  e = Z.max (Zpos (digits2_pos m) + e - 53) (-1074).
Proof.
  unfold valid, valid_binary, bounded, canonical_mantissa.
  intros H. apply andb_true_iff in H as [C B].
  apply Z.eqb_eq in C. apply Z.leb_le in B.
  unfold fexp, emin, emax, prec in *.
  pose proof (digits2_pos_bounds m) as D.
  assert (Zpos (digits2_pos m) <= 53) by lia.
  repeat split; try lia.
  apply Z.lt_le_trans with (2 ^ Zpos (digits2_pos m)); [lia|].
  apply Z.pow_le_mono_r; lia.
Qed.

Lemma finite_of_valid (q e : Z) :
  0 <= q <= 2 ^ 53 -> -1074 <= e ->
  (e = -1074 \/ 2 ^ 52 <= q) ->
  valid (finite_of q e).
Proof.
  intros Hq He Hn. unfold finite_of.
  destruct (Z.eqb_spec q 0); [reflexivity|].
  destruct (Z.eqb_spec q (2 ^ prec)).
  - destruct (Z.leb_spec (e + 1) (emax - prec)); [|reflexivity].
    unfold emax, prec in *.
    apply valid_finite_intro; rewrite ?Z2Pos.id; lia.
  - destruct (Z.leb_spec e (emax - prec)); [|reflexivity].
    unfold emax, prec in *.
    apply valid_finite_intro; rewrite ?Z2Pos.id; lia.
Qed.

Lemma round_half_even_bounds (q r den : Z) :
  q <= round_half_even q r den <= q + 1.
Proof.
  unfold round_half_even.
  destruct (2 * r ?= den); [destruct (Z.even q)| |]; lia.
Qed.

Lemma round_ratio_valid (n d : Z) :
  0 <= n -> 0 < d -> valid (round_ratio n d).
Proof.
  intros Hn Hd.
  destruct (Z.eq_dec n 0) as [->|N]; [reflexivity|].
  rewrite round_ratio_eq by lia.
  destruct (quotient_bounds n d ltac:(lia) Hd) as [Hq Hs].
  pose proof (round_half_even_bounds (quotient n d) (remainder n d)
                (d * pow_pos 2 (binade n d))) as R.
  apply finite_of_valid; [lia | unfold binade; lia | lia].
Qed.

Lemma opp_valid (x : number) : valid x -> valid (opp x).
Proof. destruct x; simpl; auto. Qed.

Lemma of_Z_minus_one :
  of_Z (-1) = S754_finite true 4503599627370496 (-52).
Proof. vm_compute. reflexivity. Qed.

Lemma shr_fexp_exact_canonical (m : positive) (e : Z) :
  valid (S754_finite false m e) ->
  shr_fexp prec emax (Zpos m) e loc_Exact =
  ({| shr_m := Zpos m; shr_r := false; shr_s := false |}, e).
Proof.
  intros V. apply valid_finite_elim in V as (_ & _ & C).
  unfold shr_fexp, fexp, emin, emax, prec. cbn [Zdigits2].
  replace (Z.max (Zpos (digits2_pos m) + e - 53) (3 - 1024 - 53) - e) with 0
    by lia.
  reflexivity.
Qed.

Lemma shr_fexp_exact_52 (m : positive) (e : Z) :
  valid (S754_finite false m e) ->
  shr_fexp prec emax (Zpos (m * 4503599627370496)) (e + -52) loc_Exact =
  ({| shr_m := Zpos m; shr_r := false; shr_s := false |}, e).
Proof.
  intros V. apply valid_finite_elim in V as (_ & _ & C).
  rewrite Pos.mul_comm. cbn [Pos.mul].
  unfold shr_fexp, fexp, emin, emax, prec.
  cbn [Zdigits2 digits2_pos]. rewrite !Pos2Z.inj_succ.
  match goal with
  | |- shr _ _ ?n = _ => replace n with 52 by lia
  end.
  unfold shr. cbn [shr_record_of_loc iter_pos shr_1 orb].
  f_equal. lia.
Qed.

Lemma mul_minus_one (x : number) : valid x -> mul x (of_Z (-1)) = opp x.
Proof.
  intros V. rewrite of_Z_minus_one.
  destruct x as [s|s| |s m e];
    [destruct s; reflexivity | destruct s; reflexivity | reflexivity |].
  assert (V' : valid (S754_finite false m e)) by exact V.
  unfold mul, SFmul, binary_round_aux.
  rewrite (shr_fexp_exact_52 m e V').
  cbn [shr_m loc_of_shr_record round_nearest_even].
  rewrite (shr_fexp_exact_canonical m e V'). cbn [shr_m].
  apply valid_finite_elim in V' as (_ & B & _).
  destruct (Z.leb_spec e (emax - prec)) as [_|G];
    [|unfold emax, prec in G; lia].
  cbn [opp SFopp]. now destruct s.
Qed.

(** ** [round_ratio] depends on the ratio only *)

Lemma div_ratio (a b a' b' : Z) :
  0 < b -> 0 < b' -> a * b' = a' * b -> a / b = a' / b'.
Proof.
  intros Hb Hb' E.
  pose proof (Z.div_mod a b ltac:(lia)) as D.
  pose proof (Z.mod_pos_bound a b Hb) as R.
  set (q := a / b) in *. set (r := a mod b) in *.
  clearbody q r.
  assert (F : b * (a' - b' * q) = b' * r).
  { subst a. ring_simplify. ring_simplify in E. lia. }
  apply Z.div_unique_pos with (r := a' - b' * q); [|lia].
  split.
  - apply Z.mul_le_mono_pos_l with (p := b); [lia|]. rewrite F. nia.
  - apply Z.mul_lt_mono_pos_l with (p := b); [lia|]. rewrite F. nia.
Qed.

Lemma mod_ratio (a b a' b' : Z) :
  0 < b -> 0 < b' -> a * b' = a' * b ->
  (a mod b) * b' = (a' mod b') * b.
Proof.
  intros Hb Hb' E.
  rewrite !Z.mod_eq by lia. rewrite <- (div_ratio a b a' b' Hb Hb' E). nia.
Qed.

Lemma compare_ratio (r b r' b' : Z) :
  0 < b -> 0 < b' -> r * b' = r' * b -> (2 * r ?= b) = (2 * r' ?= b').
Proof.
  intros Hb Hb' E.
  destruct (Z.compare_spec (2 * r) b), (Z.compare_spec (2 * r') b');
    try reflexivity; exfalso; nia.
Qed.

Lemma ilog2_ratio_ratio (n d n' d' : Z) :
  0 < n -> 0 < d -> 0 < n' -> 0 < d' -> n * d' = n' * d ->
  ilog2_ratio n d = ilog2_ratio n' d'.
Proof.
  intros Hn Hd Hn' Hd' E.
  destruct (ilog2_ratio_spec n d Hn Hd) as [L G].
  destruct (ilog2_ratio_spec n' d' Hn' Hd') as [L' G'].
  apply (pow_le_gt_unique _ _ n d); try lia; try assumption.
  - apply (pow_le_ratio _ n' d'); auto.
  - apply (pow_gt_ratio _ n' d'); auto.
Qed.

Lemma round_ratio_ratio (n d n' d' : Z) :
  0 < n -> 0 < d -> 0 < n' -> 0 < d' -> n * d' = n' * d ->
  round_ratio n d = round_ratio n' d'.
Proof.
  intros Hn Hd Hn' Hd' E.
  rewrite !round_ratio_eq by assumption.
  unfold quotient, remainder, binade.
  rewrite <- (ilog2_ratio_ratio n d n' d') by assumption.
  set (e := Z.max (ilog2_ratio n d - 52) (-1074)).
  pose proof (pow_pos_ge_1 2 e eq_refl). pose proof (pow_pos_ge_1 2 (- e) eq_refl).
  set (A := pow_pos 2 e) in *. set (B := pow_pos 2 (- e)) in *.
  assert (E' : n * B * (d' * A) = n' * B * (d * A)) by nia.
  assert (0 < d * A) by nia. assert (0 < d' * A) by nia.
  pose proof (mod_ratio (n * B) (d * A) (n' * B) (d' * A)
                ltac:(assumption) ltac:(assumption) E') as M.
  unfold round_half_even.
  rewrite (div_ratio (n * B) (d * A) (n' * B) (d' * A)) by assumption.
  now rewrite (compare_ratio ((n * B) mod (d * A)) (d * A)
                             ((n' * B) mod (d' * A)) (d' * A)
                             ltac:(assumption) ltac:(assumption) M).
Qed.

(** ** A value is the number value of itself *)

Lemma round_half_even_exact (q den : Z) : 0 < den -> round_half_even q 0 den = q.
Proof.
  intros H. unfold round_half_even.
  destruct (Z.compare_spec (2 * 0) den); lia.
Qed.

Lemma round_ratio_exact (m : positive) (e : Z) :
  valid (S754_finite false m e) ->
  round_ratio (Zpos m * pow_pos 2 e) (pow_pos 2 (- e)) = S754_finite false m e.
Proof.
  intros V. apply valid_finite_elim in V as (Hm & He & C).
  pose proof (pow_pos_ge_1 2 e eq_refl) as HA.
  pose proof (pow_pos_ge_1 2 (- e) eq_refl) as HB.
  pose proof (digits2_pos_bounds m) as D.
  set (k := Zpos (digits2_pos m)) in *.
  assert (Hk : 0 < k) by (unfold k; lia).
  set (n := Zpos m * pow_pos 2 e). set (d := pow_pos 2 (- e)).
  assert (Hn : 0 < n) by (unfold n; nia).
  assert (Hd : 0 < d) by (unfold d; lia).
  assert (L : ilog2_ratio n d = e + (k - 1)).
  { destruct (ilog2_ratio_spec n d Hn Hd) as [L G].
    apply (pow_le_gt_unique _ _ n d); try lia; try assumption.
    - apply scaled_pow_le_iff; [lia|]. unfold n, d. nia.
    - replace (e + (k - 1) + 1) with (e + k) by lia.
      apply scaled_pow_gt_iff; [lia|]. unfold n, d. nia. }
  assert (Be : binade n d = e) by (unfold binade; lia).
  rewrite round_ratio_eq by assumption.
  unfold quotient, remainder. rewrite Be. fold d.
  replace (n * d) with (Zpos m * (d * pow_pos 2 e)) by (unfold n; ring).
  rewrite Z.mod_mul, Z.div_mul by nia.
  rewrite round_half_even_exact by nia.
  unfold finite_of, prec, emax.
  destruct (Z.eqb_spec (Zpos m) 0); [lia|].
  destruct (Z.eqb_spec (Zpos m) (2 ^ 53)); [lia|].
  destruct (Z.leb_spec e (1024 - 53)); [|lia].
  reflexivity.
Qed.

(** ** The shortest decimal of a value has that value *)

Lemma same_value_eq (x y : number) : same_value x y = true -> x = y.
Proof.
  destruct x as [a|a| |a m e], y as [b|b| |b m' e']; simpl; try discriminate;
    try reflexivity.
  - intros H. apply Bool.eqb_prop in H. now subst.
  - intros H. apply Bool.eqb_prop in H. now subst.
  - intros H. apply andb_true_iff in H as [H He].
    apply andb_true_iff in H as [Hs Hm].
    apply Bool.eqb_prop in Hs. apply Pos.eqb_eq in Hm. apply Z.eqb_eq in He.
    now subst.
Qed.

Lemma same_value_refl (x : number) : same_value x x = true.
Proof.
  destruct x as [a|a| |a m e]; simpl; try reflexivity;
    rewrite ?Bool.eqb_reflx, ?Pos.eqb_refl, ?Z.eqb_refl; reflexivity.
Qed.

Lemma strip_zeros_spec (fuel : nat) (s p : Z) :
  0 < s ->
  0 < fst (strip_zeros fuel s p) /\
  p <= snd (strip_zeros fuel s p) /\
  s = fst (strip_zeros fuel s p) * 10 ^ (snd (strip_zeros fuel s p) - p).
Proof.
  revert s p. induction fuel as [|f IH]; intros s p Hs; simpl.
  - rewrite Z.sub_diag. simpl. lia.
  - destruct (Z.eqb_spec (s mod 10) 0) as [E|N]; simpl.
    + destruct (Z.eqb_spec s 0); [lia|]. simpl.
      assert (Hs' : 0 < s / 10).
      { pose proof (Z.div_mod s 10 ltac:(lia)). lia. }
      destruct (IH (s / 10) (p + 1) Hs') as (H1 & H2 & H3).
      split; [exact H1|]. split; [lia|].
      replace (snd (strip_zeros f (s / 10) (p + 1)) - p)
        with (Z.succ (snd (strip_zeros f (s / 10) (p + 1)) - (p + 1))) by lia.
      rewrite Z.pow_succ_r by lia.
      pose proof (Z.div_mod s 10 ltac:(lia)). nia.
    + rewrite Z.sub_diag. simpl. lia.
Qed.

Lemma number_of_decimal_scaled (s p p' : Z) :
  0 < s -> p <= p' ->
  number_of_decimal (s * 10 ^ (p' - p)) p = number_of_decimal s p'.
Proof.
  intros Hs Hp. unfold number_of_decimal.
  pose proof (pow_pos_cross 10 p' p) as C.
  rewrite (pow_pos_nonpos 10 (p - p')) in C by lia.
  rewrite (pow_pos_nonneg 10 (p' - p)) in C by lia.
  pose proof (pow_pos_ge_1 10 p eq_refl). pose proof (pow_pos_ge_1 10 (- p) eq_refl).
  pose proof (pow_pos_ge_1 10 p' eq_refl). pose proof (pow_pos_ge_1 10 (- p') eq_refl).
  assert (0 < 10 ^ (p' - p)) by (apply Z.pow_pos_nonneg; lia).
  set (A := pow_pos 10 p) in *. set (B := pow_pos 10 (- p)) in *.
  set (A' := pow_pos 10 p') in *. set (B' := pow_pos 10 (- p')) in *.
  set (T := 10 ^ (p' - p)) in *.
  apply round_ratio_ratio; nia.
Qed.

Lemma normal_decimal_rounds (s p : Z) :
  0 < s ->
  0 < fst (normal_decimal s p) /\
  number_of_decimal (fst (normal_decimal s p)) (snd (normal_decimal s p))
  = number_of_decimal s p.
Proof.
  intros Hs. unfold normal_decimal.
  destruct (strip_zeros_spec (S (Z.to_nat (Z.log2 s))) s p Hs) as (H1 & H2 & H3).
  destruct (strip_zeros (S (Z.to_nat (Z.log2 s))) s p) as [s' p'].
  cbn [fst snd] in *. split; [exact H1|].
  rewrite <- (number_of_decimal_scaled s' p p') by assumption.
  now rewrite <- H3.
Qed.

Lemma number_of_decimal_zero (p : Z) : number_of_decimal 0 p = S754_zero false.
Proof. reflexivity. Qed.

Lemma strip_zeros_zero (fuel : nat) (p : Z) : strip_zeros fuel 0 p = (0, p).
Proof. destruct fuel; reflexivity. Qed.

Lemma exact_decimal_rounds (m : positive) (e : Z) :
  valid (S754_finite false m e) ->
  0 < fst (exact_decimal m e) /\
  number_of_decimal (fst (exact_decimal m e)) (snd (exact_decimal m e))
  = S754_finite false m e.
Proof.
  intros V. rewrite <- (round_ratio_exact m e V). unfold exact_decimal.
  destruct (Z.leb_spec 0 e) as [P|N].
  - assert (0 < 2 ^ e) by (apply Z.pow_pos_nonneg; lia).
    destruct (normal_decimal_rounds (Zpos m * 2 ^ e) 0 ltac:(nia)) as [H1 H2].
    split; [exact H1|]. rewrite H2. unfold number_of_decimal.
    rewrite (pow_pos_nonneg 2 e), (pow_pos_nonpos 2 (- e)) by lia.
    now rewrite Z.mul_1_r.
  - assert (0 < 5 ^ (- e)) by (apply Z.pow_pos_nonneg; lia).
    assert (0 < 2 ^ (- e)) by (apply Z.pow_pos_nonneg; lia).
    destruct (normal_decimal_rounds (Zpos m * 5 ^ (- e)) e ltac:(nia)) as [H1 H2].
    split; [exact H1|]. rewrite H2. unfold number_of_decimal.
    rewrite (pow_pos_nonpos 2 e), (pow_pos_nonneg 2 (- e)) by lia.
    rewrite (pow_pos_nonpos 10 e), (pow_pos_nonneg 10 (- e)) by lia.
    replace 10 with (2 * 5) by reflexivity. rewrite Z.pow_mul_l.
    apply round_ratio_ratio; nia.
Qed.

Lemma rounds_to_sound (s p : Z) (m : positive) (e : Z) :
  0 <= s ->
  rounds_to (S754_finite false m e) s p = true ->
  0 < fst (normal_decimal s p) /\
  number_of_decimal (fst (normal_decimal s p)) (snd (normal_decimal s p))
  = S754_finite false m e.
Proof.
  intros Hs. unfold rounds_to.
  destruct (normal_decimal s p) as [s' p'] eqn:E. intros H.
  apply same_value_eq in H. cbn [fst snd]. split; [|exact H].
  destruct (Z.eq_dec s 0) as [->|N].
  - unfold normal_decimal in E. rewrite strip_zeros_zero in E.
    injection E as <- <-. discriminate H.
  - pose proof (normal_decimal_rounds s p ltac:(lia)) as [H1 _].
    now rewrite E in H1.
Qed.

Lemma round_half_even_cases (q r den : Z) :
  round_half_even q r den = q \/ round_half_even q r den = q + 1.
Proof.
  unfold round_half_even.
  destruct (2 * r ?= den); [destruct (Z.even q)| |]; auto.
Qed.

Lemma candidate_sound (m : positive) (e num den n k : Z) (c : Z * Z) :
  0 <= num -> 0 < den ->
  candidate (S754_finite false m e) num den n k = Some c ->
  0 < fst c /\ number_of_decimal (fst c) (snd c) = S754_finite false m e.
Proof.
  intros Hn Hd. unfold candidate.
  pose proof (pow_pos_ge_1 10 (n - k) eq_refl).
  pose proof (pow_pos_ge_1 10 (- (n - k)) eq_refl).
  set (a := num * pow_pos 10 (- (n - k))).
  set (b := den * pow_pos 10 (n - k)).
  assert (Hlo : 0 <= a / b) by (apply Z.div_pos; unfold a, b; nia).
  cbv zeta.
  destruct (rounds_to _ (a / b) (n - k)) eqn:Rlo;
    destruct (rounds_to _ (a / b + 1) (n - k)) eqn:Rhi;
    intros E; try discriminate; injection E as <-.
  - destruct (round_half_even_cases (a / b) (a mod b) b) as [-> | ->].
    + now apply rounds_to_sound.
    + apply rounds_to_sound; [lia | assumption].
  - now apply rounds_to_sound.
  - apply rounds_to_sound; [lia | assumption].
Qed.

Lemma shortest_from_sound (fuel : nat) (m : positive) (e num den n k : Z)
      (c : Z * Z) :
  0 <= num -> 0 < den ->
  shortest_from fuel (S754_finite false m e) num den n k = Some c ->
  0 < fst c /\ number_of_decimal (fst c) (snd c) = S754_finite false m e.
Proof.
  intros Hn Hd. revert k.
  induction fuel as [|f IH]; intros k; simpl; [discriminate|].
  destruct (candidate _ num den n k) as [c'|] eqn:E.
  - intros H. injection H as <-. now apply (candidate_sound m e num den n k).
  - apply IH.
Qed.

Lemma shortest_decimal_rounds (m : positive) (e : Z) :
  valid (S754_finite false m e) ->
  0 < fst (shortest_decimal m e) /\
  number_of_decimal (fst (shortest_decimal m e)) (snd (shortest_decimal m e))
  = S754_finite false m e.
Proof.
  intros V. unfold shortest_decimal.
  pose proof (pow_pos_ge_1 2 e eq_refl). pose proof (pow_pos_ge_1 2 (- e) eq_refl).
  destruct (shortest_from 17 _ _ _ _ 1) as [c|] eqn:E.
  - refine (shortest_from_sound 17 m e _ _ _ 1 c _ _ E); [nia | lia].
  - now apply exact_decimal_rounds.
Qed.

(** ** Rendered numbers are not empty *)

Lemma digits_fuel_nonempty (fuel : nat) (n : Z) (acc : list ascii) :
  acc <> [] -> digits_fuel fuel n acc <> [].
Proof.
  revert n acc. induction fuel as [|f IH]; intros n acc H; simpl; [exact H|].
  destruct (n <? 10); [discriminate|]. apply IH. discriminate.
Qed.

Lemma decimal_digits_nonempty (n : Z) : decimal_digits n <> [].
Proof.
  unfold decimal_digits. simpl.
  destruct (n <? 10); [discriminate|].
  apply digits_fuel_nonempty. discriminate.
Qed.

Lemma app_nonempty_l {A : Type} (xs ys : list A) : xs <> [] -> (xs ++ ys) <> [].
Proof. destruct xs; [congruence | discriminate]. Qed.

Lemma format_decimal_nonempty (s p : Z) : format_decimal s p <> [].
Proof.
  unfold format_decimal.
  pose proof (decimal_digits_nonempty s) as Hd.
  destruct (decimal_digits s) as [|d ds]; [congruence|].
  cbv zeta.
  destruct ((-5 <=? _) && _)%bool.
  - destruct (_ <=? _); [discriminate|].
    destruct (0 <? _); [|discriminate].
    destruct (firstn _ _); discriminate.
  - destruct ds; discriminate.
Qed.

Lemma number_chars_nonempty (x : number) : number_chars x <> [].
Proof.
  destruct x as [s|s| |s m e]; simpl; try discriminate.
  - destruct s; discriminate.
  - destruct (shortest_decimal m e) as [d p].
    pose proof (format_decimal_nonempty d p).
    destruct s; simpl; [discriminate | assumption].
Qed.

(** ** Decimal digits *)

Lemma digit_char_spec (d : Z) :
  0 <= d <= 9 -> is_digit (digit_char d) = true /\ digit_value (digit_char d) = d.
Proof.
  intros H.
  assert (C : d = 0 \/ d = 1 \/ d = 2 \/ d = 3 \/ d = 4 \/ d = 5 \/ d = 6 \/
              d = 7 \/ d = 8 \/ d = 9) by lia.
  repeat destruct C as [->|C]; try subst d; split; reflexivity.
Qed.

Lemma digits_value_acc (ds : list ascii) (a : Z) :
  fold_left (fun a c => 10 * a + digit_value c) ds a =
  a * 10 ^ Z.of_nat (List.length ds) + digits_value ds.
Proof.
  unfold digits_value. revert a.
  induction ds as [|c ds IH]; intros a.
  - simpl. lia.
  - cbn [fold_left List.length]. rewrite IH, (IH (10 * 0 + digit_value c)).
    rewrite Nat2Z.inj_succ, Z.pow_succ_r by lia. ring.
Qed.

Lemma digits_value_app (xs ys : list ascii) :
  digits_value (xs ++ ys) =
  digits_value xs * 10 ^ Z.of_nat (List.length ys) + digits_value ys.
Proof.
  unfold digits_value at 1. rewrite fold_left_app.
  fold (digits_value xs). apply digits_value_acc.
Qed.

Lemma digits_value_cons (c : ascii) (ds : list ascii) :
  digits_value (c :: ds) =
  digit_value c * 10 ^ Z.of_nat (List.length ds) + digits_value ds.
Proof.
  change (c :: ds) with ([c] ++ ds). rewrite digits_value_app.
  unfold digits_value at 1. simpl fold_left. reflexivity.
Qed.

Lemma digits_value_zeros (n : nat) : digits_value (zeros n) = 0.
Proof.
  induction n as [|n IH]; [reflexivity|].
  unfold zeros in *. cbn [repeat]. rewrite digits_value_cons, IH.
  reflexivity.
Qed.

Lemma zeros_length (n : nat) : List.length (zeros n) = n.
Proof. apply repeat_length. Qed.

Lemma zeros_digits (n : nat) : Forall (fun c => is_digit c = true) (zeros n).
Proof. induction n; constructor; auto. Qed.

Lemma digits_fuel_spec (fuel : nat) (n : Z) (acc : list ascii) :
  0 <= n < 10 ^ Z.of_nat fuel ->
  exists ds,
    digits_fuel fuel n acc = ds ++ acc /\
    Forall (fun c => is_digit c = true) ds /\
    digits_value ds = n.
Proof.
  revert n acc. induction fuel as [|f IH]; intros n acc Hn.
  - exists []. change (10 ^ Z.of_nat 0) with 1 in Hn.
    split; [reflexivity|]. split; [constructor|].
    unfold digits_value. simpl. lia.
  - rewrite Nat2Z.inj_succ, Z.pow_succ_r in Hn by apply Nat2Z.is_nonneg.
    pose proof (Z.mod_pos_bound n 10 eq_refl) as Hm.
    destruct (digit_char_spec (n mod 10) ltac:(lia)) as [D1 D2].
    pose proof (Z.div_mod n 10 ltac:(lia)) as E.
    cbn [digits_fuel]. destruct (Z.ltb_spec n 10) as [S|L].
    + exists [digit_char (n mod 10)]. repeat split.
      * constructor; [exact D1 | constructor].
      * rewrite digits_value_cons, D2.
        change (digits_value []) with 0. cbn [List.length Z.of_nat].
        rewrite Z.pow_0_r, Z.mod_small; lia.
    + destruct (IH (n / 10) (digit_char (n mod 10) :: acc)) as (ds & H1 & H2 & H3).
      { split; [apply Z.div_pos; lia|].
        apply Z.div_lt_upper_bound; lia. }
      exists (ds ++ [digit_char (n mod 10)]). repeat split.
      * rewrite H1, <- app_assoc. reflexivity.
      * apply Forall_app. split; [exact H2|]. constructor; [exact D1|constructor].
      * rewrite digits_value_app, H3, digits_value_cons, D2.
        change (digits_value []) with 0. cbn [List.length Z.of_nat Pos.of_succ_nat].
        rewrite Z.pow_0_r, Z.pow_1_r. lia.
Qed.

Lemma decimal_digits_spec (n : Z) :
  0 <= n ->
  Forall (fun c => is_digit c = true) (decimal_digits n) /\
  digits_value (decimal_digits n) = n.
Proof.
  intros Hn. unfold decimal_digits.
  destruct (digits_fuel_spec (S (Z.to_nat (Z.log2 n))) n []) as (ds & H1 & H2 & H3).
  { split; [exact Hn|].
    destruct (Z.eq_dec n 0) as [->|N]; [reflexivity|].
    pose proof (Z.log2_spec n ltac:(lia)) as L.
    pose proof (Z.log2_nonneg n).
    rewrite Nat2Z.inj_succ, Z2Nat.id by lia.
    apply Z.lt_le_trans with (2 ^ Z.succ (Z.log2 n)); [lia|].
    apply Z.pow_le_mono_l. lia. }
  rewrite H1, app_nil_r. split; assumption.
Qed.

(** ** Reading digits back *)

Lemma span_digits_app (ds r : list ascii) :
  Forall (fun c => is_digit c = true) ds ->
  match r with [] => True | c :: _ => is_digit c = false end ->
  span_digits (ds ++ r) = (ds, r).
Proof.
  intros Hd Hr. induction Hd as [|c ds Hc _ IH]; simpl.
  - destruct r as [|c r]; [reflexivity|]. simpl. now rewrite Hr.
  - now rewrite Hc, IH.
Qed.

Lemma span_digits_all (ds : list ascii) :
  Forall (fun c => is_digit c = true) ds -> span_digits ds = (ds, []).
Proof.
  intros H. rewrite <- (app_nil_r ds) at 1. now apply span_digits_app.
Qed.

Lemma trim_start_digit (c : ascii) (r : list ascii) :
  is_digit c = true -> trim_start (c :: r) = c :: r.
Proof.
  destruct c as [[] [] [] [] [] [] [] []]; try discriminate; reflexivity.
Qed.

Lemma starts_with_Infinity_digit (c : ascii) (r : list ascii) :
  is_digit c = true -> starts_with (chars "Infinity") (c :: r) = false.
Proof.
  destruct c as [[] [] [] [] [] [] [] []]; try discriminate; reflexivity.
Qed.

Lemma ends_literal_span (r : list ascii) :
  ends_literal r -> match r with [] => True | c :: _ => is_digit c = false end.
Proof. destruct r; simpl; tauto. Qed.

Lemma unsigned_literal_integer (i r : list ascii) :
  all_digits i -> i <> [] -> ends_literal r ->
  unsigned_literal (i ++ r) =
  Some (LitDecimal (digits_value i) (exponent_part r)).
Proof.
  intros Hi Hne Hr. unfold unsigned_literal.
  destruct i as [|c i]; [congruence|].
  pose proof (Forall_inv Hi) as Hc.
  cbn [app]. rewrite (starts_with_Infinity_digit c _ Hc).
  change (c :: i ++ r) with ((c :: i) ++ r).
  rewrite (span_digits_app (c :: i) r Hi (ends_literal_span r Hr)).
  destruct r as [|c' r]; [reflexivity|].
  destruct Hr as [_ Hp].
  destruct c' as [[] [] [] [] [] [] [] []]; try discriminate Hp; reflexivity.
Qed.

Lemma unsigned_literal_fraction (i f r : list ascii) :
  all_digits i -> i <> [] -> all_digits f -> ends_literal r ->
  unsigned_literal (i ++ "."%char :: f ++ r) =
  Some (LitDecimal (digits_value (i ++ f))
                   (exponent_part r - Z.of_nat (List.length f))).
Proof.
  intros Hi Hne Hf Hr. unfold unsigned_literal.
  destruct i as [|c i]; [congruence|].
  pose proof (Forall_inv Hi) as Hc.
  cbn [app]. rewrite (starts_with_Infinity_digit c _ Hc).
  change (c :: i ++ "."%char :: f ++ r) with ((c :: i) ++ "."%char :: f ++ r).
  rewrite (span_digits_app (c :: i) _ Hi) by reflexivity.
  rewrite (span_digits_app f r Hf (ends_literal_span r Hr)).
  reflexivity.
Qed.

Lemma exponent_part_signed (e : Z) :
  exponent_part
    ("e"%char :: (if e <? 0 then "-"%char else "+"%char)
              :: decimal_digits (Z.abs e)) = e.
Proof.
  destruct (decimal_digits_spec (Z.abs e) ltac:(lia)) as [D V].
  unfold exponent_part.
  change (Ascii.eqb "e" "e" || Ascii.eqb "e" "E")%bool with true. cbv iota.
  destruct (Z.ltb_spec e 0); cbv iota beta;
    rewrite (span_digits_all _ D); cbn [fst]; rewrite V; lia.
Qed.

Lemma ends_literal_exponent (sign : ascii) (ds : list ascii) :
  ends_literal ("e"%char :: sign :: ds).
Proof. split; reflexivity. Qed.

(** ** Reading a rendered decimal *)

Lemma split_digits (n : nat) (ds : list ascii) :
  all_digits ds -> all_digits (firstn n ds) /\ all_digits (skipn n ds).
Proof.
  intros H. rewrite <- (firstn_skipn n ds) in H.
  now apply Forall_app in H.
Qed.

Lemma format_decimal_reads (s p : Z) :
  0 < s ->
  exists c r l,
    format_decimal s p = c :: r /\ is_digit c = true /\
    unsigned_literal (c :: r) = Some l /\
    number_of_literal l = number_of_decimal s p.
Proof.
  intros Hs.
  destruct (decimal_digits_spec s ltac:(lia)) as [D V].
  pose proof (decimal_digits_nonempty s) as Hne.
  unfold format_decimal.
  set (ds := decimal_digits s) in *.
  set (k := Z.of_nat (List.length ds)).
  assert (Hk : 0 < k).
  { unfold k. destruct ds; [congruence | cbn [List.length]; lia]. }
  assert (Hhead : forall t, exists c r, ds ++ t = c :: r /\ is_digit c = true).
  { intros t. destruct ds as [|c ds']; [congruence|].
    exists c, (ds' ++ t). split; [reflexivity | exact (Forall_inv D)]. }
  cbv zeta.
  destruct ((-5 <=? p + k) && (p + k <=? 21))%bool.
  - destruct (Z.leb_spec k (p + k)) as [A|A].
    + (* digits followed by zeros *)
      destruct (Hhead (zeros (Z.to_nat (p + k - k)))) as (c & r & E & Hc).
      exists c, r, (LitDecimal (s * 10 ^ p) 0). rewrite E.
      split; [reflexivity|]. split; [exact Hc|]. split.
      * rewrite <- E, <- (app_nil_r (ds ++ _)).
        rewrite unsigned_literal_integer.
        -- rewrite digits_value_app, V, digits_value_zeros, zeros_length.
           f_equal. f_equal. rewrite Z2Nat.id by lia.
           replace (p + k - k) with p by lia. lia.
        -- apply Forall_app. split; [exact D | apply zeros_digits].
        -- destruct ds; [congruence | discriminate].
        -- exact I.
      * cbn [number_of_literal].
        rewrite <- (number_of_decimal_scaled s 0 p) by lia.
        now rewrite Z.sub_0_r.
    + destruct (Z.ltb_spec 0 (p + k)) as [B|B].
      * (* a point inside the digits *)
        destruct (split_digits (Z.to_nat (p + k)) ds D) as [Di Df].
        assert (Li : List.length (firstn (Z.to_nat (p + k)) ds)
                     = Z.to_nat (p + k)).
        { apply firstn_length_le. unfold k in *. lia. }
        assert (Ni : firstn (Z.to_nat (p + k)) ds <> []).
        { intros E. rewrite E in Li. cbn in Li. lia. }
        destruct (firstn (Z.to_nat (p + k)) ds) as [|c i] eqn:Ei; [congruence|].
        exists c, (i ++ "."%char :: skipn (Z.to_nat (p + k)) ds),
               (LitDecimal s p).
        split; [reflexivity|]. split; [exact (Forall_inv Di)|].
        split; [|reflexivity].
        change (c :: i ++ "."%char :: skipn (Z.to_nat (p + k)) ds)
          with ((c :: i) ++ "."%char :: skipn (Z.to_nat (p + k)) ds).
        rewrite <- (app_nil_r (skipn _ ds)).
        rewrite unsigned_literal_fraction; auto; [|exact I].
        rewrite <- Ei, firstn_skipn, V, length_skipn.
        f_equal. f_equal. cbn [exponent_part]. unfold k in *. lia.
      * (* zeros after the point *)
        exists "0"%char, ("."%char :: zeros (Z.to_nat (- (p + k))) ++ ds),
               (LitDecimal s p).
        split; [reflexivity|]. split; [reflexivity|].
        split; [|reflexivity].
        change ("0"%char :: "."%char :: zeros (Z.to_nat (- (p + k))) ++ ds)
          with (["0"%char] ++ "."%char :: zeros (Z.to_nat (- (p + k))) ++ ds).
        rewrite <- (app_nil_r (zeros _ ++ ds)).
        rewrite unsigned_literal_fraction.
        -- rewrite !digits_value_app, V, digits_value_zeros.
           rewrite length_app, zeros_length.
           change (digits_value ["0"%char]) with 0. cbn [exponent_part].
           match goal with
           | |- Some (LitDecimal ?X ?Y) = _ =>
               replace X with s by lia;
               replace Y with p by (unfold k in *; lia)
           end.
           reflexivity.
        -- repeat constructor.
        -- discriminate.
        -- apply Forall_app. split; [apply zeros_digits | exact D].
        -- exact I.
  - (* exponent notation *)
    set (e := p + k - 1).
    set (tail := "e"%char :: (if e <? 0 then "-"%char else "+"%char)
                          :: decimal_digits (Z.abs e)).
    assert (Ht : ends_literal tail) by apply ends_literal_exponent.
    assert (He : exponent_part tail = e) by apply exponent_part_signed.
    destruct ds as [|c [|c' rest]] eqn:Eds; [congruence| |].
    + exists c, tail, (LitDecimal s p).
      split; [reflexivity|]. split; [exact (Forall_inv D)|].
      split; [|reflexivity].
      change (c :: tail) with ([c] ++ tail).
      rewrite (unsigned_literal_integer [c] tail D ltac:(discriminate) Ht).
      rewrite V, He.
      replace e with p by (unfold e, k; cbn [List.length]; lia).
      reflexivity.
    + exists c, ("."%char :: (c' :: rest) ++ tail), (LitDecimal s p).
      split; [reflexivity|]. split; [exact (Forall_inv D)|].
      split; [|reflexivity].
      change (c :: "."%char :: (c' :: rest) ++ tail)
        with ([c] ++ "."%char :: (c' :: rest) ++ tail).
      assert (Dc : all_digits [c])
        by (constructor; [exact (Forall_inv D) | constructor]).
      rewrite (unsigned_literal_fraction [c] (c' :: rest) tail Dc
                 ltac:(discriminate) (Forall_inv_tail D) Ht).
      cbn [app]. rewrite V, He.
      replace (e - Z.of_nat (List.length (c' :: rest))) with p
        by (unfold e, k; cbn [List.length]; lia).
      reflexivity.
Qed.

Lemma parse_chars_digit (c : ascii) (r : list ascii) :
  is_digit c = true -> parse_chars (c :: r) = read_literal (c :: r).
Proof.
  intros H. unfold parse_chars. rewrite (trim_start_digit c r H).
  destruct c as [[] [] [] [] [] [] [] []]; try discriminate H; reflexivity.
Qed.

Lemma parse_chars_minus (cs : list ascii) :
  parse_chars ("-"%char :: cs) =
  match unsigned_literal cs with
  | Some l => opp (number_of_literal l)
  | None => NaN
  end.
Proof. reflexivity. Qed.

Lemma parseFloat_text (cs : list ascii) : parseFloat (text cs) = parse_chars cs.
Proof.
  unfold parseFloat, chars, text.
  now rewrite list_ascii_of_string_of_list_ascii.
Qed.

Lemma parseFloat_toString (x : number) :
  valid x -> parseFloat (toString x) = read_back x.
Proof.
  intros V. unfold toString. rewrite parseFloat_text.
  destruct x as [s|s| |s m e].
  - vm_compute. reflexivity.
  - destruct s; vm_compute; reflexivity.
  - vm_compute. reflexivity.
  - assert (V' : valid (S754_finite false m e)) by exact V.
    destruct (shortest_decimal_rounds m e V') as [Hpos Hval].
    cbn [number_chars read_back].
    destruct (shortest_decimal m e) as [d p]. cbn [fst snd] in *.
    destruct (format_decimal_reads d p Hpos) as (c & r & l & E & Hc & Hl & Hn).
    rewrite E. destruct s; cbn [app].
    + rewrite parse_chars_minus, Hl, Hn, Hval. reflexivity.
    + rewrite (parse_chars_digit c r Hc). unfold read_literal.
      rewrite Hl, Hn, Hval. reflexivity.
Qed.

(** ** [parseFloat] gives well-formed values *)

Lemma span_digits_fst (cs : list ascii) : all_digits (fst (span_digits cs)).
Proof.
  induction cs as [|c cs IH]; simpl; [constructor|].
  destruct (is_digit c) eqn:E; [|constructor].
  destruct (span_digits cs) as [d t]. constructor; assumption.
Qed.

Lemma digit_value_range (c : ascii) : is_digit c = true -> 0 <= digit_value c <= 9.
Proof.
  unfold is_digit, digit_value. intros H.
  apply andb_true_iff in H as [L U]. apply Z.leb_le in L, U. lia.
Qed.

Lemma digits_value_nonneg (ds : list ascii) :
  all_digits ds -> 0 <= digits_value ds.
Proof.
  induction 1 as [|c ds Hc _ IH]; [reflexivity|].
  rewrite digits_value_cons. pose proof (digit_value_range c Hc).
  assert (0 < 10 ^ Z.of_nat (List.length ds)) by (apply Z.pow_pos_nonneg; lia).
  nia.
Qed.

Lemma number_of_decimal_valid (s p : Z) : 0 <= s -> valid (number_of_decimal s p).
Proof.
  intros Hs. unfold number_of_decimal.
  pose proof (pow_pos_ge_1 10 p eq_refl). pose proof (pow_pos_ge_1 10 (- p) eq_refl).
  apply round_ratio_valid; nia.
Qed.

Lemma unsigned_literal_valid (cs : list ascii) (l : literal) :
  unsigned_literal cs = Some l -> valid (number_of_literal l).
Proof.
  unfold unsigned_literal.
  destruct (starts_with _ cs); [intros H; injection H as <-; reflexivity|].
  pose proof (span_digits_fst cs) as Hi.
  destruct (span_digits cs) as [i r]. cbn [fst] in Hi.
  assert (Hint : forall e, match i with
                           | [] => None
                           | _ :: _ => Some (LitDecimal (digits_value i) e)
                           end = Some l -> valid (number_of_literal l)).
  { intros e. destruct i; [discriminate|]. intros H. injection H as <-.
    apply number_of_decimal_valid. now apply digits_value_nonneg. }
  destruct r as [|c r]; [apply Hint|].
  destruct (Ascii.eqb_spec c ".") as [->|N].
  - pose proof (span_digits_fst r) as Hf.
    destruct (span_digits r) as [f r'']. cbn [fst] in Hf.
    assert (V : valid (number_of_decimal (digits_value (i ++ f))
                         (exponent_part r'' - Z.of_nat (List.length f)))).
    { apply number_of_decimal_valid, digits_value_nonneg.
      apply Forall_app. split; assumption. }
    destruct i, f; try discriminate; intros H; injection H as <-; exact V.
  - destruct c as [[] [] [] [] [] [] [] []]; try (now elim N); apply Hint.
Qed.

Lemma parse_chars_valid (cs : list ascii) : valid (parse_chars cs).
Proof.
  unfold parse_chars.
  assert (R : forall r, valid match unsigned_literal r with
                              | Some l => number_of_literal l
                              | None => NaN
                              end).
  { intros r.
    destruct (unsigned_literal r) eqn:E; [|reflexivity].
    now apply (unsigned_literal_valid r). }
  assert (O : forall r, valid match unsigned_literal r with
                              | Some l => opp (number_of_literal l)
                              | None => NaN
                              end).
  { intros r. destruct (unsigned_literal r) eqn:E; [|reflexivity].
    apply opp_valid. now apply (unsigned_literal_valid r). }
  destruct (trim_start cs) as [|c r]; [apply R|].
  destruct c as [[] [] [] [] [] [] [] []]; cbv beta iota;
    first [apply O | apply R].
Qed.

Lemma parseFloat_valid (s : string) : valid (parseFloat s).
Proof. apply parse_chars_valid. Qed.

(** ** Magnitudes *)

Lemma ilog2_ratio_lt (k n d : Z) :
  0 < n -> 0 < d -> pow_gt k n d -> ilog2_ratio n d < k.
Proof.
  intros Hn Hd G. destruct (ilog2_ratio_spec n d Hn Hd) as [L _].
  destruct (Z.lt_ge_cases (ilog2_ratio n d) k) as [H|H]; [exact H|].
  pose proof (pow_le_mono k _ n d ltac:(lia) Hd H L).
  unfold pow_le, pow_gt in *. lia.
Qed.

Lemma ilog2_ratio_ge (k n d : Z) :
  0 < n -> 0 < d -> pow_le k n d -> k <= ilog2_ratio n d.
Proof.
  intros Hn Hd L. destruct (ilog2_ratio_spec n d Hn Hd) as [_ G].
  destruct (Z.le_gt_cases k (ilog2_ratio n d)) as [H|H]; [exact H|].
  pose proof (pow_gt_mono (ilog2_ratio n d + 1) k n d
                ltac:(lia) Hd ltac:(lia) G).
  unfold pow_le, pow_gt in *. lia.
Qed.

Lemma round_ratio_not_NaN (n d : Z) : isNaN (round_ratio n d) = false.
Proof.
  unfold round_ratio, finite_of.
  repeat match goal with
         | |- context [if ?b then _ else _] => destruct b
         end; reflexivity.
Qed.

Lemma largest_decimal_power :
  10 ^ 308 < 2 ^ 1024 /\ 2 * 10 ^ 308 < 2 ^ 971 * (2 ^ 54 - 1).
Proof. split; vm_compute; reflexivity. Qed.

(** Every ratio below [10 ^ 308] has a finite number value. *)
Lemma round_ratio_finite (n d : Z) :
  0 <= n -> 0 < d -> n < d * 10 ^ 308 -> is_finite (round_ratio n d) = true.
Proof.
  intros Hn Hd Hlt.
  destruct (Z.eq_dec n 0) as [->|N]; [reflexivity|].
  destruct largest_decimal_power as [C1 C2].
  assert (G : pow_gt 1024 n d).
  { apply (pow_gt_iff 1024 0 n d); [lia..|]. rewrite Z.pow_0_r. nia. }
  pose proof (ilog2_ratio_lt 1024 n d ltac:(lia) Hd G) as Hl.
  destruct (quotient_bounds n d ltac:(lia) Hd) as [Hq _].
  pose proof (round_half_even_bounds (quotient n d) (remainder n d)
                (d * pow_pos 2 (binade n d))) as Hr.
  rewrite round_ratio_eq by lia.
  assert (He : binade n d <= 971) by (unfold binade; lia).
  unfold finite_of, prec, emax.
  destruct (Z.eqb_spec (round_half_even (quotient n d) (remainder n d)
                          (d * pow_pos 2 (binade n d))) 0);
    [reflexivity|].
  destruct (Z.eqb_spec (round_half_even (quotient n d) (remainder n d)
                          (d * pow_pos 2 (binade n d))) (2 ^ 53)) as [E|_].
  - destruct (Z.leb_spec (binade n d + 1) (1024 - 53)) as [_|B];
      [reflexivity|].
    exfalso. assert (B' : binade n d = 971) by lia.
    unfold quotient, remainder in *.
    rewrite (pow_pos_nonpos 2 (- binade n d)) in * by lia.
    rewrite (pow_pos_nonneg 2 (binade n d)) in * by lia.
    rewrite B', Z.mul_1_r in *.
    set (den := d * 2 ^ 971) in *.
    assert (Hden : 0 < den) by (unfold den; nia).
    pose proof (Z.div_mod n den ltac:(lia)) as D.
    pose proof (Z.mod_pos_bound n den Hden) as R.
    unfold round_half_even in E.
    destruct (Z.compare_spec (2 * (n mod den)) den) as [T|T|T];
      [destruct (Z.even (n / den))| |]; try lia;
      assert (den * (2 ^ 54 - 1) <= 2 * n) by nia;
      unfold den in *; nia.
  - destruct (Z.leb_spec (binade n d) (1024 - 53)); [reflexivity | lia].
Qed.

Lemma number_of_decimal_not_NaN (s p : Z) : isNaN (number_of_decimal s p) = false.
Proof. apply round_ratio_not_NaN. Qed.

Lemma digits_value_lt (ds : list ascii) :
  all_digits ds -> digits_value ds < 10 ^ Z.of_nat (List.length ds).
Proof.
  induction 1 as [|c ds Hc _ IH]; [reflexivity|].
  rewrite digits_value_cons. pose proof (digit_value_range c Hc).
  cbn [List.length]. rewrite Nat2Z.inj_succ, Z.pow_succ_r by lia.
  assert (0 < 10 ^ Z.of_nat (List.length ds)) by (apply Z.pow_pos_nonneg; lia).
  nia.
Qed.

(** ** The distance from a ratio to its number value *)

Lemma finite_of_cases (q e : Z) (s : bool) (m : positive) (e' : Z) :
  finite_of q e = S754_finite s m e' ->
  0 < q ->
  s = false /\
  (Zpos m = q /\ e' = e \/ q = 2 ^ 53 /\ Zpos m = 2 ^ 52 /\ e' = e + 1).
Proof.
  unfold finite_of, prec, emax. intros H Hq.
  destruct (Z.eqb_spec q 0); [lia|].
  destruct (Z.eqb_spec q (2 ^ 53)) as [E|_].
  - destruct (Z.leb_spec (e + 1) (1024 - 53)); [|discriminate].
    injection H as <- <- <-. split; [reflexivity|]. right.
    repeat split; auto.
  - destruct (Z.leb_spec e (1024 - 53)); [|discriminate].
    injection H as <- <- <-. split; [reflexivity|]. left.
    rewrite Z2Pos.id by lia. split; reflexivity.
Qed.

Lemma round_half_even_error (q r den : Z) :
  0 <= r < den ->
  - den <= 2 * (den * q + r - round_half_even q r den * den) <= den.
Proof.
  intros H. unfold round_half_even.
  destruct (Z.compare_spec (2 * r) den); [destruct (Z.even q)| |]; nia.
Qed.

(** The number value of [n / d] lies within half a unit in the last
    place of it. *)
Lemma round_ratio_error (n d : Z) (s : bool) (m : positive) (e : Z) :
  0 < n -> 0 < d ->
  round_ratio n d = S754_finite s m e ->
  binade n d <= e <= binade n d + 1 /\
  - (d * pow_pos 2 e)
  <= 2 * (n * pow_pos 2 (- e) - Zpos m * (d * pow_pos 2 e))
  <= d * pow_pos 2 e.
Proof.
  intros Hn Hd. rewrite round_ratio_eq by assumption.
  set (b := binade n d).
  pose proof (pow_pos_ge_1 2 b eq_refl) as HA.
  pose proof (pow_pos_ge_1 2 (- b) eq_refl) as HB.
  set (den := d * pow_pos 2 b).
  assert (Hden : 0 < den) by (unfold den; nia).
  pose proof (Z.div_mod (n * pow_pos 2 (- b)) den ltac:(lia)) as D.
  pose proof (Z.mod_pos_bound (n * pow_pos 2 (- b)) den Hden) as R.
  pose proof (round_half_even_error (quotient n d) (remainder n d) den) as Err.
  unfold quotient, remainder in *. fold b in D, R, Err |- *. fold den in D, R, Err |- *.
  set (q := (n * pow_pos 2 (- b)) / den) in *.
  set (r := (n * pow_pos 2 (- b)) mod den) in *.
  specialize (Err R).
  set (q' := round_half_even q r den) in *.
  intros F.
  destruct (Z.eq_dec q' 0) as [Z0|NZ].
  { unfold finite_of in F. rewrite Z0 in F. discriminate F. }
  assert (Hq : 0 <= q) by (apply Z.div_pos; nia).
  pose proof (round_half_even_bounds q r den) as Bq. fold q' in Bq.
  destruct (finite_of_cases q' b s m e F ltac:(lia))
    as [_ [[Em Ee] | (Eq & Em & Ee)]].
  - subst e. split; [lia|]. rewrite Em. fold den. rewrite D. lia.
  - subst e. split; [lia|]. rewrite Em.
    pose proof (pow_pos_shift b 1 ltac:(lia)) as C.
    change (2 ^ 1) with 2 in C.
    pose proof (pow_pos_ge_1 2 (b + 1) eq_refl) as HA'.
    pose proof (pow_pos_ge_1 2 (- (b + 1)) eq_refl) as HB'.
    rewrite Eq in Err. unfold den in *. clearbody q r q'.
    set (A := pow_pos 2 b) in *. set (B := pow_pos 2 (- b)) in *.
    set (A' := pow_pos 2 (b + 1)) in *. set (B' := pow_pos 2 (- (b + 1))) in *.
    assert (X : (n * B' - 2 ^ 52 * (d * A')) * B
                = B' * (n * B - 2 ^ 53 * (d * A))).
    { transitivity (n * B' * B - 2 ^ 52 * d * (A' * B)); [ring|].
      rewrite C. change (2 ^ 53) with (2 * 2 ^ 52). ring. }
    assert (Y : d * A' * B = 2 * (d * A) * B').
    { transitivity (d * (A' * B)); [ring|]. rewrite C. ring. }
    rewrite <- D in Err.
    split.
    + apply Z.mul_le_mono_pos_r with (p := B); [lia|].
      replace (2 * (n * B' - 2 ^ 52 * (d * A')) * B)
        with (2 * ((n * B' - 2 ^ 52 * (d * A')) * B)) by ring.
      rewrite X. replace (- (d * A') * B) with (- (d * A' * B)) by ring.
      rewrite Y. nia.
    + apply Z.mul_le_mono_pos_r with (p := B); [lia|].
      replace (2 * (n * B' - 2 ^ 52 * (d * A')) * B)
        with (2 * ((n * B' - 2 ^ 52 * (d * A')) * B)) by ring.
      rewrite X, Y. nia.
Qed.

(** ** Rounding a decimal to ten fraction digits *)

Lemma round_fixed_unique (s p r : Z) :
  - pow_pos 10 (- p)
  < 2 * (s * pow_pos 10 p * 10 ^ 10 - r * pow_pos 10 (- p))
  < pow_pos 10 (- p) ->
  round_fixed s p = r.
Proof.
  unfold round_fixed, maximumFractionDigits. intros H.
  destruct (Z.leb_spec 0 (p + 10)) as [K|K].
  - destruct (Z.le_gt_cases 0 p) as [P|P].
    + rewrite (pow_pos_nonneg 10 p), (pow_pos_nonpos 10 (- p)) in H by lia.
      rewrite Z.pow_add_r by lia. lia.
    + rewrite (pow_pos_nonpos 10 p), (pow_pos_nonneg 10 (- p)) in H by lia.
      assert (E : 10 ^ 10 = 10 ^ (p + 10) * 10 ^ (- p)).
      { rewrite <- Z.pow_add_r by lia. f_equal. lia. }
      assert (0 < 10 ^ (- p)) by (apply Z.pow_pos_nonneg; lia).
      rewrite E in H. set (T := 10 ^ (- p)) in *. set (U := 10 ^ (p + 10)) in *.
      nia.
  - rewrite (pow_pos_nonpos 10 p), (pow_pos_nonneg 10 (- p)) in H by lia.
    assert (E : 10 ^ (- p) = 10 ^ 10 * 10 ^ (- (p + 10))).
    { rewrite <- Z.pow_add_r by lia. f_equal. lia. }
    assert (0 < 10 ^ (- (p + 10))) by (apply Z.pow_pos_nonneg; lia).
    rewrite E in H. set (T := 10 ^ (- (p + 10))) in *.
    symmetry. apply Z.div_unique_pos with (r := 2 * s + T - 2 * T * r); lia.
Qed.

Lemma two_pow_42 : 2 * 10 ^ 10 < 2 ^ 42.
Proof. reflexivity. Qed.

(** Two decimals with the same number value below 1000, one of them
    with ten fraction digits at most: rounding the other to ten
    fraction digits gives the first. *)
Lemma round_fixed_same_value (s p n s' p' : Z) (m : positive) (e : Z) :
  0 < s -> -10 <= p <= 0 -> n = s * 10 ^ (10 + p) -> n < 1000 * 10 ^ 10 ->
  0 < s' ->
  number_of_decimal s p = S754_finite false m e ->
  number_of_decimal s' p' = S754_finite false m e ->
  round_fixed s' p' = n.
Proof.
  intros Hs Hp En Hn Hs' V1 V2. unfold number_of_decimal in V1, V2.
  apply round_fixed_unique.
  rewrite (pow_pos_nonpos 10 p) in V1 by lia.
  rewrite (pow_pos_nonneg 10 (- p)) in V1 by lia. rewrite Z.mul_1_r in V1.
  pose proof (pow_pos_ge_1 10 p' eq_refl) as H2n.
  pose proof (pow_pos_ge_1 10 (- p') eq_refl) as H2d.
  assert (H1d : 0 < 10 ^ (- p)) by (apply Z.pow_pos_nonneg; lia).
  assert (E10 : 10 ^ 10 = 10 ^ (10 + p) * 10 ^ (- p)).
  { rewrite <- Z.pow_add_r by lia. f_equal. lia. }
  assert (H1u : 0 < 10 ^ (10 + p)) by (apply Z.pow_pos_nonneg; lia).
  set (d1 := 10 ^ (- p)) in *. set (u := 10 ^ (10 + p)) in *.
  set (n2 := s' * pow_pos 10 p') in *. set (d2 := pow_pos 10 (- p')) in *.
  assert (Hn2 : 0 < n2) by (unfold n2; nia).
  assert (Hlt : s < 1000 * d1) by nia.
  assert (G : pow_gt 10 s d1).
  { apply (pow_gt_iff 10 0 s d1); [lia..|]. rewrite Z.pow_0_r.
    change (2 ^ 10) with 1024. lia. }
  pose proof (ilog2_ratio_lt 10 s d1 Hs H1d G) as Hl.
  destruct (round_ratio_error s d1 false m e Hs H1d V1) as [[_ He] E1].
  destruct (round_ratio_error n2 d2 false m e Hn2 ltac:(lia) V2) as [_ E2].
  assert (He' : e <= -42) by (unfold binade in He; lia).
  rewrite (pow_pos_nonpos 2 e), (pow_pos_nonneg 2 (- e)) in E1, E2 by lia.
  rewrite Z.mul_1_r in E1, E2.
  assert (HB : 2 ^ 42 <= 2 ^ (- e)) by (apply Z.pow_le_mono_r; lia).
  pose proof two_pow_42 as T42.
  set (B := 2 ^ (- e)) in *. set (M := Zpos m) in *.
  set (W := 2 ^ 42) in *. set (U := 10 ^ 10) in *.
  assert (HU : 0 < U) by reflexivity.
  clearbody B W U d1 u n2 d2 M.
  (* the two decimals are close *)
  assert (C : - (d1 * d2) <= (n2 * d1 - s * d2) * B <= d1 * d2) by nia.
  set (Delta := n2 * U - n * d2).
  assert (D : Delta * d1 = U * (n2 * d1 - s * d2)).
  { unfold Delta. rewrite En, E10. ring. }
  assert (C' : - (U * d2) <= Delta * B <= U * d2).
  { split.
    - apply Z.mul_le_mono_pos_r with (p := d1); [lia|].
      replace (Delta * B * d1) with (Delta * d1 * B) by ring. rewrite D. nia.
    - apply Z.mul_le_mono_pos_r with (p := d1); [lia|].
      replace (Delta * B * d1) with (Delta * d1 * B) by ring. rewrite D. nia. }
  fold Delta. clearbody Delta. nia.
Qed.

(** ** Numbers in the range of the formatter *)

Lemma ten_pow_10_34 : 10 ^ 10 < 2 ^ 34.
Proof. reflexivity. Qed.

(** The number value of a positive decimal with at most ten fraction
    digits and below 1000 is a positive finite value. *)
Lemma number_of_decimal_positive (s p : Z) :
  0 < s -> -10 <= p <= 0 -> s * 10 ^ (10 + p) < 1000 * 10 ^ 10 ->
  exists m e, number_of_decimal s p = S754_finite false m e.
Proof.
  intros Hs Hp Hn. unfold number_of_decimal.
  rewrite (pow_pos_nonpos 10 p), (pow_pos_nonneg 10 (- p)), Z.mul_1_r by lia.
  assert (Hd : 0 < 10 ^ (- p)) by (apply Z.pow_pos_nonneg; lia).
  assert (Hu : 0 < 10 ^ (10 + p)) by (apply Z.pow_pos_nonneg; lia).
  assert (E10 : 10 ^ 10 = 10 ^ (10 + p) * 10 ^ (- p)).
  { rewrite <- Z.pow_add_r by lia. f_equal. lia. }
  assert (Hle : 10 ^ (- p) <= 10 ^ 10) by (apply Z.pow_le_mono_r; lia).
  pose proof ten_pow_10_34 as T.
  assert (Hlt : s < 10 ^ (- p) * 10 ^ 308).
  { assert (1000 < 10 ^ 308) by reflexivity.
    set (d := 10 ^ (- p)) in *. set (u := 10 ^ (10 + p)) in *. nia. }
  pose proof (round_ratio_finite s (10 ^ (- p)) ltac:(lia) Hd Hlt) as F.
  assert (L : pow_le (- 34) s (10 ^ (- p))).
  { apply (pow_le_iff 0 34 s (10 ^ (- p))); lia. }
  pose proof (ilog2_ratio_ge (-34) s _ Hs Hd L) as Hl.
  destruct (quotient_bounds s (10 ^ (- p)) Hs Hd) as [Hq [Hb|Hq']];
    [unfold binade in Hb; lia|].
  pose proof (round_half_even_bounds (quotient s (10 ^ (- p)))
                (remainder s (10 ^ (- p)))
                (10 ^ (- p) * pow_pos 2 (binade s (10 ^ (- p))))) as Hr.
  assert (P52 : 0 < 2 ^ 52) by reflexivity.
  destruct (round_ratio s (10 ^ (- p))) as [a|a| |a m e] eqn:R;
    try discriminate F.
  - rewrite round_ratio_eq in R by assumption. unfold finite_of in R.
    destruct (Z.eqb_spec (round_half_even (quotient s (10 ^ (- p)))
                (remainder s (10 ^ (- p)))
                (10 ^ (- p) * pow_pos 2 (binade s (10 ^ (- p))))) 0) as [E|_];
      [lia|].
    repeat match type of R with
           | (if ?b then _ else _) = _ => destruct b
           end; discriminate R.
  - rewrite round_ratio_eq in R by assumption.
    destruct (finite_of_cases _ _ a m e R ltac:(lia)) as [-> _].
    now exists m, e.
Qed.

(** ** Grouping and fraction digits *)

Lemma group_digits_short (ds : list ascii) :
  (List.length ds <= 3)%nat -> group_digits ds = ds.
Proof.
  destruct ds as [|a [|b [|c [|d ds]]]]; cbn [List.length]; intros H;
    try reflexivity; lia.
Qed.

Lemma group_digits_long (ds : list ascii) :
  (4 <= List.length ds)%nat -> In ","%char (group_digits ds).
Proof.
  induction ds as [|a ds IH]; cbn [List.length]; intros H; [lia|].
  cbn [group_digits].
  destruct ((0 <? List.length ds)%nat && (List.length ds mod 3 =? 0)%nat)%bool
    eqn:E.
  - right. left. reflexivity.
  - right. apply IH.
    destruct (Nat.eq_dec (List.length ds) 3) as [E3|N3]; [|lia].
    rewrite E3 in E. discriminate E.
Qed.

Lemma digits_fuel_length (fuel : nat) (n : Z) (acc : list ascii) (k : nat) :
  0 <= n < 10 ^ Z.of_nat k -> (0 < k)%nat ->
  (List.length (digits_fuel fuel n acc) <= k + List.length acc)%nat.
Proof.
  revert n acc k. induction fuel as [|f IH]; intros n acc k Hn Hk.
  - cbn [digits_fuel]. lia.
  - cbn [digits_fuel]. destruct (Z.ltb_spec n 10) as [S|L].
    + cbn [List.length]. lia.
    + destruct k as [|[|k]]; [lia| |].
      * change (10 ^ Z.of_nat 1) with 10 in Hn. lia.
      * rewrite Nat2Z.inj_succ, Z.pow_succ_r in Hn by apply Nat2Z.is_nonneg.
        specialize (IH (n / 10) (digit_char (n mod 10) :: acc) (S k)).
        cbn [List.length] in IH.
        assert (0 <= n / 10 < 10 ^ Z.of_nat (S k)).
        { split; [apply Z.div_pos; lia|].
          apply Z.div_lt_upper_bound; lia. }
        specialize (IH ltac:(assumption) ltac:(lia)). lia.
Qed.

Lemma decimal_digits_length (n : Z) (k : nat) :
  0 <= n < 10 ^ Z.of_nat k -> (0 < k)%nat ->
  (List.length (decimal_digits n) <= k)%nat.
Proof.
  intros Hn Hk. unfold decimal_digits.
  pose proof (digits_fuel_length (S (Z.to_nat (Z.log2 n))) n [] k Hn Hk) as H.
  cbn [List.length] in H. lia.
Qed.

Lemma rev_zeros (n : nat) : rev (zeros n) = zeros n.
Proof.
  unfold zeros. induction n as [|n IH]; [reflexivity|].
  cbn [repeat rev]. rewrite IH. symmetry. apply repeat_cons.
Qed.

Lemma drop_zeros_spec (l : list ascii) :
  exists j,
    l = zeros j ++ drop_zeros l /\
    match drop_zeros l with
    | [] => True
    | c :: _ => Ascii.eqb c "0" = false
    end.
Proof.
  induction l as [|c l (j & E & H)].
  - exists 0%nat. split; [reflexivity | exact I].
  - cbn [drop_zeros]. destruct (Ascii.eqb_spec c "0") as [->|N].
    + exists (S j). split; [|exact H]. cbn [zeros repeat app].
      unfold zeros in E. now rewrite <- E.
    + exists 0%nat. split; [reflexivity|]. now apply Ascii.eqb_neq.
Qed.

(** The fraction digits without their trailing zeros. *)
Lemma strip_fraction_spec (l : list ascii) :
  exists j,
    l = rev (drop_zeros (rev l)) ++ zeros j /\
    (rev (drop_zeros (rev l)) = [] \/
     exists a c, rev (drop_zeros (rev l)) = a ++ [c] /\
                 Ascii.eqb c "0" = false).
Proof.
  destruct (drop_zeros_spec (rev l)) as (j & E & H).
  exists j. split.
  - rewrite <- (rev_involutive l) at 1. rewrite E at 1.
    now rewrite rev_app_distr, rev_zeros.
  - destruct (drop_zeros (rev l)) as [|c t]; [now left|].
    right. exists (rev t), c. split; [reflexivity | exact H].
Qed.

Lemma digits_have_no_point (ds : list ascii) :
  all_digits ds -> ~ In "."%char ds.
Proof.
  intros H Hin. unfold all_digits in H. rewrite Forall_forall in H.
  specialize (H _ Hin). discriminate H.
Qed.

Lemma digits_last (ds : list ascii) :
  all_digits ds -> ds <> [] ->
  exists a l, ds = a ++ [l] /\ is_digit l = true.
Proof.
  intros H Hne. destruct (exists_last Hne) as (a & l & ->).
  exists a, l. split; [reflexivity|].
  apply Forall_app in H as [_ H]. exact (Forall_inv H).
Qed.

(** What the formatter prints for a positive number of units of
    [10 ^ -10], when no grouping comma is needed: a decimal literal of
    that value which ends in a digit, and in a non-zero digit when it
    has a point. *)
Lemma fixed_digits_reads (n : Z) :
  0 < n -> ~ In ","%char (fixed_digits n) ->
  exists s p,
    unsigned_literal (fixed_digits n) = Some (LitDecimal s p) /\
    0 < s /\ -10 <= p <= 0 /\ n = s * 10 ^ (10 + p) /\
    n < 1000 * 10 ^ 10 /\
    (exists c r, fixed_digits n = c :: r /\ is_digit c = true) /\
    (exists a l, fixed_digits n = a ++ [l] /\ is_digit l = true /\
                 (In "."%char (fixed_digits n) -> Ascii.eqb l "0" = false)).
Proof.
  intros Hn Hc. unfold fixed_digits, maximumFractionDigits in *.
  change (Z.to_nat 10) with 10%nat in *.
  assert (HU : 0 < 10 ^ 10) by reflexivity.
  pose proof (Z.div_mod n (10 ^ 10) ltac:(lia)) as D.
  pose proof (Z.mod_pos_bound n (10 ^ 10) HU) as HF.
  assert (HI : 0 <= n / 10 ^ 10) by (apply Z.div_pos; lia).
  set (i := n / 10 ^ 10) in *. set (f := n mod 10 ^ 10) in *.
  clearbody i f.
  destruct (decimal_digits_spec i HI) as [Di Vi].
  pose proof (decimal_digits_nonempty i) as Ni.
  destruct (decimal_digits_spec f ltac:(lia)) as [Df Vf].
  pose proof (decimal_digits_length f 10 ltac:(exact HF) ltac:(lia)) as Lf.
  set (ids := decimal_digits i) in *. set (fs := decimal_digits f) in *.
  clearbody ids fs.
  set (padded := zeros (10 - List.length fs) ++ fs) in *.
  assert (Dp : all_digits padded)
    by (apply Forall_app; split; [apply zeros_digits | exact Df]).
  assert (Lp : List.length padded = 10%nat).
  { unfold padded. rewrite length_app, zeros_length. lia. }
  assert (Vp : digits_value padded = f).
  { unfold padded. rewrite digits_value_app, digits_value_zeros. lia. }
  clearbody padded.
  destruct (strip_fraction_spec padded) as (j & Ep & Hlast).
  set (fr := rev (drop_zeros (rev padded))) in *. clearbody fr.
  assert (Dfr : all_digits fr).
  { rewrite Ep in Dp. now apply Forall_app in Dp. }
  assert (Lfr : (List.length fr + j = 10)%nat).
  { rewrite Ep, length_app, zeros_length in Lp. exact Lp. }
  assert (Vfr : digits_value fr * 10 ^ Z.of_nat j = f).
  { rewrite Ep, digits_value_app, digits_value_zeros, zeros_length in Vp. lia. }
  assert (Hshort : (List.length ids <= 3)%nat).
  { destruct (Nat.le_gt_cases (List.length ids) 3) as [L|G]; [exact L|].
    exfalso. apply Hc. apply in_or_app. left.
    apply group_digits_long. lia. }
  rewrite (group_digits_short ids Hshort) in *.
  assert (Hi : i < 1000).
  { pose proof (digits_value_lt ids Di) as B. rewrite Vi in B.
    apply Z.lt_le_trans with (10 ^ Z.of_nat (List.length ids)); [exact B|].
    change 1000 with (10 ^ 3). apply Z.pow_le_mono_r; lia. }
  assert (Hn' : n < 1000 * 10 ^ 10) by lia.
  assert (Hhead : forall t, exists c r, ids ++ t = c :: r /\ is_digit c = true).
  { intros t. destruct ids as [|c ids']; [congruence|].
    exists c, (ids' ++ t). split; [reflexivity | exact (Forall_inv Di)]. }
  assert (Fr0 : 0 <= digits_value fr) by now apply digits_value_nonneg.
  destruct Hlast as [E0 | (a & c & Ea & Hz)].
  - (* no fraction digit *)
    subst fr. rewrite app_nil_r.
    change (digits_value []) with 0 in Vfr.
    exists i, 0. change (10 ^ (10 + 0)) with (10 ^ 10).
    split; [|split; [lia|split; [lia|split; [lia|split; [exact Hn'|split]]]]].
    + rewrite <- (app_nil_r ids).
      rewrite (unsigned_literal_integer ids [] Di Ni I). now rewrite Vi.
    + destruct (Hhead []) as (c & r & E & H). rewrite app_nil_r in E.
      now exists c, r.
    + destruct (digits_last ids Di Ni) as (a & l & E & H).
      exists a, l. split; [exact E|]. split; [exact H|].
      intros Hin. now apply digits_have_no_point in Hin.
  - (* fraction digits ending in a non-zero digit *)
    assert (Nfr : fr <> []) by (rewrite Ea; destruct a; discriminate).
    assert (P10 : 0 < 10 ^ Z.of_nat j) by (apply Z.pow_pos_nonneg; lia).
    assert (Ej : 10 + (0 - Z.of_nat (List.length fr)) = Z.of_nat j) by lia.
    assert (EU : 10 ^ 10 = 10 ^ Z.of_nat (List.length fr) * 10 ^ Z.of_nat j).
    { rewrite <- Z.pow_add_r by lia. f_equal. lia. }
    assert (Vs : digits_value (ids ++ fr) * 10 ^ Z.of_nat j = n).
    { rewrite digits_value_app, Vi, Z.mul_add_distr_r, Vfr.
      rewrite <- Z.mul_assoc, <- EU. lia. }
    assert (Hs0 : 0 <= digits_value (ids ++ fr))
      by (apply digits_value_nonneg, Forall_app; now split).
    assert (Hs : 0 < digits_value (ids ++ fr)).
    { destruct (Z.eq_dec (digits_value (ids ++ fr)) 0) as [Z0|NZ]; [|lia].
      rewrite Z0 in Vs. lia. }
    replace (match fr with [] => [] | _ :: _ => "."%char :: fr end)
      with ("."%char :: fr) by (destruct fr; [congruence | reflexivity]).
    exists (digits_value (ids ++ fr)), (0 - Z.of_nat (List.length fr)).
    rewrite Ej.
    split; [|split; [exact Hs|split; [lia|split; [now rewrite Vs|
             split; [exact Hn'|split]]]]].
    + rewrite <- (app_nil_r fr) at 1.
      now rewrite (unsigned_literal_fraction ids fr [] Di Ni Dfr I).
    + apply Hhead.
    + exists (ids ++ "."%char :: a), c.
      rewrite Ea, <- app_assoc. split; [reflexivity|]. split.
      * rewrite Ea in Dfr. apply Forall_app in Dfr as [_ H].
        exact (Forall_inv H).
      * intros _. exact Hz.
Qed.

(** ** The arithmetic gives well-formed values *)

Lemma fexp_eq (x : Z) : fexp prec emax x = Z.max (x - 53) (-1074).
Proof. reflexivity. Qed.

Lemma Zdigits2_bounds (m : Z) :
  0 < m -> 2 ^ (Zdigits2 m - 1) <= m < 2 ^ Zdigits2 m.
Proof.
  intros H. destruct m as [|p|p]; try lia. apply digits2_pos_bounds.
Qed.

Lemma Zdigits2_unique (m k : Z) :
  0 < k -> 2 ^ (k - 1) <= m < 2 ^ k -> Zdigits2 m = k.
Proof.
  intros Hk H.
  assert (0 < 2 ^ (k - 1)) by (apply Z.pow_pos_nonneg; lia).
  destruct m as [|p|p]; try lia. now apply digits2_pos_unique.
Qed.

Lemma Zdigits2_pos (m : Z) : 0 < m -> 0 < Zdigits2 m.
Proof. intros H. destruct m; try lia. reflexivity. Qed.

Lemma Zdigits2_le (a b : Z) : 0 <= a <= b -> Zdigits2 a <= Zdigits2 b.
Proof.
  intros [Ha Hab]. destruct (Z.eq_dec a 0) as [->|N].
  - destruct b; cbn; lia.
  - pose proof (Zdigits2_bounds a ltac:(lia)) as A.
    pose proof (Zdigits2_bounds b ltac:(lia)) as B.
    pose proof (Zdigits2_pos a ltac:(lia)).
    pose proof (Zdigits2_pos b ltac:(lia)).
    destruct (Z.le_gt_cases (Zdigits2 a) (Zdigits2 b)) as [L|G]; [exact L|].
    assert (2 ^ Zdigits2 b <= 2 ^ (Zdigits2 a - 1))
      by (apply Z.pow_le_mono_r; lia).
    lia.
Qed.

Lemma Zdigits2_shift (m n : Z) :
  0 < m -> 0 <= n -> 0 < m / 2 ^ n ->
  Zdigits2 (m / 2 ^ n) = Zdigits2 m - n.
Proof.
  intros Hm Hn Hq.
  pose proof (Zdigits2_bounds m Hm) as [L U].
  pose proof (Zdigits2_pos m Hm) as P.
  assert (T : 0 < 2 ^ n) by (apply Z.pow_pos_nonneg; lia).
  assert (D : n < Zdigits2 m).
  { destruct (Z.lt_ge_cases n (Zdigits2 m)) as [H|H]; [exact H|].
    assert (2 ^ Zdigits2 m <= 2 ^ n) by (apply Z.pow_le_mono_r; lia).
    rewrite Z.div_small in Hq; lia. }
  apply Zdigits2_unique; [lia|]. split.
  - apply Z.div_le_lower_bound; [exact T|].
    rewrite <- Z.pow_add_r by lia.
    now replace (n + (Zdigits2 m - n - 1)) with (Zdigits2 m - 1) by lia.
  - apply Z.div_lt_upper_bound; [exact T|].
    rewrite <- Z.pow_add_r by lia.
    now replace (n + (Zdigits2 m - n)) with (Zdigits2 m) by lia.
Qed.

Lemma shr_1_m (r : shr_record) :
  0 <= shr_m r -> shr_m (shr_1 r) = shr_m r / 2.
Proof.
  destruct r as [m b s]. cbn [shr_m]. intros H.
  destruct m as [|[p|p|]|p]; try lia; cbn [shr_1 shr_m].
  - reflexivity.
  - apply Z.div_unique with 1; [lia | apply Pos2Z.inj_xI].
  - apply Z.div_unique with 0; [lia | rewrite Z.add_0_r; apply Pos2Z.inj_xO].
  - reflexivity.
Qed.

Lemma iter_pos_shr_m (p : positive) (r : shr_record) :
  0 <= shr_m r ->
  shr_m (iter_pos shr_1 p r) = shr_m r / 2 ^ Zpos p.
Proof.
  revert r. induction p as [p IH|p IH|]; intros r H; cbn [iter_pos].
  - assert (H1 : 0 <= shr_m (shr_1 r))
      by (rewrite shr_1_m by exact H; apply Z.div_pos; lia).
    assert (T : 0 < 2 ^ Zpos p) by (apply Z.pow_pos_nonneg; lia).
    assert (H2 : 0 <= shr_m (iter_pos shr_1 p (shr_1 r)))
      by (rewrite IH by exact H1; apply Z.div_pos; lia).
    rewrite IH, IH, shr_1_m by assumption.
    rewrite !Z.div_div by lia. f_equal.
    rewrite (Pos2Z.inj_xI p).
    replace (2 * Zpos p + 1) with (1 + Zpos p + Zpos p) by lia.
    rewrite !Z.pow_add_r, Z.pow_1_r by lia. ring.
  - assert (T : 0 < 2 ^ Zpos p) by (apply Z.pow_pos_nonneg; lia).
    assert (H2 : 0 <= shr_m (iter_pos shr_1 p r))
      by (rewrite IH by exact H; apply Z.div_pos; lia).
    rewrite IH, IH by assumption.
    rewrite !Z.div_div by lia. f_equal.
    rewrite (Pos2Z.inj_xO p).
    replace (2 * Zpos p) with (Zpos p + Zpos p) by lia.
    rewrite Z.pow_add_r by lia. ring.
  - rewrite shr_1_m by exact H. reflexivity.
Qed.

Lemma shr_record_of_loc_m (m : Z) (l : location) :
  shr_m (shr_record_of_loc m l) = m.
Proof. destruct l as [|[]]; reflexivity. Qed.

Lemma shr_fexp_spec (m e : Z) (l : location) :
  0 <= m -> e <= fexp prec emax (Zdigits2 m + e) ->
  exists r,
    shr_fexp prec emax m e l = (r, fexp prec emax (Zdigits2 m + e)) /\
    shr_m r = m / 2 ^ (fexp prec emax (Zdigits2 m + e) - e).
Proof.
  intros Hm He. unfold shr_fexp, shr.
  destruct (fexp prec emax (Zdigits2 m + e) - e) as [|p|p] eqn:N; [| |lia].
  - exists (shr_record_of_loc m l). split; [f_equal; lia|].
    rewrite shr_record_of_loc_m, Z.pow_0_r, Z.div_1_r. reflexivity.
  - exists (iter_pos shr_1 p (shr_record_of_loc m l)). split; [f_equal; lia|].
    rewrite iter_pos_shr_m; rewrite shr_record_of_loc_m; [reflexivity|exact Hm].
Qed.

Lemma round_nearest_even_bounds (m : Z) (l : location) :
  m <= round_nearest_even m l <= m + 1.
Proof.
  unfold round_nearest_even.
  destruct l as [|[]]; [| destruct (Z.even m) | |]; lia.
Qed.

(** Rounding a significand whose exponent is at most the one of its
    binade gives a well-formed value. *)
Lemma binary_round_aux_valid (sx : bool) (mx ex : Z) (lx : location) :
  0 <= mx -> ex <= fexp prec emax (Zdigits2 mx + ex) ->
  valid (binary_round_aux prec emax sx mx ex lx).
Proof.
  intros Hm He. unfold binary_round_aux.
  destruct (shr_fexp_spec mx ex lx Hm He) as (r1 & E1 & M1). rewrite E1.
  pose proof (fexp_eq (Zdigits2 mx + ex)) as F1.
  remember (fexp prec emax (Zdigits2 mx + ex)) as e1 eqn:D1. clear D1.
  remember (e1 - ex) as n eqn:Dn.
  assert (Tn : 0 < 2 ^ n) by (apply Z.pow_pos_nonneg; lia).
  assert (Q1 : 0 <= shr_m r1) by (rewrite M1; apply Z.div_pos; lia).
  pose proof (round_nearest_even_bounds (shr_m r1) (loc_of_shr_record r1)) as R.
  remember (round_nearest_even (shr_m r1) (loc_of_shr_record r1)) as m1 eqn:D.
  clear D.
  assert (P2 : e1 <= fexp prec emax (Zdigits2 m1 + e1)).
  { rewrite fexp_eq.
    destruct (Z.eq_dec (shr_m r1) 0) as [Z0|NZ].
    - assert (mx < 2 ^ n).
      { rewrite M1 in Z0. apply Z.div_small_iff in Z0; lia. }
      destruct (Z.eq_dec mx 0) as [->|N0]; [cbn [Zdigits2] in *; lia|].
      pose proof (Zdigits2_bounds mx ltac:(lia)) as [L _].
      assert (Zdigits2 mx - 1 < n).
      { destruct (Z.lt_ge_cases (Zdigits2 mx - 1) n) as [G|G]; [exact G|].
        assert (2 ^ n <= 2 ^ (Zdigits2 mx - 1))
          by (apply Z.pow_le_mono_r; lia).
        lia. }
      lia.
    - assert (0 < mx).
      { destruct (Z.eq_dec mx 0) as [Z0|]; [|lia].
        rewrite Z0, Z.div_0_l in M1; lia. }
      assert (S : Zdigits2 (shr_m r1) = Zdigits2 mx - n).
      { rewrite M1. apply Zdigits2_shift; lia. }
      pose proof (Zdigits2_le (shr_m r1) m1 ltac:(lia)). lia. }
  assert (Hm1 : 0 <= m1) by lia.
  destruct (shr_fexp_spec m1 e1 loc_Exact Hm1 P2) as (r2 & E2 & M2).
  rewrite E2.
  remember (fexp prec emax (Zdigits2 m1 + e1)) as e2 eqn:D2.
  assert (T2 : 0 < 2 ^ (e2 - e1)) by (apply Z.pow_pos_nonneg; lia).
  destruct (shr_m r2) as [|mf|mf] eqn:F.
  - reflexivity.
  - destruct (Z.leb_spec e2 (emax - prec)) as [B|B]; [|reflexivity].
    unfold valid, valid_binary, bounded, canonical_mantissa.
    apply andb_true_iff. split; [|now apply Z.leb_le].
    apply Z.eqb_eq.
    assert (Hm1' : 0 < m1).
    { destruct (Z.eq_dec m1 0) as [Z0|]; [|lia].
      rewrite Z0, Z.div_0_l in M2; lia. }
    assert (S : Zdigits2 (Zpos mf) = Zdigits2 m1 - (e2 - e1)).
    { rewrite M2. apply Zdigits2_shift; lia. }
    cbn [Zdigits2] in S. rewrite S.
    replace (Zdigits2 m1 - (e2 - e1) + e2) with (Zdigits2 m1 + e1) by lia.
    symmetry. exact D2.
  - assert (0 <= m1 / 2 ^ (e2 - e1)) by (apply Z.div_pos; lia). lia.
Qed.

Lemma valid_finite_digits (s : bool) (m : positive) (e : Z) :
  valid (S754_finite s m e) ->
  1 <= Zpos (digits2_pos m) <= 53 /\ -1074 <= e <= 971 /\
  (e = -1074 \/ Zpos (digits2_pos m) = 53).
Proof.
  intros V. apply valid_finite_elim in V as (_ & B & C).
  assert (0 < Zpos (digits2_pos m)) by reflexivity. lia.
Qed.

Lemma mul_valid (x y : number) : valid x -> valid y -> valid (mul x y).
Proof.
  intros Vx Vy.
  destruct x as [sx|sx| |sx mx ex], y as [sy|sy| |sy my ey];
    try reflexivity.
  unfold mul, SFmul. apply binary_round_aux_valid; [lia|].
  apply valid_finite_digits in Vx as (Dx & Ex & Cx).
  apply valid_finite_digits in Vy as (Dy & Ey & Cy).
  rewrite fexp_eq. cbn [Zdigits2].
  pose proof (digits2_pos_bounds mx) as [Lx _].
  pose proof (digits2_pos_bounds my) as [Ly _].
  pose proof (digits2_pos_bounds (mx * my)) as [_ U].
  assert (P : 2 ^ (Zpos (digits2_pos mx) - 1 + (Zpos (digits2_pos my) - 1))
              <= Zpos (mx * my)).
  { rewrite Z.pow_add_r, Pos2Z.inj_mul by lia.
    apply Z.mul_le_mono_nonneg; try assumption;
      apply Z.pow_nonneg; lia. }
  assert (D : Zpos (digits2_pos mx) + Zpos (digits2_pos my) - 1
              <= Zpos (digits2_pos (mx * my))).
  { destruct (Z.le_gt_cases
                (Zpos (digits2_pos mx) + Zpos (digits2_pos my) - 1)
                (Zpos (digits2_pos (mx * my)))) as [L|G]; [exact L|].
    assert (2 ^ Zpos (digits2_pos (mx * my))
            <= 2 ^ (Zpos (digits2_pos mx) - 1 + (Zpos (digits2_pos my) - 1)))
      by (apply Z.pow_le_mono_r; lia).
    lia. }
  lia.
Qed.

Lemma div_eucl_div (a b : Z) : Z.div_eucl a b = (a / b, a mod b).
Proof. unfold Z.div, Z.modulo. now destruct (Z.div_eucl a b). Qed.

Lemma div_valid (x y : number) : valid x -> valid y -> valid (div x y).
Proof.
  intros Vx Vy.
  destruct x as [sx|sx| |sx mx ex], y as [sy|sy| |sy my ey];
    try reflexivity.
  unfold div, SFdiv, SFdiv_core_binary. rewrite div_eucl_div.
  apply valid_finite_digits in Vx as (Dx & Ex & Cx).
  apply valid_finite_digits in Vy as (Dy & Ey & Cy).
  cbn [Zdigits2].
  pose proof (fexp_eq (Zpos (digits2_pos mx) + ex
                       - (Zpos (digits2_pos my) + ey))) as F.
  remember (fexp prec emax (Zpos (digits2_pos mx) + ex
                            - (Zpos (digits2_pos my) + ey))) as f eqn:Df.
  clear Df.
  remember (Z.min f (ex - ey)) as e' eqn:De.
  remember (ex - ey - e') as s eqn:Ds.
  assert (Hs : 0 <= s) by lia.
  assert (M : match s with
              | 0 => Zpos mx
              | Zpos _ => Z.shiftl (Zpos mx) s
              | Zneg _ => 0
              end = Zpos mx * 2 ^ s).
  { destruct s as [|p|p]; [rewrite Z.pow_0_r; lia | | lia].
    apply Z.shiftl_mul_pow2. lia. }
  rewrite M.
  assert (T : 0 < 2 ^ s) by (apply Z.pow_pos_nonneg; lia).
  assert (Q : 0 <= Zpos mx * 2 ^ s / Zpos my) by (apply Z.div_pos; lia).
  apply binary_round_aux_valid; [exact Q|].
  rewrite fexp_eq.
  destruct (Z.le_gt_cases e' (-1074)) as [L|G]; [lia|].
  assert (Es : s = 53 - Zpos (digits2_pos mx) + Zpos (digits2_pos my)) by lia.
  pose proof (digits2_pos_bounds mx) as [Lx _].
  pose proof (digits2_pos_bounds my) as [_ Uy].
  assert (B : 2 ^ 52 <= Zpos mx * 2 ^ s / Zpos my).
  { apply Z.div_le_lower_bound; [lia|].
    apply Z.le_trans with (2 ^ (Zpos (digits2_pos mx) - 1) * 2 ^ s).
    - rewrite <- Z.pow_add_r by lia.
      replace (Zpos (digits2_pos mx) - 1 + s)
        with (Zpos (digits2_pos my) + 52) by lia.
      rewrite Z.pow_add_r by lia.
      assert (0 < 2 ^ 52) by reflexivity. nia.
    - apply Z.mul_le_mono_nonneg_r; lia. }
  pose proof (Zdigits2_le (2 ^ 52) (Zpos mx * 2 ^ s / Zpos my)
                          ltac:(split; [discriminate | exact B])) as DL.
  change (Zdigits2 (2 ^ 52)) with 53 in DL. lia.
Qed.

Lemma digits2_pos_iter (m d : positive) :
  Zpos (digits2_pos (Pos.iter xO m d)) = Zpos (digits2_pos m) + Zpos d.
Proof.
  induction d as [|d IH] using Pos.peano_ind.
  - cbn [Pos.iter digits2_pos]. lia.
  - rewrite Pos.iter_succ. cbn [digits2_pos]. lia.
Qed.

Lemma binary_round_valid (s : bool) (m : positive) (e : Z) :
  valid (binary_round prec emax s m e).
Proof.
  unfold binary_round, shl_align.
  pose proof (fexp_eq (Zpos (digits2_pos m) + e)) as F.
  remember (fexp prec emax (Zpos (digits2_pos m) + e)) as f eqn:Df. clear Df.
  destruct (f - e) as [|d|d] eqn:N.
  - apply binary_round_aux_valid; [lia|]. rewrite fexp_eq. cbn [Zdigits2]. lia.
  - apply binary_round_aux_valid; [lia|]. rewrite fexp_eq. cbn [Zdigits2]. lia.
  - apply binary_round_aux_valid; [lia|]. rewrite fexp_eq. cbn [Zdigits2].
    rewrite digits2_pos_iter. lia.
Qed.

Lemma binary_normalize_valid (m e : Z) (s : bool) :
  valid (binary_normalize prec emax m e s).
Proof.
  destruct m; [reflexivity | apply binary_round_valid..].
Qed.

Lemma add_valid (x y : number) : valid x -> valid y -> valid (add x y).
Proof.
  intros Vx Vy.
  destruct x as [sx|sx| |sx mx ex], y as [sy|sy| |sy my ey];
    try reflexivity; try assumption;
    try (destruct sx, sy; reflexivity).
  apply binary_normalize_valid.
Qed.

Lemma sub_valid (x y : number) : valid x -> valid y -> valid (sub x y).
Proof.
  intros Vx Vy.
  destruct x as [sx|sx| |sx mx ex], y as [sy|sy| |sy my ey];
    try reflexivity; try assumption;
    try (destruct sx, sy; reflexivity).
  apply binary_normalize_valid.
Qed.

Lemma of_Z_valid (z : Z) : valid (of_Z z).
Proof.
  unfold of_Z. destruct (z <? 0) eqn:E.
  - apply opp_valid, number_of_decimal_valid. apply Z.ltb_lt in E. lia.
  - apply number_of_decimal_valid. apply Z.ltb_ge in E. lia.
Qed.

(** ** The digits of a number *)

Lemma digits_fuel_onto (f : nat) (n : Z) (acc : list ascii) :
  digits_fuel f n acc = (digits_fuel f n [] ++ acc)%list.
Proof.
  revert n acc. induction f as [|f IH]; intros n acc; [reflexivity|].
  cbn [digits_fuel]. destruct (n <? 10); [reflexivity|].
  rewrite (IH (n / 10) (digit_char (n mod 10) :: acc)).
  rewrite (IH (n / 10) [digit_char (n mod 10)]).
  rewrite <- app_assoc. reflexivity.
Qed.

Lemma digits_fuel_enough (f1 f2 : nat) (n : Z) :
  0 <= n < 10 ^ Z.of_nat f1 -> n < 10 ^ Z.of_nat f2 ->
  (0 < f1)%nat -> (0 < f2)%nat ->
  digits_fuel f1 n [] = digits_fuel f2 n [].
Proof.
  revert f2 n. induction f1 as [|f1 IH]; intros f2 n H1 H2 P1 P2; [lia|].
  destruct f2 as [|f2]; [lia|].
  cbn [digits_fuel]. destruct (Z.ltb_spec n 10) as [S|L]; [reflexivity|].
  rewrite Nat2Z.inj_succ, Z.pow_succ_r in H1, H2 by apply Nat2Z.is_nonneg.
  assert (B1 : 0 <= n / 10 < 10 ^ Z.of_nat f1).
  { split; [apply Z.div_pos; lia | apply Z.div_lt_upper_bound; lia]. }
  assert (B2 : n / 10 < 10 ^ Z.of_nat f2)
    by (apply Z.div_lt_upper_bound; lia).
  assert (1 <= n / 10) by (apply Z.div_le_lower_bound; lia).
  assert (Q1 : (0 < f1)%nat).
  { destruct f1; [change (10 ^ Z.of_nat 0) with 1 in B1; lia | lia]. }
  assert (Q2 : (0 < f2)%nat).
  { destruct f2; [change (10 ^ Z.of_nat 0) with 1 in B2; lia | lia]. }
  rewrite (digits_fuel_onto f1), (digits_fuel_onto f2).
  now rewrite (IH f2 (n / 10) B1 B2 Q1 Q2).
Qed.

Lemma log2_fuel (n : Z) : 0 <= n -> n < 10 ^ Z.of_nat (S (Z.to_nat (Z.log2 n))).
Proof.
  intros Hn. destruct (Z.eq_dec n 0) as [->|N]; [reflexivity|].
  pose proof (Z.log2_spec n ltac:(lia)) as L.
  pose proof (Z.log2_nonneg n).
  rewrite Nat2Z.inj_succ, Z2Nat.id by lia.
  apply Z.lt_le_trans with (2 ^ Z.succ (Z.log2 n)); [lia|].
  apply Z.pow_le_mono_l. lia.
Qed.

Lemma decimal_digits_snoc (n d : Z) :
  0 < n -> 0 <= d < 10 ->
  decimal_digits (10 * n + d) = (decimal_digits n ++ [digit_char d])%list.
Proof.
  intros Hn Hd. unfold decimal_digits at 1.
  cbn [digits_fuel].
  destruct (Z.ltb_spec (10 * n + d) 10) as [S|L]; [lia|].
  replace ((10 * n + d) / 10) with n
    by (apply Z.div_unique with d; lia).
  replace ((10 * n + d) mod 10) with d
    by (apply Z.mod_unique with n; lia).
  unfold decimal_digits. rewrite digits_fuel_onto.
  f_equal. apply digits_fuel_enough; try lia.
  - split; [lia|].
    assert (F : 10 * n + d < 10 ^ Z.of_nat (S (Z.to_nat (Z.log2 (10 * n + d)))))
      by (apply log2_fuel; lia).
    pose proof (Z.log2_nonneg (10 * n + d)).
    rewrite Nat2Z.inj_succ, Z.pow_succ_r in F by apply Nat2Z.is_nonneg.
    assert (n < 10 ^ Z.of_nat (Z.to_nat (Z.log2 (10 * n + d)))) by lia.
    assumption.
  - apply log2_fuel. lia.
  - assert (3 <= Z.log2 (10 * n + d)) by (apply Z.log2_le_pow2; lia). lia.
Qed.

Lemma digits_fuel_digits (fuel : nat) (n : Z) (acc : list ascii) :
  all_digits acc -> all_digits (digits_fuel fuel n acc).
Proof.
  revert n acc. induction fuel as [|f IH]; intros n acc H; [exact H|].
  cbn [digits_fuel].
  assert (all_digits (digit_char (n mod 10) :: acc)).
  { constructor; [|exact H].
    apply digit_char_spec. pose proof (Z.mod_pos_bound n 10). lia. }
  destruct (n <? 10); [assumption | now apply IH].
Qed.

Lemma decimal_digits_digit (d : Digit) :
  decimal_digits (digit_number d) = [digit_char (digit_number d)].
Proof. destruct d; reflexivity. Qed.

Lemma digit_number_range (d : Digit) : 0 <= digit_number d < 10.
Proof. destruct d; cbn; lia. Qed.

Lemma digits_number_nonneg_from (ds : list Digit) (n : Z) :
  (0 <= n)%Z -> (0 <= fold_left (fun a d => 10 * a + digit_number d) ds n)%Z.
Proof.
  revert n. induction ds as [|d ds IH]; intros n Hn; [exact Hn|].
  cbn [fold_left]. apply IH. pose proof (digit_number_range d). lia.
Qed.

Lemma digits_number_nonneg (ds : list Digit) : (0 <= digits_number ds)%Z.
Proof. apply digits_number_nonneg_from. lia. Qed.

Lemma digit_chars_digits (ds : list Digit) : all_digits (digit_chars ds).
Proof.
  induction ds as [|d ds IH]; constructor; [|exact IH].
  now destruct d.
Qed.

Lemma digits_value_digit_chars (ds : list Digit) (cs : list ascii) :
  digits_value (cs ++ digit_chars ds)
  = fold_left (fun a d => 10 * a + digit_number d)%Z ds (digits_value cs).
Proof.
  unfold digits_value. rewrite fold_left_app.
  generalize (fold_left (fun a c => 10 * a + digit_value c)%Z cs 0%Z).
  induction ds as [|d ds IH]; intros z; [reflexivity|].
  cbn [digit_chars map fold_left]. fold (digit_chars ds).
  rewrite IH. f_equal. now destruct d.
Qed.

Lemma of_Z_nonneg (z : Z) : (0 <= z)%Z -> of_Z z = number_of_decimal z 0.
Proof.
  intros H. unfold of_Z. destruct (Z.ltb_spec z 0); [lia | reflexivity].
Qed.

Lemma same_value_zero_refl (x : number) : same_value_zero x x = true.
Proof.
  destruct x as [a|a| |a m e]; try reflexivity.
  - destruct a; reflexivity.
  - apply (same_value_refl (S754_finite a m e)).
Qed.

(** ** Whole numbers *)

(** The number value of a whole number below [2 ^ 52] is the number
    itself. *)
Lemma integer_value (N : Z) :
  0 < N < 2 ^ 52 ->
  exists m e,
    number_of_decimal N 0 = S754_finite false m e /\ e <= 0 /\
    Zpos m = N * 2 ^ (- e).
Proof.
  intros HN. unfold number_of_decimal.
  change (pow_pos 10 0) with 1. change (pow_pos 10 (- 0)) with 1.
  rewrite Z.mul_1_r.
  assert (G : pow_gt 52 N 1).
  { apply (pow_gt_iff 52 0 N 1); [lia..|]. rewrite Z.pow_0_r. lia. }
  pose proof (ilog2_ratio_lt 52 N 1 ltac:(lia) ltac:(lia) G) as Hl.
  assert (L : pow_le 0 N 1).
  { apply (pow_le_iff 0 0 N 1); lia. }
  pose proof (ilog2_ratio_ge 0 N 1 ltac:(lia) ltac:(lia) L) as Hg.
  assert (F : is_finite (round_ratio N 1) = true).
  { assert (2 ^ 52 < 10 ^ 308) by reflexivity.
    apply round_ratio_finite; lia. }
  destruct (quotient_bounds N 1 ltac:(lia) ltac:(lia)) as [Hq [Hb|Hq']];
    [unfold binade in Hb; lia|].
  pose proof (round_half_even_bounds (quotient N 1) (remainder N 1)
                (1 * pow_pos 2 (binade N 1))) as Hr.
  assert (P52 : 0 < 2 ^ 52) by reflexivity.
  destruct (round_ratio N 1) as [a|a| |a m e] eqn:R; try discriminate F.
  - rewrite round_ratio_eq in R by lia. unfold finite_of in R.
    destruct (Z.eqb_spec (round_half_even (quotient N 1) (remainder N 1)
                (1 * pow_pos 2 (binade N 1))) 0) as [E|_]; [lia|].
    repeat match type of R with
           | (if ?b then _ else _) = _ => destruct b
           end; discriminate R.
  - destruct (round_ratio_error N 1 a m e ltac:(lia) ltac:(lia) R)
      as [[_ He] E].
    rewrite round_ratio_eq in R by lia.
    destruct (finite_of_cases _ _ a m e R ltac:(lia)) as [-> _].
    assert (He' : e <= 0) by (unfold binade in He; lia).
    exists m, e. split; [reflexivity|]. split; [exact He'|].
    rewrite (pow_pos_nonpos 2 e), (pow_pos_nonneg 2 (- e)) in E by lia.
    lia.
Qed.

Lemma integer_decimal_exact (N s p : Z) (m : positive) (e : Z) :
  0 < N -> e <= 0 -> Zpos m = N * 2 ^ (- e) ->
  0 < s -> 0 <= p ->
  number_of_decimal s p = S754_finite false m e ->
  s * 10 ^ p = N.
Proof.
  intros HN He Em Hs Hp V. unfold number_of_decimal in V.
  rewrite (pow_pos_nonneg 10 p), (pow_pos_nonpos 10 (- p)) in V by lia.
  assert (T : 0 < 10 ^ p) by (apply Z.pow_pos_nonneg; lia).
  destruct (round_ratio_error (s * 10 ^ p) 1 false m e ltac:(nia) ltac:(lia) V)
    as [_ E].
  rewrite (pow_pos_nonpos 2 e), (pow_pos_nonneg 2 (- e)) in E by lia.
  assert (B : 0 < 2 ^ (- e)) by (apply Z.pow_pos_nonneg; lia).
  rewrite Em in E. set (x := s * 10 ^ p) in *. clearbody x.
  set (b := 2 ^ (- e)) in *. clearbody b. nia.
Qed.

Lemma strip_zeros_snd (fuel : nat) (s p : Z) : p <= snd (strip_zeros fuel s p).
Proof.
  revert s p. induction fuel as [|f IH]; intros s p; cbn [strip_zeros];
    [cbn; lia|].
  destruct ((s mod 10 =? 0) && negb (s =? 0)); [|cbn; lia].
  specialize (IH (s / 10) (p + 1)). lia.
Qed.

Lemma candidate_exponent (x : number) (num den n k : Z) (c : Z * Z) :
  candidate x num den n k = Some c -> n - k <= snd c.
Proof.
  unfold candidate. cbv zeta.
  destruct (rounds_to x _ (n - k)); destruct (rounds_to x _ (n - k));
    intros E; try discriminate; injection E as <-;
    apply strip_zeros_snd.
Qed.

Lemma shortest_from_reaches (fuel : nat) (x : number) (num den n k : Z) :
  k <= n < k + Z.of_nat fuel ->
  candidate x num den n n <> None ->
  exists c k',
    k <= k' <= n /\ candidate x num den n k' = Some c /\
    shortest_from fuel x num den n k = Some c.
Proof.
  revert k. induction fuel as [|f IH]; intros k Hk Hn; [lia|].
  cbn [shortest_from].
  destruct (candidate x num den n k) as [c|] eqn:E.
  - exists c, k. repeat split; [lia | lia | exact E].
  - assert (k <> n) by congruence.
    destruct (IH (k + 1) ltac:(lia) Hn) as (c & k' & Hk' & Ec & Es).
    exists c, k'. repeat split; [lia | lia | exact Ec | exact Es].
Qed.

Lemma rounds_to_itself (s p : Z) :
  0 < s -> rounds_to (number_of_decimal s p) s p = true.
Proof.
  intros Hs. unfold rounds_to.
  destruct (normal_decimal_rounds s p Hs) as [_ E].
  destruct (normal_decimal s p) as [s' p']. cbn [fst snd] in E.
  rewrite E. apply same_value_refl.
Qed.

(** The shortest decimal of a whole number below [10 ^ 15] is the
    number itself. *)
Lemma shortest_decimal_integer (N : Z) (m : positive) (e : Z) :
  0 < N < 10 ^ 15 ->
  number_of_decimal N 0 = S754_finite false m e ->
  0 <= snd (shortest_decimal m e) /\
  fst (shortest_decimal m e) * 10 ^ snd (shortest_decimal m e) = N.
Proof.
  intros HN V.
  assert (H52 : 10 ^ 15 < 2 ^ 52) by reflexivity.
  destruct (integer_value N ltac:(lia)) as (m' & e' & V' & He & Em).
  rewrite V in V'. injection V' as <- <-.
  assert (B : 0 < 2 ^ (- e)) by (apply Z.pow_pos_nonneg; lia).
  unfold shortest_decimal.
  rewrite (pow_pos_nonpos 2 e), (pow_pos_nonneg 2 (- e)), Z.mul_1_r by lia.
  assert (Q : Zpos m / 2 ^ (- e) = N) by (rewrite Em; apply Z.div_mul; lia).
  assert (Dn : decimal_exponent (Zpos m) (2 ^ (- e))
               = Z.of_nat (List.length (decimal_digits N))).
  { unfold decimal_exponent.
    destruct (Z.leb_spec (2 ^ (- e)) (Zpos m)) as [_|G]; [now rewrite Q | nia]. }
  rewrite Dn.
  pose proof (decimal_digits_length N 15 ltac:(lia) ltac:(lia)) as L15.
  pose proof (decimal_digits_nonempty N) as NE.
  assert (L1 : (1 <= List.length (decimal_digits N))%nat)
    by (destruct (decimal_digits N); [congruence | cbn; lia]).
  set (n := Z.of_nat (List.length (decimal_digits N))) in *.
  assert (C : candidate (S754_finite false m e) (Zpos m) (2 ^ (- e)) n n
              <> None).
  { unfold candidate. cbv zeta. rewrite Z.sub_diag.
    change (pow_pos 10 (- 0)) with 1. change (pow_pos 10 0) with 1.
    rewrite !Z.mul_1_r, Q, <- V, (rounds_to_itself N 0) by lia.
    destruct (rounds_to _ (N + 1) 0); discriminate. }
  destruct (shortest_from_reaches 17 (S754_finite false m e) (Zpos m)
              (2 ^ (- e)) n 1 ltac:(lia) C) as (c & k' & Hk & Ec & Es).
  rewrite Es.
  pose proof (candidate_exponent _ _ _ _ _ _ Ec) as Hp.
  destruct (candidate_sound m e (Zpos m) (2 ^ (- e)) n k' c
              (Pos2Z.is_nonneg m) B Ec) as [Hs Hv].
  split; [lia|].
  apply (integer_decimal_exact N _ _ m e); try assumption; lia.
Qed.

Lemma fixed_digits_integer (N : Z) :
  fixed_digits (N * 10 ^ 10) = group_digits (decimal_digits N).
Proof.
  unfold fixed_digits, maximumFractionDigits.
  cbv zeta. rewrite Z.mod_mul, Z.div_mul by discriminate.
  change (rev (drop_zeros (rev (zeros (Z.to_nat 10
            - List.length (decimal_digits 0)) ++ decimal_digits 0))))
    with (@nil ascii).
  apply app_nil_r.
Qed.

Lemma toLocaleString_integer (N : Z) :
  0 <= N < 10 ^ 15 ->
  toLocaleString (of_Z N) = text (group_digits (decimal_digits N)).
Proof.
  intros HN. destruct (Z.eq_dec N 0) as [->|NZ]; [reflexivity|].
  rewrite of_Z_nonneg by lia.
  assert (H52 : 10 ^ 15 < 2 ^ 52) by reflexivity.
  destruct (integer_value N ltac:(lia)) as (m & e & V & _ & _).
  destruct (shortest_decimal_integer N m e ltac:(lia) V) as [Hp Hv].
  rewrite V. unfold toLocaleString.
  destruct (shortest_decimal m e) as [s p]. cbn [fst snd] in *.
  cbn [app]. f_equal. rewrite <- fixed_digits_integer. f_equal.
  unfold round_fixed, maximumFractionDigits.
  destruct (Z.leb_spec 0 (p + 10)) as [_|G]; [|lia].
  rewrite Z.pow_add_r, Z.mul_assoc, Hv by lia. reflexivity.
Qed.

(** ** Exact results *)

Lemma iter_pos_shr_exact (p : positive) (m : Z) :
  0 <= m ->
  iter_pos shr_1 p {| shr_m := m * 2 ^ Zpos p; shr_r := false; shr_s := false |}
  = {| shr_m := m; shr_r := false; shr_s := false |}.
Proof.
  revert m. induction p as [p IH|p IH|]; intros m Hm; cbn [iter_pos].
  - assert (T : 0 < 2 ^ Zpos p) by (apply Z.pow_pos_nonneg; lia).
    assert (E : shr_1 {| shr_m := m * 2 ^ Zpos p~1; shr_r := false;
                         shr_s := false |}
                = {| shr_m := (m * 2 ^ Zpos p) * 2 ^ Zpos p; shr_r := false;
                     shr_s := false |}).
    { rewrite (Pos2Z.inj_xI p).
      replace (2 * Zpos p + 1) with (1 + Zpos p + Zpos p) by lia.
      rewrite !Z.pow_add_r, Z.pow_1_r by lia.
      set (k := m * 2 ^ Zpos p * 2 ^ Zpos p).
      replace (m * (2 * 2 ^ Zpos p * 2 ^ Zpos p)) with (2 * k)
        by (unfold k; ring).
      assert (0 <= k) by (unfold k; nia). clearbody k.
      destruct k as [|k|k]; [reflexivity | reflexivity | lia]. }
    rewrite E, IH, IH by nia. reflexivity.
  - rewrite (Pos2Z.inj_xO p).
    replace (2 * Zpos p) with (Zpos p + Zpos p) by lia.
    rewrite Z.pow_add_r, Z.mul_assoc by lia.
    assert (T : 0 < 2 ^ Zpos p) by (apply Z.pow_pos_nonneg; lia).
    rewrite IH, IH by nia. reflexivity.
  - change (2 ^ 1) with 2.
    destruct m as [|k|k]; [reflexivity | | lia].
    rewrite Z.mul_comm. reflexivity.
Qed.

Lemma Zdigits2_mul_pow (m n : Z) :
  0 < m -> 0 <= n -> Zdigits2 (m * 2 ^ n) = Zdigits2 m + n.
Proof.
  intros Hm Hn.
  pose proof (Zdigits2_bounds m Hm) as [L U].
  pose proof (Zdigits2_pos m Hm) as P.
  assert (T : 0 < 2 ^ n) by (apply Z.pow_pos_nonneg; lia).
  apply Zdigits2_unique; [lia|].
  replace (Zdigits2 m + n - 1) with (Zdigits2 m - 1 + n) by lia.
  rewrite !Z.pow_add_r by lia. split; nia.
Qed.

(** Rounding a significand that stands for a well-formed value gives
    that value. *)
Lemma binary_round_aux_exact (s : bool) (m e : Z) (m0 : positive) (e0 : Z) :
  valid (S754_finite s m0 e0) ->
  e <= e0 -> m = Zpos m0 * 2 ^ (e0 - e) ->
  binary_round_aux prec emax s m e loc_Exact = S754_finite s m0 e0.
Proof.
  intros V He Hm.
  apply valid_finite_elim in V as (_ & B & C).
  assert (D : Zdigits2 m + e = Zpos (digits2_pos m0) + e0).
  { rewrite Hm, Zdigits2_mul_pow by lia. cbn [Zdigits2]. lia. }
  assert (F : fexp prec emax (Zdigits2 m + e) = e0)
    by (rewrite fexp_eq, D; lia).
  assert (S1 : shr_fexp prec emax m e loc_Exact
               = ({| shr_m := Zpos m0; shr_r := false; shr_s := false |}, e0)).
  { unfold shr_fexp, shr. rewrite F. cbn [shr_record_of_loc].
    destruct (e0 - e) as [|p|p] eqn:N; [| |lia].
    - rewrite Hm, Z.pow_0_r, Z.mul_1_r. f_equal. lia.
    - rewrite Hm, iter_pos_shr_exact by lia. f_equal. lia. }
  assert (S2 : shr_fexp prec emax (Zpos m0) e0 loc_Exact
               = ({| shr_m := Zpos m0; shr_r := false; shr_s := false |}, e0)).
  { unfold shr_fexp, shr. cbn [Zdigits2]. rewrite fexp_eq.
    replace (Z.max (Zpos (digits2_pos m0) + e0 - 53) (-1074) - e0) with 0
      by lia.
    reflexivity. }
  unfold binary_round_aux. rewrite S1.
  cbn [shr_m loc_of_shr_record round_nearest_even]. rewrite S2. cbn [shr_m].
  destruct (Z.leb_spec e0 (emax - prec)) as [_|G];
    [reflexivity | unfold emax, prec in G; lia].
Qed.

Lemma pos_iter_xO (m d : positive) :
  Zpos (Pos.iter xO m d) = Zpos m * 2 ^ Zpos d.
Proof.
  induction d as [|d IH] using Pos.peano_ind.
  - cbn [Pos.iter]. rewrite (Pos2Z.inj_xO m). change (2 ^ 1) with 2. lia.
  - rewrite Pos.iter_succ, (Pos2Z.inj_xO (Pos.iter xO m d)), IH.
    rewrite Pos2Z.inj_succ, Z.pow_succ_r by lia. ring.
Qed.

Lemma binary_round_exact (s : bool) (m : positive) (e : Z)
      (m0 : positive) (e0 : Z) :
  valid (S754_finite s m0 e0) ->
  (e <= e0 /\ Zpos m = Zpos m0 * 2 ^ (e0 - e)) \/
  (e0 <= e /\ Zpos m0 = Zpos m * 2 ^ (e - e0)) ->
  binary_round prec emax s m e = S754_finite s m0 e0.
Proof.
  intros V H. pose proof V as V'.
  apply valid_finite_elim in V' as (_ & B & C).
  assert (D : Zpos (digits2_pos m) + e = Zpos (digits2_pos m0) + e0).
  { destruct H as [[He Hm]|[He Hm]].
    - change (Zpos (digits2_pos m)) with (Zdigits2 (Zpos m)).
      rewrite Hm, Zdigits2_mul_pow by lia. cbn [Zdigits2]. lia.
    - change (Zpos (digits2_pos m0)) with (Zdigits2 (Zpos m0)).
      rewrite Hm, Zdigits2_mul_pow by lia. cbn [Zdigits2]. lia. }
  unfold binary_round, shl_align. rewrite fexp_eq, D.
  replace (Z.max (Zpos (digits2_pos m0) + e0 - 53) (-1074)) with e0 by lia.
  destruct (e0 - e) as [|p|p] eqn:N.
  - apply binary_round_aux_exact; [exact V | lia|]. rewrite N.
    destruct H as [[_ Hm]|[He Hm]]; [exact Hm|].
    replace (e - e0) with 0 in Hm by lia.
    rewrite Z.pow_0_r, Z.mul_1_r in *. now rewrite Hm.
  - apply binary_round_aux_exact; [exact V | lia|]. rewrite N.
    destruct H as [[_ Hm]|[He Hm]]; [exact Hm | lia].
  - apply binary_round_aux_exact; [exact V | lia|].
    rewrite Z.sub_diag, Z.pow_0_r, Z.mul_1_r, pos_iter_xO.
    destruct H as [[He Hm]|[He Hm]]; [lia|].
    rewrite Hm. f_equal. f_equal. lia.
Qed.

(** ** Whole-number arithmetic *)

(** The number value of a positive whole number below [2 ^ 52]. *)
Lemma of_Z_positive (N : Z) :
  0 < N < 2 ^ 52 ->
  exists m e,
    of_Z N = S754_finite false m e /\
    valid (S754_finite false m e) /\
    e = Zdigits2 N - 53 /\ e <= 0 /\ Zpos m = N * 2 ^ (- e).
Proof.
  intros HN. rewrite of_Z_nonneg by lia.
  destruct (integer_value N HN) as (m & e & V & He & Em).
  exists m, e. split; [exact V|].
  assert (Vm : valid (S754_finite false m e))
    by (rewrite <- V; apply number_of_decimal_valid; lia).
  split; [exact Vm|].
  apply valid_finite_elim in Vm as (_ & B & C).
  assert (D : Zpos (digits2_pos m) = Zdigits2 N - e).
  { change (Zpos (digits2_pos m)) with (Zdigits2 (Zpos m)).
    rewrite Em, Zdigits2_mul_pow by lia. lia. }
  pose proof (Zdigits2_pos N ltac:(lia)).
  repeat split; try assumption. lia.
Qed.

Lemma of_Z_negative (N : Z) : 0 < N -> of_Z (- N) = opp (of_Z N).
Proof.
  intros HN. unfold of_Z.
  destruct (Z.ltb_spec (- N) 0); [|lia].
  destruct (Z.ltb_spec N 0); [lia|].
  now rewrite Z.opp_involutive.
Qed.

Lemma of_Z_finite (N : Z) :
  0 < N < 10 ^ 15 -> exists m e, of_Z N = S754_finite false m e.
Proof.
  intros HN. assert (H52 : 10 ^ 15 < 2 ^ 52) by reflexivity.
  destruct (of_Z_positive N ltac:(lia)) as (m & e & E & _).
  now exists m, e.
Qed.

Lemma shl_align_fst (m : positive) (e ez : Z) :
  ez <= e -> Zpos (fst (shl_align m e ez)) = Zpos m * 2 ^ (e - ez).
Proof.
  intros H. unfold shl_align.
  destruct (ez - e) as [|d|d] eqn:N; cbn [fst].
  - replace (e - ez) with 0 by lia. rewrite Z.pow_0_r. lia.
  - lia.
  - rewrite pos_iter_xO. f_equal. f_equal. lia.
Qed.

(** A significand [M] at exponent [ez] that stands for the whole
    number [N]. *)
Lemma binary_round_whole (s : bool) (M : positive) (ez N : Z) :
  0 < N < 2 ^ 52 -> ez <= 0 -> Zpos M = N * 2 ^ (- ez) ->
  binary_round prec emax s M ez
  = (if s then opp (of_Z N) else of_Z N).
Proof.
  intros HN Hez HM.
  destruct (of_Z_positive N HN) as (m0 & e0 & E & V & _ & He0 & Em0).
  assert (C : (e0 <= ez /\ Zpos m0 = Zpos M * 2 ^ (ez - e0)) \/
              (ez <= e0 /\ Zpos M = Zpos m0 * 2 ^ (e0 - ez))).
  { destruct (Z.le_gt_cases ez e0) as [L|G].
    - right. split; [exact L|]. rewrite HM, Em0.
      replace (- ez) with (- e0 + (e0 - ez)) by lia.
      rewrite Z.pow_add_r by lia. ring.
    - left. split; [lia|]. rewrite HM, Em0.
      replace (- e0) with (- ez + (ez - e0)) by lia.
      rewrite Z.pow_add_r by lia. ring. }
  rewrite E. destruct s; cbn [opp SFopp negb];
    apply binary_round_exact; try exact V; tauto.
Qed.

(** The number value of a whole number other than 0, with its sign. *)
Lemma of_Z_signed (z : Z) :
  z <> 0 -> - 2 ^ 52 < z < 2 ^ 52 ->
  exists m e,
    of_Z z = S754_finite (z <? 0) m e /\
    (forall s, valid (S754_finite s m e)) /\
    e = Zdigits2 (Z.abs z) - 53 /\ e <= 0 /\ Zpos m = Z.abs z * 2 ^ (- e).
Proof.
  intros Nz Hz.
  destruct (of_Z_positive (Z.abs z) ltac:(lia)) as (m & e & E & V & D & He & Em).
  exists m, e. split; [|split; [intros s; exact V | repeat split; assumption]].
  destruct (Z.ltb_spec z 0) as [N|P].
  - replace z with (- Z.abs z) by lia. rewrite of_Z_negative by lia.
    rewrite E. reflexivity.
  - now replace z with (Z.abs z) by lia.
Qed.

Lemma of_Z_opp (z : Z) : z <> 0 -> of_Z (- z) = opp (of_Z z).
Proof.
  intros Nz. destruct (Z.lt_trichotomy z 0) as [N|[E|P]]; [|contradiction|].
  - replace z with (- - z) at 2 by lia.
    rewrite (of_Z_negative (- z)) by lia.
    unfold opp. destruct (of_Z (- z)) as [[]|[]| |[] m e]; reflexivity.
  - now apply of_Z_negative.
Qed.

Lemma binary_normalize_whole (M ez z : Z) :
  ez <= 0 -> M = z * 2 ^ (- ez) -> - 2 ^ 52 < z < 2 ^ 52 ->
  binary_normalize prec emax M ez false = of_Z z.
Proof.
  intros He HM Hz.
  assert (T : 0 < 2 ^ (- ez)) by (apply Z.pow_pos_nonneg; lia).
  destruct M as [|p|p]; cbn [binary_normalize].
  - assert (z = 0) by nia. subst z. reflexivity.
  - rewrite (binary_round_whole false p ez z); [reflexivity | nia | lia | exact HM].
  - rewrite (binary_round_whole true p ez (- z)); [| nia | lia | lia].
    rewrite <- of_Z_opp by lia. now rewrite Z.opp_involutive.
Qed.

Lemma cond_Zopp_aligned (z : Z) (m : positive) (e ez : Z) :
  z <> 0 -> e <= 0 -> ez <= e -> Zpos m = Z.abs z * 2 ^ (- e) ->
  cond_Zopp (z <? 0) (Zpos (fst (shl_align m e ez))) = z * 2 ^ (- ez).
Proof.
  intros Nz He Hez Em.
  rewrite shl_align_fst, Em by exact Hez.
  assert (F : 2 ^ (- e) * 2 ^ (e - ez) = 2 ^ (- ez)).
  { rewrite <- Z.pow_add_r by lia. f_equal. lia. }
  rewrite <- Z.mul_assoc, F.
  destruct (Z.ltb_spec z 0); cbn [cond_Zopp]; nia.
Qed.

Lemma add_whole (a b : Z) :
  - 2 ^ 52 < a < 2 ^ 52 -> - 2 ^ 52 < b < 2 ^ 52 ->
  - 2 ^ 52 < a + b < 2 ^ 52 ->
  add (of_Z a) (of_Z b) = of_Z (a + b).
Proof.
  intros Ha Hb Hs.
  destruct (Z.eq_dec a 0) as [->|Na].
  { destruct (Z.eq_dec b 0) as [->|Nb]; [reflexivity|].
    destruct (of_Z_signed b Nb Hb) as (mb & eb & Eb & _).
    rewrite Z.add_0_l, Eb. reflexivity. }
  destruct (of_Z_signed a Na Ha) as (ma & ea & Ea & _ & _ & Hea & Ema).
  destruct (Z.eq_dec b 0) as [->|Nb].
  { rewrite Z.add_0_r, Ea. reflexivity. }
  destruct (of_Z_signed b Nb Hb) as (mb & eb & Eb & _ & _ & Heb & Emb).
  rewrite Ea, Eb. unfold add, SFadd.
  apply binary_normalize_whole; [lia | | exact Hs].
  rewrite (cond_Zopp_aligned a ma ea (Z.min ea eb) Na Hea (Z.le_min_l ea eb) Ema).
  rewrite (cond_Zopp_aligned b mb eb (Z.min ea eb) Nb Heb (Z.le_min_r ea eb) Emb).
  ring.
Qed.

Lemma sub_whole (a b : Z) :
  - 2 ^ 52 < a < 2 ^ 52 -> - 2 ^ 52 < b < 2 ^ 52 ->
  - 2 ^ 52 < a - b < 2 ^ 52 ->
  sub (of_Z a) (of_Z b) = of_Z (a - b).
Proof.
  intros Ha Hb Hs.
  destruct (Z.eq_dec b 0) as [->|Nb].
  { rewrite Z.sub_0_r. destruct (Z.eq_dec a 0) as [->|Na]; [reflexivity|].
    destruct (of_Z_signed a Na Ha) as (ma & ea & Ea & _).
    rewrite Ea. reflexivity. }
  destruct (of_Z_signed b Nb Hb) as (mb & eb & Eb & _ & _ & Heb & Emb).
  destruct (Z.eq_dec a 0) as [->|Na].
  { rewrite Z.sub_0_l, (of_Z_opp b Nb), Eb. reflexivity. }
  destruct (of_Z_signed a Na Ha) as (ma & ea & Ea & _ & _ & Hea & Ema).
  rewrite Ea, Eb. unfold sub, SFsub.
  apply binary_normalize_whole; [lia | | exact Hs].
  rewrite (cond_Zopp_aligned a ma ea (Z.min ea eb) Na Hea (Z.le_min_l ea eb) Ema).
  rewrite (cond_Zopp_aligned b mb eb (Z.min ea eb) Nb Heb (Z.le_min_r ea eb) Emb).
  ring.
Qed.

Lemma Zdigits2_mul (a b : Z) :
  0 < a -> 0 < b -> Zdigits2 a + Zdigits2 b - 1 <= Zdigits2 (a * b).
Proof.
  intros Ha Hb.
  pose proof (Zdigits2_bounds a Ha) as [La _].
  pose proof (Zdigits2_bounds b Hb) as [Lb _].
  pose proof (Zdigits2_bounds (a * b) ltac:(nia)) as [_ U].
  pose proof (Zdigits2_pos a Ha). pose proof (Zdigits2_pos b Hb).
  pose proof (Zdigits2_pos (a * b) ltac:(nia)).
  assert (P : 2 ^ (Zdigits2 a - 1 + (Zdigits2 b - 1)) <= a * b).
  { rewrite Z.pow_add_r by lia.
    apply Z.mul_le_mono_nonneg; try assumption; apply Z.pow_nonneg; lia. }
  destruct (Z.le_gt_cases (Zdigits2 a + Zdigits2 b - 1) (Zdigits2 (a * b)))
    as [L|G]; [exact L|].
  assert (2 ^ Zdigits2 (a * b) <= 2 ^ (Zdigits2 a - 1 + (Zdigits2 b - 1)))
    by (apply Z.pow_le_mono_r; lia).
  lia.
Qed.

Lemma ltb_mul (a b : Z) :
  a <> 0 -> b <> 0 -> (a * b <? 0) = xorb (a <? 0) (b <? 0).
Proof.
  intros Na Nb.
  destruct (Z.ltb_spec a 0), (Z.ltb_spec b 0), (Z.ltb_spec (a * b) 0);
    cbn [xorb]; try reflexivity; nia.
Qed.

Lemma mul_whole (a b : Z) :
  a <> 0 -> b <> 0 ->
  - 2 ^ 52 < a < 2 ^ 52 -> - 2 ^ 52 < b < 2 ^ 52 ->
  - 2 ^ 52 < a * b < 2 ^ 52 ->
  mul (of_Z a) (of_Z b) = of_Z (a * b).
Proof.
  intros Na Nb Ha Hb Hs.
  destruct (of_Z_signed a Na Ha) as (ma & ea & Ea & _ & Da & Hea & Ema).
  destruct (of_Z_signed b Nb Hb) as (mb & eb & Eb & _ & Db & Heb & Emb).
  destruct (of_Z_signed (a * b) ltac:(nia) Hs)
    as (m0 & e0 & E0 & V0 & D0 & He0 & Em0).
  rewrite Z.abs_mul in D0, Em0.
  pose proof (Zdigits2_mul (Z.abs a) (Z.abs b) ltac:(lia) ltac:(lia)) as Dm.
  rewrite Ea, Eb, E0, (ltb_mul a b Na Nb). unfold mul, SFmul.
  apply binary_round_aux_exact; [apply V0 | lia |].
  rewrite Pos2Z.inj_mul, Ema, Emb, Em0.
  assert (F : 2 ^ (- e0) * 2 ^ (e0 - (ea + eb)) = 2 ^ (- ea) * 2 ^ (- eb)).
  { rewrite <- !Z.pow_add_r by lia. f_equal. lia. }
  transitivity (Z.abs a * Z.abs b * (2 ^ (- e0) * 2 ^ (e0 - (ea + eb))));
    [rewrite F; ring | ring].
Qed.

Lemma Zdigits2_div (a b : Z) :
  0 < b -> b <= a -> Zdigits2 a - Zdigits2 b <= Zdigits2 (a / b).
Proof.
  intros Hb Hab.
  pose proof (Zdigits2_bounds a ltac:(lia)) as [La _].
  pose proof (Zdigits2_bounds b Hb) as [_ Ub].
  assert (Q : 0 < a / b) by (apply Z.div_str_pos; lia).
  pose proof (Zdigits2_bounds (a / b) Q) as [_ U].
  pose proof (Zdigits2_pos a ltac:(lia)). pose proof (Zdigits2_pos b Hb).
  pose proof (Zdigits2_pos (a / b) Q).
  destruct (Z.le_gt_cases (Zdigits2 a - Zdigits2 b) (Zdigits2 (a / b)))
    as [L|G]; [exact L|].
  assert (P : 2 ^ Zdigits2 (a / b) * 2 ^ Zdigits2 b <= 2 ^ (Zdigits2 a - 1)).
  { rewrite <- Z.pow_add_r by lia. apply Z.pow_le_mono_r; lia. }
  pose proof (Z.mul_succ_div_gt a b Hb) as S.
  assert (0 < 2 ^ Zdigits2 b) by (apply Z.pow_pos_nonneg; lia).
  nia.
Qed.

(** An exact quotient: [q * b] divided by [b]. *)
Lemma div_whole (q b : Z) :
  q <> 0 -> b <> 0 ->
  - 2 ^ 52 < q * b < 2 ^ 52 -> - 2 ^ 52 < b < 2 ^ 52 ->
  div (of_Z (q * b)) (of_Z b) = of_Z q.
Proof.
  intros Nq Nb Ha Hb.
  assert (Hq : - 2 ^ 52 < q < 2 ^ 52) by nia.
  destruct (of_Z_signed b Nb Hb) as (mb & eb & Eb & _ & Db & Heb & Emb).
  destruct (of_Z_signed (q * b) ltac:(nia) Ha)
    as (ma & ea & Ea & _ & Da & Hea & Ema).
  destruct (of_Z_signed q Nq Hq) as (m0 & e0 & E0 & V0 & D0 & He0 & Em0).
  rewrite Z.abs_mul in Da, Ema.
  set (A := Z.abs q * Z.abs b) in *. set (B := Z.abs b) in *.
  set (Q := Z.abs q) in *.
  assert (PB : 0 < B) by (unfold B; lia).
  assert (PQ : 0 < Q) by (unfold Q; lia).
  assert (EQ : A / B = Q) by (unfold A; apply Z.div_mul; lia).
  pose proof (Zdigits2_div A B PB ltac:(unfold A; nia)) as Dq.
  rewrite EQ in Dq.
  pose proof (Zdigits2_pos A ltac:(unfold A; nia)) as Pa.
  pose proof (Zdigits2_pos B PB) as Pb.
  assert (Ga : Zpos (digits2_pos ma) = 53).
  { change (Zpos (digits2_pos ma)) with (Zdigits2 (Zpos ma)).
    rewrite Ema, Zdigits2_mul_pow by (unfold A; nia). lia. }
  assert (Gb : Zpos (digits2_pos mb) = 53).
  { change (Zpos (digits2_pos mb)) with (Zdigits2 (Zpos mb)).
    rewrite Emb, Zdigits2_mul_pow by lia. lia. }
  assert (Sg : xorb (q * b <? 0) (b <? 0) = (q <? 0)).
  { rewrite (ltb_mul q b Nq Nb). now destruct (q <? 0), (b <? 0). }
  rewrite Ea, Eb, E0. unfold div, SFdiv, SFdiv_core_binary.
  cbn [Zdigits2]. rewrite Sg, Ga, Gb, fexp_eq.
  replace (Z.min (Z.max (53 + ea - (53 + eb) - 53) (-1074)) (ea - eb))
    with (ea - eb - 53) by lia.
  replace (ea - eb - (ea - eb - 53)) with 53 by lia.
  assert (Mul : Z.shiftl (Zpos ma) 53
                = Q * 2 ^ (- (ea - eb - 53)) * Zpos mb).
  { rewrite Z.shiftl_mul_pow2, Ema, Emb by lia.
    assert (F : 2 ^ (- (ea - eb - 53)) * 2 ^ (- eb) = 2 ^ (- ea) * 2 ^ 53).
    { rewrite <- !Z.pow_add_r by lia. f_equal. lia. }
    transitivity (Q * B * (2 ^ (- ea) * 2 ^ 53));
      [unfold A; ring | rewrite <- F; ring]. }
  rewrite div_eucl_div, Mul, Z.div_mul, Z.mod_mul by lia.
  assert (L : new_location (Zpos mb) 0 = loc_Exact)
    by (unfold new_location; now destruct (Z.even (Zpos mb))).
  rewrite L.
  apply binary_round_aux_exact; [apply V0 | lia |].
  rewrite Em0.
  replace (- (ea - eb - 53)) with (- e0 + (e0 - (ea - eb - 53))) by lia.
  rewrite Z.pow_add_r by lia. ring.
Qed.

Lemma stands_for_refl (z : Z) : stands_for (of_Z z) z.
Proof. apply same_value_zero_refl. Qed.

Lemma stands_for_cases (x : number) (z : Z) :
  stands_for x z -> - 2 ^ 52 < z < 2 ^ 52 ->
  (z = 0 /\ exists s, x = S754_zero s) \/ (z <> 0 /\ x = of_Z z).
Proof.
  unfold stands_for. intros S Hz.
  destruct (Z.eq_dec z 0) as [->|Nz].
  - left. split; [reflexivity|].
    destruct x as [s|s| |s m e]; try discriminate S. now exists s.
  - right. split; [exact Nz|].
    destruct (of_Z_signed z Nz Hz) as (m & e & E & _).
    rewrite E in *. apply same_value_eq.
    destruct x as [s|s| |s m' e']; try discriminate S. exact S.
Qed.

Lemma stands_for_zero (s : bool) : stands_for (S754_zero s) 0.
Proof. reflexivity. Qed.

(** The operator table computes on whole numbers as on integers, as
    long as the numbers stay below [2 ^ 52] and a division is exact. *)
Lemma apply_stands_for (op : Op) (x : number) (z b : Z) :
  stands_for x z ->
  - 2 ^ 52 < z < 2 ^ 52 -> 0 <= b < 2 ^ 52 ->
  - 2 ^ 52 < whole_result op z b < 2 ^ 52 ->
  (op = Divide -> b = 0 \/ z mod b = 0) ->
  stands_for (apply op x (of_Z b)) (whole_result op z b).
Proof.
  intros S Hz Hb Hr Hd.
  destruct (stands_for_cases x z S Hz) as [[-> [s ->]] | [Nz ->]].
  - destruct (Z.eq_dec b 0) as [->|Nb]; [destruct op, s; reflexivity|].
    destruct (of_Z_signed b Nb ltac:(lia)) as (mb & eb & Eb & _).
    destruct op; cbn [apply whole_result].
    + rewrite Eb. cbn. rewrite <- Eb. apply stands_for_refl.
    + unfold stands_for. rewrite Z.sub_0_l, (of_Z_opp b Nb), Eb.
      cbn [sub SFsub opp SFopp same_value_zero].
      apply (same_value_refl (S754_finite _ mb eb)).
    + rewrite Z.mul_0_l, Eb. apply stands_for_zero.
    + destruct (Z.eqb_spec b 0) as [|_]; [contradiction|].
      rewrite Z.div_0_l, Eb by exact Nb.
      destruct (b <? 0); apply stands_for_zero.
  - destruct (of_Z_signed z Nz Hz) as (mz & ez & Ez & _).
    destruct (Z.eq_dec b 0) as [->|Nb].
    + destruct op; cbn [apply whole_result] in *.
      * rewrite add_whole by lia. apply stands_for_refl.
      * rewrite sub_whole by lia. apply stands_for_refl.
      * rewrite Z.mul_0_r, Ez. apply stands_for_zero.
      * apply stands_for_zero.
    + destruct op; cbn [apply whole_result] in *.
      * rewrite add_whole by lia. apply stands_for_refl.
      * rewrite sub_whole by lia. apply stands_for_refl.
      * rewrite mul_whole by lia. apply stands_for_refl.
      * destruct (Z.eqb_spec b 0) as [|_]; [contradiction|].
        destruct (of_Z_signed b Nb ltac:(lia)) as (mb & eb & Eb & _).
        replace (strict_not_equal (of_Z b) zero) with true
          by (rewrite Eb; now destruct (b <? 0)).
        destruct (Hd eq_refl) as [Z0|M]; [contradiction|].
        assert (E : z = z / b * b).
        { pose proof (Z.div_mod z b Nb). lia. }
        assert (Nq : z / b <> 0) by nia.
        rewrite E at 1. rewrite div_whole; [apply stands_for_refl | | | |];
          try assumption; lia.
Qed.

(** ** The rendering of whole numbers *)

Lemma zeros_snoc (n : nat) : zeros n ++ ["0"%char] = zeros (S n).
Proof.
  unfold zeros. induction n as [|n IH]; [reflexivity|].
  cbn [repeat app]. now rewrite IH.
Qed.

Lemma decimal_digits_shift (s : Z) (p : nat) :
  0 < s ->
  decimal_digits (s * 10 ^ Z.of_nat p) = decimal_digits s ++ zeros p.
Proof.
  intros Hs. induction p as [|p IH].
  - change (10 ^ Z.of_nat 0) with 1. rewrite Z.mul_1_r, app_nil_r. reflexivity.
  - rewrite Nat2Z.inj_succ, Z.pow_succ_r by lia.
    assert (T : 0 < 10 ^ Z.of_nat p) by (apply Z.pow_pos_nonneg; lia).
    replace (s * (10 * 10 ^ Z.of_nat p)) with (10 * (s * 10 ^ Z.of_nat p) + 0)
      by ring.
    rewrite decimal_digits_snoc, IH by nia.
    rewrite <- app_assoc. f_equal. apply zeros_snoc.
Qed.

Lemma format_decimal_whole (s p N : Z) :
  0 < s -> 0 <= p -> s * 10 ^ p = N -> N < 10 ^ 15 ->
  format_decimal s p = decimal_digits N.
Proof.
  intros Hs Hp E HN.
  pose proof (decimal_digits_shift s (Z.to_nat p) Hs) as Sh.
  rewrite Z2Nat.id, E in Sh by lia.
  pose proof (decimal_digits_length N 15 ltac:(nia) ltac:(lia)) as L.
  rewrite Sh, length_app, zeros_length in L.
  unfold format_decimal.
  set (ds := decimal_digits s) in *.
  assert (K : (1 <= List.length ds)%nat).
  { pose proof (decimal_digits_nonempty s). fold ds in H.
    destruct ds; [congruence | cbn; lia]. }
  destruct (Z.leb_spec (-5) (p + Z.of_nat (List.length ds)));
    destruct (Z.leb_spec (p + Z.of_nat (List.length ds)) 21); try lia.
  cbn [andb].
  destruct (Z.leb_spec (Z.of_nat (List.length ds))
                       (p + Z.of_nat (List.length ds))); [|lia].
  rewrite Sh. f_equal. f_equal. lia.
Qed.

Lemma number_chars_whole (N : Z) (s : bool) (m : positive) (e : Z) :
  0 < N < 10 ^ 15 ->
  of_Z N = S754_finite false m e ->
  number_chars (S754_finite s m e)
  = (if s then ["-"%char] else []) ++ decimal_digits N.
Proof.
  intros HN E. rewrite of_Z_nonneg in E by lia.
  destruct (shortest_decimal_integer N m e HN E) as [Hp Hv].
  assert (V : valid (S754_finite false m e))
    by (rewrite <- E; apply number_of_decimal_valid; lia).
  destruct (shortest_decimal_rounds m e V) as [Hs _].
  cbn [number_chars].
  destruct (shortest_decimal m e) as [d p]. cbn [fst snd] in *.
  now rewrite (format_decimal_whole d p N Hs Hp Hv ltac:(lia)).
Qed.

Lemma toString_whole (z : Z) :
  - 10 ^ 15 < z < 10 ^ 15 -> toString (of_Z z) = text (whole_chars z).
Proof.
  intros Hz. unfold toString, whole_chars. f_equal.
  destruct (Z.ltb_spec z 0) as [N|P].
  - replace z with (- - z) at 1 by lia. rewrite of_Z_negative by lia.
    destruct (of_Z_finite (- z) ltac:(lia)) as (m & e & E).
    rewrite E. cbn [opp SFopp negb].
    now rewrite (number_chars_whole (- z) true m e ltac:(lia) E).
  - destruct (Z.eq_dec z 0) as [->|NZ]; [reflexivity|].
    destruct (of_Z_finite z ltac:(lia)) as (m & e & E).
    rewrite E. now rewrite (number_chars_whole z false m e ltac:(lia) E).
Qed.

Lemma toLocaleString_whole (z : Z) :
  - 10 ^ 15 < z < 10 ^ 15 ->
  toLocaleString (of_Z z) = text (whole_grouped z).
Proof.
  intros Hz. unfold whole_grouped.
  destruct (Z.ltb_spec z 0) as [N|P]; [|apply toLocaleString_integer; lia].
  replace z with (- - z) at 1 by lia. rewrite of_Z_negative by lia.
  pose proof (toLocaleString_integer (- z) ltac:(lia)) as T.
  destruct (of_Z_finite (- z) ltac:(lia)) as (m & e & E).
  rewrite E in *. cbn [opp SFopp negb]. unfold toLocaleString in *.
  destruct (shortest_decimal m e) as [d p]. cbn [app] in *.
  apply (f_equal chars) in T. unfold chars, text in T.
  rewrite !list_ascii_of_string_of_list_ascii in T. now rewrite T.
Qed.

Lemma toString_stands_for (x : number) (z : Z) :
  stands_for x z -> - 10 ^ 15 < z < 10 ^ 15 ->
  toString x = text (whole_chars z).
Proof.
  intros S Hz. assert (H52 : 10 ^ 15 < 2 ^ 52) by reflexivity.
  destruct (stands_for_cases x z S ltac:(lia)) as [[-> [s ->]] | [Nz ->]];
    [reflexivity | now apply toString_whole].
Qed.

Open Scope string_scope.

(** ** Strings *)

Lemma prefix_refl (s : string) : String.prefix s s = true.
Proof.
  induction s as [|c s IH]; simpl; [reflexivity|].
  destruct (ascii_dec c c) as [_|n]; [exact IH | now elim n].
Qed.

Lemma includes_app_r (s t : string) : includes (s ++ t) t = true.
Proof.
  induction s as [|c s IH]; simpl.
  - destruct t; simpl; [reflexivity|].
    rewrite prefix_refl.
    destruct (ascii_dec a a) as [_|n]; [reflexivity | now elim n].
  - rewrite IH. apply orb_true_r.
Qed.

Lemma substring_nonempty (s : string) (n : nat) :
  (0 < n)%nat -> s <> "" -> substring 0 n s <> "".
Proof.
  destruct s; [congruence|]. destruct n; [lia|]. simpl. discriminate.
Qed.

Lemma slice_init_nonempty (s : string) :
  (2 <= String.length s)%nat -> slice s 0 (-1) <> "".
Proof.
  intros H. unfold slice.
  replace (0 <? 0)%Z with false by reflexivity.
  replace (-1 <? 0)%Z with true by reflexivity.
  rewrite Z.min_l by lia. rewrite Z.max_l by lia.
  rewrite Z.sub_0_r, Z.max_l by lia. simpl Z.to_nat at 1.
  apply substring_nonempty; [lia|].
  destruct s; simpl in H; [lia | discriminate].
Qed.

Lemma text_app (a b : list ascii) : text (a ++ b)%list = text a ++ text b.
Proof. induction a as [|c a IH]; simpl; [reflexivity | now rewrite IH]. Qed.

Lemma text_length (cs : list ascii) : String.length (text cs) = List.length cs.
Proof. induction cs as [|c cs IH]; simpl; [reflexivity | now rewrite IH]. Qed.

Lemma substring_text (n : nat) (cs : list ascii) :
  substring 0 n (text cs) = text (firstn n cs).
Proof.
  revert cs. induction n as [|n IH]; intros [|c cs]; simpl; try reflexivity.
  now rewrite IH.
Qed.

Lemma slice_text_init (cs : list ascii) :
  cs <> [] -> slice (text cs) 0 (-1) = text (removelast cs).
Proof.
  intros H. unfold slice. rewrite text_length.
  replace (0 <? 0)%Z with false by reflexivity.
  replace (-1 <? 0)%Z with true by reflexivity.
  assert (0 < List.length cs)%nat by (destruct cs; [congruence | simpl; lia]).
  rewrite Z.min_l, Z.max_l, Z.sub_0_r, Z.max_l by lia.
  change (Z.to_nat 0) with 0%nat. rewrite substring_text.
  rewrite removelast_firstn_len. f_equal. f_equal. lia.
Qed.

Lemma includes_cons (c : ascii) (s : string) (t : string) :
  includes s t = true -> includes (String c s) t = true.
Proof. intros H. cbn [includes]. rewrite H. apply orb_true_r. Qed.

Lemma includes_point (i f : list ascii) :
  includes (text (i ++ "."%char :: f)%list) "." = true.
Proof.
  induction i as [|c i IH].
  - cbn [app text string_of_list_ascii includes String.prefix].
    destruct (ascii_dec "." ".") as [_|n]; [|now elim n].
    now destruct (string_of_list_ascii f).
  - cbn [app text string_of_list_ascii]. apply includes_cons. exact IH.
Qed.

Lemma includes_text_char (cs : list ascii) (c : ascii) :
  includes (text cs) (String c "") = existsb (Ascii.eqb c) cs.
Proof.
  induction cs as [|a cs IH]; [reflexivity|].
  cbn [text string_of_list_ascii includes existsb String.prefix].
  fold (text cs). rewrite IH.
  destruct (ascii_dec c a) as [->|N].
  - rewrite Ascii.eqb_refl. now destruct (text cs).
  - apply Ascii.eqb_neq in N. now rewrite N.
Qed.

Lemma includes_text_false (cs : list ascii) (c : ascii) :
  includes (text cs) (String c "") = false <-> ~ In c cs.
Proof.
  rewrite includes_text_char. split.
  - intros H Hin. assert (E : existsb (Ascii.eqb c) cs = true).
    { apply existsb_exists. exists c. split; [exact Hin | apply Ascii.eqb_refl]. }
    congruence.
  - intros H. destruct (existsb (Ascii.eqb c) cs) eqn:E; [|reflexivity].
    apply existsb_exists in E as (x & Hin & Hx).
    apply Ascii.eqb_eq in Hx. subst x. contradiction.
Qed.

Lemma substring_last (cs : list ascii) (l : ascii) :
  substring (List.length cs) 1 (text (cs ++ [l])%list) = String l "".
Proof. induction cs as [|a cs IH]; [reflexivity | exact IH]. Qed.

Lemma endsWith_text_last (cs : list ascii) (l c : ascii) :
  endsWith (text (cs ++ [l])%list) (String c "") = Ascii.eqb l c.
Proof.
  unfold endsWith. rewrite text_length, length_app.
  cbn [List.length String.length].
  replace (1 <=? List.length cs + 1)%nat with true
    by (symmetry; apply Nat.leb_le; lia).
  replace (List.length cs + 1 - 1)%nat with (List.length cs) by lia.
  rewrite substring_last. cbn [String.eqb andb].
  now destruct (Ascii.eqb l c).
Qed.

Lemma text_nonempty (cs : list ascii) : cs <> [] -> text cs <> "".
Proof. destruct cs; [congruence | discriminate]. Qed.

Lemma append_nonempty_r (s t : string) : t <> "" -> s ++ t <> "".
Proof. destruct s; simpl; [auto | discriminate]. Qed.

(** ** The state engine *)

Lemma run_reachable (evs : list event) (s : CalculatorState) :
  reachable s -> reachable (run s evs).
Proof.
  revert s. induction evs as [|ev evs IH]; intros s H; simpl; [exact H|].
  apply IH. now constructor.
Qed.

Lemma entry_key_pending (s : CalculatorState) (ev : event) :
  entry_key ev = true ->
  previousValue (step s ev) = previousValue s /\
  operation (step s ev) = operation s.
Proof.
  destruct ev; simpl; try discriminate; intros _.
  - unfold inputDigit. destruct (waitingForOperand s); split; reflexivity.
  - unfold inputDecimal. destruct (waitingForOperand s);
      [|destruct (negb (includes (display s) "."))]; split; reflexivity.
  - unfold backspace. destruct (waitingForOperand s); split; reflexivity.
  - split; reflexivity.
  - split; reflexivity.
Qed.

Lemma entry_keys_pending (evs : list event) (s : CalculatorState) :
  forallb entry_key evs = true ->
  previousValue (run s evs) = previousValue s /\
  operation (run s evs) = operation s.
Proof.
  revert s. induction evs as [|ev evs IH]; intros s H; simpl in *.
  - split; reflexivity.
  - apply andb_true_iff in H as [Hev Hevs].
    destruct (IH (step s ev) Hevs) as [-> ->].
    now apply entry_key_pending.
Qed.

Lemma of_Z_0 : of_Z 0 = zero.
Proof. reflexivity. Qed.

(** Both handlers compute the pending operation as the table does. *)
Lemma performOperation_pending (next : Operation) (s : CalculatorState)
      (op : Op) (a : number) :
  previousValue s = Some a -> operation s = Some op ->
  performOperation next s =
  let result := apply op a (parseFloat (display s)) in
  {| display := toString result; previousValue := Some result;
     operation := next; waitingForOperand := true |}.
Proof.
  intros Hp Ho. unfold performOperation. rewrite Hp, Ho.
  destruct op; reflexivity.
Qed.

Lemma calculate_pending (s : CalculatorState) (op : Op) (a : number) :
  previousValue s = Some a -> operation s = Some op ->
  calculate s =
  {| display := toString (apply op a (parseFloat (display s)));
     previousValue := None; operation := None;
     waitingForOperand := true |}.
Proof.
  intros Hp Ho. unfold calculate. rewrite Hp, Ho.
  destruct op; reflexivity.
Qed.

(** C1.  From a state with no pending operand, entering [a], pressing
    an operator [op], entering [b] and pressing equals shows
    [toString (apply op a b)], where [a] and [b] are the numbers read
    from the display at the operator press and at the equals press. *)
Theorem operation_then_calculate
        (s0 : CalculatorState) (op : Op) (keys_a keys_b : list event) :
  previousValue s0 = None ->
  forallb entry_key keys_a = true ->
  forallb entry_key keys_b = true ->
  let sa := run s0 keys_a in
  let sb := run (performOperation (Some op) sa) keys_b in
  display (calculate sb) =
  toString (apply op (parseFloat (display sa)) (parseFloat (display sb))).
Proof.
  intros H0 Ha Hb sa sb.
  destruct (entry_keys_pending keys_a s0 Ha) as [Hpa _].
  destruct (entry_keys_pending keys_b (performOperation (Some op) sa) Hb)
    as [Hpb Hob].
  fold sb in Hpb, Hob. fold sa in Hpa. rewrite H0 in Hpa.
  assert (Hp : previousValue sb = Some (parseFloat (display sa))).
  { rewrite Hpb. unfold performOperation. now rewrite Hpa. }
  assert (Ho : operation sb = Some op) by (rewrite Hob; reflexivity).
  now rewrite (calculate_pending sb op _ Hp Ho).
Qed.

Lemma operation_then_calculate_witness :
  display
    (calculate
       (run (performOperation (Some Minus)
               (run initial [InputDigit d1; InputDigit d2]))
            [InputDigit d7; InputDecimal; InputDigit d5]))
  = toString (apply Minus (parseFloat "12") (parseFloat "7.5")).
Proof.
  exact (operation_then_calculate initial Minus
           [InputDigit d1; InputDigit d2]
           [InputDigit d7; InputDecimal; InputDigit d5]
           eq_refl eq_refl eq_refl).
Defined.

(** C2.  With a left operand and an operator pending, an operator press
    computes the pending operation on the left operand and the number
    on display, shows the result and keeps it as the new left operand;
    so "2", "+", "3", "+", "4", "=" ends with "9" on display. *)
Theorem chained_operators
        (next : Op) (s : CalculatorState) (op : Op) (a : number) :
  previousValue s = Some a -> operation s = Some op ->
  (let result := apply op a (parseFloat (display s)) in
   display (performOperation (Some next) s) = toString result /\
   previousValue (performOperation (Some next) s) = Some result /\
   operation (performOperation (Some next) s) = Some next /\
   waitingForOperand (performOperation (Some next) s) = true) /\
  display (run initial [InputDigit d2; PerformOperation Plus; InputDigit d3;
                        PerformOperation Plus; InputDigit d4; Calculate])
  = "9".
Proof.
  intros Hp Ho. split.
  - rewrite (performOperation_pending (Some next) s op a Hp Ho).
    cbn. repeat split.
  - vm_compute. reflexivity.
Qed.

Lemma chained_operators_witness :
  let s := run initial [InputDigit d2; PerformOperation Plus; InputDigit d3] in
  (display (performOperation (Some Times) s) = "5" /\
   previousValue (performOperation (Some Times) s) = Some (of_Z 5)) /\
  display (run initial [InputDigit d2; PerformOperation Plus; InputDigit d3;
                        PerformOperation Plus; InputDigit d4; Calculate])
  = "9".
Proof.
  pose proof (chained_operators Times
                (run initial [InputDigit d2; PerformOperation Plus;
                              InputDigit d3])
                Plus (of_Z 2) eq_refl eq_refl) as [(Hd & Hv & _) Hrun].
  cbv zeta. split; [split|].
  - rewrite Hd. vm_compute. reflexivity.
  - rewrite Hv. vm_compute. reflexivity.
  - exact Hrun.
Defined.

Lemma not_equal_zero_false (b : number) :
  strict_equal b zero = true -> strict_not_equal b (of_Z 0) = false.
Proof. unfold strict_not_equal, strict_equal. rewrite of_Z_0. now intros ->. Qed.

(** C3.  Dividing by zero gives the number 0, shown as "0", whichever
    handler performs the division and whatever the left operand is; so
    "5", divide, "0", "=" ends with "0" on display. *)
Theorem division_by_zero
        (s : CalculatorState) (a : number) (next : Op) :
  previousValue s = Some a -> operation s = Some Divide ->
  strict_equal (parseFloat (display s)) zero = true ->
  (display (calculate s) = "0" /\
   display (performOperation (Some next) s) = "0" /\
   previousValue (performOperation (Some next) s) = Some zero /\
   apply Divide a (parseFloat (display s)) = zero) /\
  display (run initial [InputDigit d5; PerformOperation Divide; InputDigit d0;
                        Calculate]) = "0".
Proof.
  intros Hp Ho Hz. split; [|vm_compute; reflexivity].
  unfold calculate, performOperation, apply. rewrite Hp, Ho.
  rewrite (not_equal_zero_false _ Hz).
  unfold strict_not_equal. unfold strict_equal in Hz. rewrite Hz.
  repeat split.
Qed.

Lemma division_by_zero_witness :
  let s := run initial [InputDigit d5; PerformOperation Divide; InputDigit d0] in
  display (calculate s) = "0" /\
  display (performOperation (Some Plus) s) = "0".
Proof.
  pose proof (division_by_zero
                (run initial [InputDigit d5; PerformOperation Divide;
                              InputDigit d0])
                (of_Z 5) Plus eq_refl eq_refl eq_refl) as [(Hc & Hd & _) _].
  cbv zeta. split; assumption.
Defined.

(** ** Typed operands *)

Lemma digit_key_digit (d : Digit) :
  exists c, digit_key d = text [c] /\ is_digit c = true.
Proof.
  destruct d;
    match goal with
    | |- exists c, String ?x EmptyString = _ /\ _ => exists x
    | |- exists c, digit_key ?k = _ /\ _ =>
        let v := eval cbv in (digit_key k) in
        match v with String ?x _ => exists x end
    end; split; reflexivity.
Qed.

Lemma unsigned_decimal_digit (c : ascii) :
  is_digit c = true -> unsigned_decimal (text [c]).
Proof.
  intros H. exists [c], []. repeat split.
  - constructor; [exact H | constructor].
  - discriminate.
  - constructor.
  - now left.
Qed.

Lemma unsigned_decimal_append (d : string) (c : ascii) :
  is_digit c = true -> unsigned_decimal d -> unsigned_decimal (d ++ text [c]).
Proof.
  intros Hc (i & f & Hi & Hne & Hf & [-> | ->]).
  - exists (i ++ [c])%list, []. repeat split.
    + apply Forall_app. split; [exact Hi|]. constructor; [exact Hc|constructor].
    + destruct i; discriminate.
    + constructor.
    + left. now rewrite text_app.
  - exists i, (f ++ [c])%list. repeat split; try assumption.
    + apply Forall_app. split; [exact Hf|]. constructor; [exact Hc|constructor].
    + right. rewrite <- text_app, <- app_assoc. reflexivity.
Qed.

Lemma removelast_digits (ds : list ascii) :
  all_digits ds -> all_digits (removelast ds).
Proof.
  intros H. rewrite removelast_firstn_len.
  now apply (split_digits _ ds).
Qed.

Lemma unsigned_decimal_init (d : string) :
  unsigned_decimal d -> String.length d <> 1%nat ->
  unsigned_decimal (slice d 0 (-1)).
Proof.
  intros (i & f & Hi & Hne & Hf & [-> | ->]) Hlen.
  - rewrite slice_text_init by assumption.
    rewrite text_length in Hlen.
    exists (removelast i), []. repeat split.
    + now apply removelast_digits.
    + destruct i as [|a [|b i]]; simpl in *; congruence.
    + constructor.
    + now left.
  - rewrite slice_text_init by (destruct i; discriminate).
    rewrite removelast_app by discriminate.
    destruct f as [|c f].
    + exists i, []. repeat split; try assumption.
      left. cbn [removelast]. now rewrite app_nil_r.
    + exists i, (removelast (c :: f)). repeat split; try assumption.
      * now apply removelast_digits.
      * right. reflexivity.
Qed.

Lemma typing_step (s : CalculatorState) (ev : event) :
  typing_key ev = true ->
  waitingForOperand s = false /\ unsigned_decimal (display s) ->
  waitingForOperand (step s ev) = false /\ unsigned_decimal (display (step s ev)).
Proof.
  intros Hk [Hw Hd]. destruct ev; try discriminate Hk; cbn [step].
  - destruct (digit_key_digit d) as (c & -> & Hc).
    unfold inputDigit. rewrite Hw. cbn [waitingForOperand display setDisplay].
    split; [exact Hw|].
    destruct (display s =? "0");
      [now apply unsigned_decimal_digit | now apply unsigned_decimal_append].
  - unfold inputDecimal. rewrite Hw.
    destruct (includes (display s) ".") eqn:Hi; cbn [negb];
      [split; assumption|].
    cbn [waitingForOperand display setDisplay]. split; [exact Hw|].
    destruct Hd as (i & f & Hi' & Hne & Hf & [E | E]); rewrite E in *.
    + exists i, []. repeat split; try assumption; [constructor|].
      right. now rewrite text_app.
    + now rewrite includes_point in Hi.
  - split; [reflexivity|]. now apply (unsigned_decimal_digit "0").
  - unfold backspace. rewrite Hw.
    cbn [waitingForOperand display setDisplay]. split; [exact Hw|].
    destruct (String.length (display s) =? 1)%nat eqn:E.
    + now apply (unsigned_decimal_digit "0").
    + apply unsigned_decimal_init; [exact Hd|]. now apply Nat.eqb_neq.
Qed.

Lemma typing_run (evs : list event) (s : CalculatorState) :
  forallb typing_key evs = true ->
  waitingForOperand s = false /\ unsigned_decimal (display s) ->
  waitingForOperand (run s evs) = false /\ unsigned_decimal (display (run s evs)).
Proof.
  revert s. induction evs as [|ev evs IH]; intros s Hk Hs; [exact Hs|].
  cbn [forallb] in Hk. apply andb_true_iff in Hk as [Hev Hevs].
  cbn [run fold_left]. apply (IH _ Hevs). now apply typing_step.
Qed.

Lemma unsigned_decimal_parses (d : string) :
  unsigned_decimal d ->
  isNaN (parseFloat d) = false /\
  ((String.length d <= 308)%nat -> is_finite (parseFloat d) = true).
Proof.
  intros (i & f & Hi & Hne & Hf & E).
  assert (Hi0 : (0 <= digits_value i)%Z) by now apply digits_value_nonneg.
  assert (Hil : (digits_value i < 10 ^ Z.of_nat (List.length i))%Z)
    by now apply digits_value_lt.
  destruct i as [|c i]; [congruence|].
  pose proof (Forall_inv Hi) as Hc.
  destruct E as [-> | ->]; rewrite parseFloat_text, text_length.
  - assert (P : parse_chars (c :: i)
                 = number_of_decimal (digits_value (c :: i)) 0).
    { rewrite (parse_chars_digit c i Hc). unfold read_literal.
      rewrite <- (app_nil_r (c :: i)).
      rewrite (unsigned_literal_integer (c :: i) [] Hi Hne I).
      now rewrite app_nil_r. }
    rewrite P.
    split; [apply number_of_decimal_not_NaN|]. intros Hlen.
    unfold number_of_decimal. change (pow_pos 10 0) with 1%Z.
    change (pow_pos 10 (- 0)) with 1%Z.
    apply round_ratio_finite; try lia.
    assert (10 ^ Z.of_nat (List.length (c :: i)) <= 10 ^ 308)%Z
      by (apply Z.pow_le_mono_r; lia).
    lia.
  - assert (P : parse_chars ((c :: i) ++ "."%char :: f)%list
                 = number_of_decimal (digits_value ((c :: i) ++ f)%list)
                                     (0 - Z.of_nat (List.length f))).
    { cbn [app]. rewrite (parse_chars_digit c _ Hc). unfold read_literal.
      change (c :: (i ++ "."%char :: f)%list)
        with ((c :: i) ++ "."%char :: f)%list.
      rewrite <- (app_nil_r f) at 1.
      now rewrite (unsigned_literal_fraction (c :: i) f [] Hi Hne Hf I). }
    rewrite P.
    split; [apply number_of_decimal_not_NaN|]. intros Hlen.
    rewrite length_app in Hlen. cbn [List.length] in Hlen.
    unfold number_of_decimal.
    assert (Hv : (0 <= digits_value ((c :: i) ++ f)%list)%Z).
    { apply digits_value_nonneg, Forall_app. now split. }
    rewrite digits_value_app in *.
    assert (Hf0 : (0 <= digits_value f)%Z) by now apply digits_value_nonneg.
    assert (Hfl : (digits_value f < 10 ^ Z.of_nat (List.length f))%Z)
      by now apply digits_value_lt.
    rewrite (pow_pos_nonpos 10 (0 - Z.of_nat (List.length f))) by lia.
    rewrite (pow_pos_nonneg 10 (- (0 - Z.of_nat (List.length f)))) by lia.
    replace (- (0 - Z.of_nat (List.length f)))%Z
      with (Z.of_nat (List.length f)) by lia.
    assert (0 < 10 ^ Z.of_nat (List.length f))%Z
      by (apply Z.pow_pos_nonneg; lia).
    assert (10 ^ Z.of_nat (List.length (c :: i)) <= 10 ^ 308)%Z
      by (apply Z.pow_le_mono_r; cbn [List.length]; lia).
    apply round_ratio_finite; try lia. nia.
Qed.

(** While only digits, the point, backspace and clear are used, display
    is an unsigned decimal: [parseFloat] reads a number from it, never
    NaN, and a finite one as long as display has at most 308
    characters. *)
Lemma typed_operand_parses (evs : list event) :
  forallb typing_key evs = true ->
  let s := run initial evs in
  unsigned_decimal (display s) /\
  isNaN (parseFloat (display s)) = false /\
  ((String.length (display s) <= 308)%nat ->
   is_finite (parseFloat (display s)) = true).
Proof.
  intros Hk s.
  assert (H0 : waitingForOperand initial = false /\
               unsigned_decimal (display initial)).
  { split; [reflexivity|]. now apply (unsigned_decimal_digit "0"). }
  destruct (typing_run evs initial Hk H0) as [_ Hd]. fold s in Hd.
  split; [exact Hd|]. now apply unsigned_decimal_parses.
Qed.

(** ** Pending operations *)

Lemma pending_step (s : CalculatorState) (ev : event) :
  (operation s = None <-> previousValue s = None) ->
  (operation (step s ev) = None <-> previousValue (step s ev) = None).
Proof.
  intros IH. destruct ev; cbn [step].
  - unfold inputDigit. destruct (waitingForOperand s); exact IH.
  - unfold inputDecimal. destruct (waitingForOperand s);
      [|destruct (negb (includes (display s) "."))]; exact IH.
  - split; reflexivity.
  - unfold backspace. destruct (waitingForOperand s); exact IH.
  - exact IH.
  - exact IH.
  - unfold performOperation.
    destruct (previousValue s) as [a|] eqn:Hp.
    + destruct (operation s) as [o|] eqn:Ho; cbn; rewrite ?Hp;
        split; intro; discriminate.
    + cbn. split; intro; discriminate.
  - unfold calculate. destruct s as [d p o w]. cbn in *.
    destruct o, p; cbn; try exact IH; split; reflexivity.
Qed.

(** C5.  In every reachable state the pending operator is absent
    exactly when the left operand is absent, and every handler keeps
    it so: the first operator press sets both, [clear] clears both, and
    [calculate] clears both when it acts. *)
Theorem operation_iff_previousValue (s : CalculatorState) :
  reachable s ->
  (operation s = None <-> previousValue s = None) /\
  (forall ev,
     operation (step s ev) = None <-> previousValue (step s ev) = None) /\
  (forall op,
     previousValue s = None ->
     operation (performOperation (Some op) s) = Some op /\
     previousValue (performOperation (Some op) s)
     = Some (parseFloat (display s))) /\
  (operation (clear s) = None /\ previousValue (clear s) = None) /\
  (calculate s = s \/
   operation (calculate s) = None /\ previousValue (calculate s) = None).
Proof.
  intros Hr.
  assert (Inv : operation s = None <-> previousValue s = None).
  { induction Hr as [|s ev _ IH]; [split; reflexivity|].
    now apply pending_step. }
  split; [exact Inv|]. split; [intros ev; now apply pending_step|].
  split; [|split; [split; reflexivity|]].
  - intros op Hp. unfold performOperation. rewrite Hp. split; reflexivity.
  - unfold calculate.
    destruct (operation s); [|now left].
    destruct (previousValue s); [right; split; reflexivity | now left].
Qed.

Lemma operation_iff_previousValue_witness :
  let s := run initial [InputDigit d2; PerformOperation Plus; InputDigit d3] in
  (operation s = None <-> previousValue s = None) /\
  operation (calculate s) = None /\ previousValue (calculate s) = None.
Proof.
  pose proof (operation_iff_previousValue _
                (run_reachable [InputDigit d2; PerformOperation Plus;
                                InputDigit d3]
                               initial reachable_initial))
    as (Inv & _ & _ & _ & _).
  cbv zeta. split; [exact Inv|]. split; reflexivity.
Defined.

(** C6.  [calculate] leaves the whole state unchanged when no operator
    or no left operand is pending, and [backspace] leaves it unchanged
    while a new operand is awaited; both are total functions, there is
    no error to signal. *)
Theorem guards_are_no_ops (s : CalculatorState) :
  (operation s = None \/ previousValue s = None -> calculate s = s) /\
  (waitingForOperand s = true -> backspace s = s).
Proof.
  split.
  - unfold calculate. intros [H|H]; rewrite H; [reflexivity|].
    now destruct (operation s).
  - unfold backspace. now intros ->.
Qed.

Lemma guards_are_no_ops_witness :
  calculate (run initial [InputDigit d7]) = run initial [InputDigit d7] /\
  backspace (run initial [InputDigit d7; PerformOperation Plus])
  = run initial [InputDigit d7; PerformOperation Plus].
Proof.
  split.
  - apply (proj1 (guards_are_no_ops (run initial [InputDigit d7]))).
    left. reflexivity.
  - apply (proj2 (guards_are_no_ops
                    (run initial [InputDigit d7; PerformOperation Plus]))).
    reflexivity.
Defined.

(** C7.  [inputDecimal] twice in a row gives the state that a single
    [inputDecimal] gives. *)
Theorem inputDecimal_idempotent (s : CalculatorState) :
  inputDecimal (inputDecimal s) = inputDecimal s.
Proof.
  destruct s as [d p o w]. unfold inputDecimal.
  cbn [waitingForOperand display].
  destruct w; [reflexivity|].
  destruct (includes d ".") eqn:Hi; cbn [negb].
  - cbn [waitingForOperand display]. now rewrite Hi.
  - cbn [waitingForOperand display setDisplay].
    now rewrite includes_app_r.
Qed.

(** ** The sign toggle *)

Lemma toggleSign_display (s : CalculatorState) :
  display (toggleSign s) = toString (opp (parseFloat (display s))).
Proof.
  unfold toggleSign. cbn [display setDisplay].
  now rewrite (mul_minus_one _ (parseFloat_valid (display s))).
Qed.

Lemma same_value_zero_read_back (x : number) :
  same_value_zero (read_back x) x = true.
Proof.
  destruct x as [a|a| |a m e]; try reflexivity.
  - destruct a; reflexivity.
  - apply (same_value_refl (S754_finite a m e)).
Qed.

Lemma toString_opp_read_back_opp (x : number) :
  toString (opp (read_back (opp x))) = toString x.
Proof.
  destruct x as [a|a| |a m e]; cbn [opp SFopp read_back];
    rewrite ?negb_involutive; reflexivity.
Qed.

(** C8.  One [toggleSign] shows the rendering of the negated number on
    display; two show the rendering of the number that was on display,
    which reads back as the same numeric value ("5" gives "-5" and then
    "5" again, and "0" stays "0"). *)
Theorem toggleSign_twice (s : CalculatorState) :
  let v := parseFloat (display s) in
  (display (toggleSign s) = toString (opp v) /\
   same_value_zero (parseFloat (display (toggleSign s))) (opp v) = true) /\
  (display (toggleSign (toggleSign s)) = toString v /\
   same_value_zero (parseFloat (display (toggleSign (toggleSign s)))) v
   = true) /\
  (display (toggleSign (setDisplay "5" s)) = "-5" /\
   display (toggleSign (toggleSign (setDisplay "5" s))) = "5" /\
   display (toggleSign (setDisplay "0" s)) = "0").
Proof.
  intros v.
  assert (V : valid v) by apply parseFloat_valid.
  assert (E1 : display (toggleSign s) = toString (opp v))
    by apply toggleSign_display.
  assert (E2 : display (toggleSign (toggleSign s)) = toString v).
  { rewrite toggleSign_display, E1.
    rewrite (parseFloat_toString _ (opp_valid v V)).
    apply toString_opp_read_back_opp. }
  split; [split|split; [split|]].
  - exact E1.
  - rewrite E1, (parseFloat_toString _ (opp_valid v V)).
    apply same_value_zero_read_back.
  - exact E2.
  - rewrite E2, (parseFloat_toString _ V). apply same_value_zero_read_back.
  - repeat split; vm_compute; reflexivity.
Qed.

(** ** The formatter on its own output *)

Lemma digit_not_point (l : ascii) : is_digit l = true -> Ascii.eqb l "." = false.
Proof. destruct l as [[] [] [] [] [] [] [] []]; try discriminate; reflexivity. Qed.

Lemma round_fixed_nonneg (s p : Z) : (0 < s)%Z -> (0 <= round_fixed s p)%Z.
Proof.
  intros H. unfold round_fixed, maximumFractionDigits.
  destruct (Z.leb_spec 0 (p + 10)).
  - assert (0 < 10 ^ (p + 10))%Z by (apply Z.pow_pos_nonneg; lia). nia.
  - assert (0 < 10 ^ (- (p + 10)))%Z by (apply Z.pow_pos_nonneg; lia).
    apply Z.div_pos; lia.
Qed.

Lemma parse_signed_literal (s : bool) (cs : list ascii) (l : literal) (c : ascii)
      (r : list ascii) :
  cs = (c :: r)%list -> is_digit c = true -> unsigned_literal cs = Some l ->
  parse_chars (sign_chars s ++ cs)%list
  = if s then opp (number_of_literal l) else number_of_literal l.
Proof.
  intros E Hc Hl. destruct s; cbn [sign_chars app].
  - now rewrite parse_chars_minus, Hl.
  - rewrite E, (parse_chars_digit c r Hc). unfold read_literal.
    now rewrite <- E, Hl.
Qed.

Lemma in_sign_chars (s : bool) (c : ascii) (cs : list ascii) :
  c <> "-"%char -> In c (sign_chars s ++ cs)%list -> In c cs.
Proof.
  intros N H. destruct s; cbn [sign_chars app] in H; [|exact H].
  destruct H as [E|H]; [congruence | exact H].
Qed.

(** The formatter leaves the text it prints for a number unchanged,
    unless that text has a grouping comma. *)
Lemma toLocaleString_fixed_point (z : number) :
  valid z -> includes (toLocaleString z) "," = false ->
  formatDisplay (toLocaleString z) = toLocaleString z.
Proof.
  intros V Hc. destruct z as [s|s| |s m e].
  - destruct s; vm_compute; reflexivity.
  - destruct s; vm_compute; reflexivity.
  - vm_compute. reflexivity.
  - assert (V' : valid (S754_finite false m e)) by exact V.
    destruct (shortest_decimal_rounds m e V') as [Hd _].
    unfold toLocaleString in *.
    destruct (shortest_decimal m e) as [d p]. cbn [fst snd] in Hd.
    pose proof (round_fixed_nonneg d p Hd) as Hn.
    fold (sign_chars s) in *.
    set (n := round_fixed d p) in *. clearbody n.
    destruct (Z.eq_dec n 0) as [->|Nz].
    { destruct s; vm_compute; reflexivity. }
    apply includes_text_false in Hc.
    assert (Hc' : ~ In ","%char (fixed_digits n)).
    { intros H. apply Hc. apply in_or_app. now right. }
    destruct (fixed_digits_reads n ltac:(lia) Hc')
      as (s' & p' & Hl & Hs' & Hp' & En & Hlt & (c & r & Ecr & Hdc)
          & (a & l & Eal & Hdl & Hzero)).
    destruct (number_of_decimal_positive s' p' Hs' Hp' ltac:(lia))
      as (m' & e' & Ez).
    assert (Vz : valid (S754_finite false m' e')).
    { rewrite <- Ez. apply number_of_decimal_valid. lia. }
    assert (P : parseFloat (text (sign_chars s ++ fixed_digits n)%list)
                = S754_finite s m' e').
    { rewrite parseFloat_text.
      rewrite (parse_signed_literal s _ _ c r Ecr Hdc Hl).
      cbn [number_of_literal]. rewrite Ez. now destruct s. }
    assert (Elast : (sign_chars s ++ fixed_digits n
                     = (sign_chars s ++ a) ++ [l])%list)
      by (rewrite Eal; apply app_assoc).
    assert (G1 : endsWith (text (sign_chars s ++ fixed_digits n)%list) "."
                 = false).
    { rewrite Elast, endsWith_text_last. now apply digit_not_point. }
    assert (G2 : includes (text (sign_chars s ++ fixed_digits n)%list) "."
                 && endsWith (text (sign_chars s ++ fixed_digits n)%list) "0"
                 = false).
    { destruct (includes _ ".") eqn:Hi; [|reflexivity]. cbn [andb].
      rewrite Elast, endsWith_text_last.
      apply Hzero. apply (in_sign_chars s); [discriminate|].
      destruct (in_dec ascii_dec "."%char
                       (sign_chars s ++ fixed_digits n)%list) as [Y|N];
        [exact Y|].
      apply includes_text_false in N. congruence. }
    unfold formatDisplay. rewrite P, G1, G2. cbn [isNaN].
    destruct (shortest_decimal_rounds m' e' Vz) as [Hd' Hv'].
    unfold toLocaleString.
    destruct (shortest_decimal m' e') as [d2 p2]. cbn [fst snd] in *.
    fold (sign_chars s).
    now rewrite (round_fixed_same_value s' p' n d2 p2 m' e'
                   Hs' Hp' En Hlt Hd' Ez Hv').
Qed.

(** C9, as the code has it.  Formatting is idempotent on every display
    string whose formatted text has no grouping comma, whether or not
    the string ends in a decimal point. *)
Theorem formatDisplay_idempotent_ungrouped (x : string) :
  includes (formatDisplay x) "," = false ->
  formatDisplay (formatDisplay x) = formatDisplay x.
Proof.
  intros Hc.
  assert (E : formatDisplay x = x \/
              formatDisplay x = toLocaleString (parseFloat x)).
  { unfold formatDisplay.
    destruct (isNaN (parseFloat x)); [now left|].
    destruct (endsWith x "."); [now left|].
    destruct (includes x "." && endsWith x "0"); [now left | now right]. }
  destruct E as [E|E].
  - now rewrite !E.
  - rewrite E in *. apply toLocaleString_fixed_point; [|exact Hc].
    apply parseFloat_valid.
Qed.

Lemma formatDisplay_idempotent_ungrouped_witness :
  formatDisplay (formatDisplay "-12.5") = formatDisplay "-12.5".
Proof.
  apply (formatDisplay_idempotent_ungrouped "-12.5").
  vm_compute. reflexivity.
Defined.

(** C9 as stated fails: "1000" is shown as "1,000", and formatting
    "1,000" reads the digits before the comma and gives "1". *)
Lemma formatDisplay_regroups_thousands :
  ~ (forall x : string,
       endsWith x "." = false ->
       formatDisplay (formatDisplay x) = formatDisplay x).
Proof.
  intros H. specialize (H "1000" eq_refl).
  vm_compute in H. discriminate H.
Qed.

(** ** The display is never empty *)

Lemma toString_nonempty (x : number) : toString x <> "".
Proof. apply text_nonempty, number_chars_nonempty. Qed.

Lemma digit_key_nonempty (d : Digit) : digit_key d <> "".
Proof. destruct d; discriminate. Qed.

Lemma backspace_nonempty (s : CalculatorState) :
  display s <> "" -> display (backspace s) <> "".
Proof.
  intros H. unfold backspace.
  destruct (waitingForOperand s); [exact H|]. cbn [display setDisplay].
  destruct (String.length (display s) =? 1)%nat eqn:E; [discriminate|].
  apply slice_init_nonempty. apply Nat.eqb_neq in E.
  destruct (display s) as [|c [|c' r]]; simpl in *; try congruence; lia.
Qed.

Lemma step_nonempty (s : CalculatorState) (ev : event) :
  display s <> "" -> display (step s ev) <> "".
Proof.
  intros H. destruct ev; cbn [step].
  - unfold inputDigit. pose proof (digit_key_nonempty d).
    destruct (waitingForOperand s); cbn; [assumption|].
    destruct (display s =? "0"); [assumption|].
    now apply append_nonempty_r.
  - unfold inputDecimal. destruct (waitingForOperand s); [discriminate|].
    destruct (negb _); [|exact H]. cbn. now apply append_nonempty_r.
  - discriminate.
  - now apply backspace_nonempty.
  - apply toString_nonempty.
  - apply toString_nonempty.
  - unfold performOperation. destruct (previousValue s); [|exact H].
    destruct (operation s); [|exact H]. cbn. apply toString_nonempty.
  - unfold calculate. destruct (operation s); [|exact H].
    destruct (previousValue s); [|exact H]. cbn. apply toString_nonempty.
Qed.

(** C10.  The display of a reachable state is never the empty string:
    every handler keeps it non-empty; [backspace] puts "0" in place of
    an operand erased to nothing, and [clear] resets it to "0". *)
Theorem display_nonempty (s : CalculatorState) :
  reachable s ->
  display s <> "" /\
  (forall ev, display (step s ev) <> "") /\
  (waitingForOperand s = false -> String.length (display s) = 1%nat ->
   display (backspace s) = "0") /\
  display (clear s) = "0".
Proof.
  intros Hr.
  assert (H : display s <> "").
  { induction Hr as [|s ev _ IH]; [discriminate | now apply step_nonempty]. }
  repeat split; try assumption.
  - intros ev. now apply step_nonempty.
  - intros Hw Hl. unfold backspace. rewrite Hw. cbn. now rewrite Hl.
Qed.

Lemma display_nonempty_witness :
  let s := run initial [InputDigit d7; Backspace] in
  display s <> "" /\ display (backspace (run initial [InputDigit d7])) = "0".
Proof.
  cbv zeta. split.
  - exact (proj1 (display_nonempty _
             (run_reachable [InputDigit d7; Backspace] initial
                            reachable_initial))).
  - apply (display_nonempty (run initial [InputDigit d7])
             (run_reachable [InputDigit d7] initial reachable_initial));
      reflexivity.
Defined.

(** ** The display reads as a number *)























(** Results leave the finite numbers too: squaring 9 nine times
    overflows, and subtracting the result from itself gives NaN. *)
Example results_overflow :
  let squarings :=
    List.concat (repeat [PerformOperation Times; Calculate] 9) in
  display (run initial (InputDigit d9 :: squarings)) = "Infinity" /\
  display (run initial (InputDigit d9 :: squarings
                        ++ [PerformOperation Minus; Calculate])%list) = "NaN".
Proof. split; vm_compute; reflexivity. Qed.

(** Each of the two conditions is forced: an event out of range leaves
    a display that neither reads as a finite number nor ends in a
    point. *)
Lemma out_of_range_unreadable (s : CalculatorState) (ev : event) :
  in_range s ev = false ->
  is_finite (parseFloat (display (step s ev))) = false /\
  endsWith (display (step s ev)) "." = false.
Proof.
  unfold in_range. intros R. apply andb_false_iff in R as [R|R].
  - apply negb_false_iff in R.
    destruct ev; try discriminate R. cbn [erases_to_sign step] in *.
    apply andb_true_iff in R as [R P]. apply andb_true_iff in R as [W L].
    unfold backspace. apply negb_true_iff in W. rewrite W.
    cbn [display setDisplay].
    destruct (display s) as [|a [|b [|c r]]]; try discriminate L.
    cbn [String.prefix] in P.
    destruct (ascii_dec "-" a) as [<-|]; [|discriminate P].
    split; reflexivity.
  - apply negb_false_iff in R. unfold not_finite_text in R.
    apply orb_true_iff in R as [R|R]; [apply orb_true_iff in R as [R|R]|];
      apply String.eqb_eq in R; rewrite R; split; reflexivity.
Qed.

(** The bound on the finite case is forced too: an operand of 309
    digits, and digits typed after the exponent of a result, read as
    Infinity although every event is in range. *)
Example typed_overflow :
  let keys := repeat (InputDigit d9) 309 in
  in_range_run initial keys = true /\
  parseFloat (display (run initial keys)) = Infinity.
Proof. split; vm_compute; reflexivity. Qed.

Example exponent_overflow :
  let keys :=
    (InputDigit d1 :: repeat (InputDigit d0) 30
     ++ [ToggleSign; ToggleSign; InputDigit d9])%list in
  in_range_run initial keys = true /\
  display (run initial keys) = "1e+309" /\
  parseFloat (display (run initial keys)) = Infinity.
Proof. repeat split; vm_compute; reflexivity. Qed.

(** ** Typing an operand *)

Lemma text_inj (a b : list ascii) : text a = text b -> a = b.
Proof.
  intros H. apply (f_equal chars) in H. unfold chars, text in H.
  now rewrite !list_ascii_of_string_of_list_ascii in H.
Qed.

Lemma chars_text (cs : list ascii) : chars (text cs) = cs.
Proof. apply list_ascii_of_string_of_list_ascii. Qed.

Lemma text_chars (s : string) : text (chars s) = s.
Proof. apply string_of_list_ascii_of_string. Qed.

Lemma chars_app (a b : string) : chars (a ++ b) = (chars a ++ chars b)%list.
Proof.
  rewrite <- (text_chars a), <- (text_chars b), <- text_app at 1.
  apply chars_text.
Qed.

Lemma length_append (a b : string) :
  String.length (a ++ b) = (String.length a + String.length b)%nat.
Proof. induction a as [|c a IH]; [reflexivity|]. cbn. now rewrite IH. Qed.

Lemma slice_app_last (s : string) (c : ascii) :
  slice (s ++ String c "") 0 (-1) = s.
Proof.
  rewrite <- (text_chars s) at 1.
  change (String c "") with (text [c]). rewrite <- text_app.
  rewrite slice_text_init by (now destruct (chars s)).
  rewrite removelast_last. apply text_chars.
Qed.

Lemma decimal_digits_zero (n : Z) :
  0 <= n -> text (decimal_digits n) = "0"%string -> n = 0.
Proof.
  intros Hn H. change "0"%string with (text ["0"%char]) in H.
  apply text_inj in H.
  destruct (decimal_digits_spec n Hn) as [_ V]. rewrite H in V.
  symmetry. exact V.
Qed.

Lemma digit_key_number (d : Digit) :
  digit_key d = text [digit_char (digit_number d)].
Proof. destruct d; reflexivity. Qed.

Lemma digit_key_char (d : Digit) : exists c, digit_key d = String c "".
Proof. destruct d; eexists; reflexivity. Qed.

(** Digits typed after a number already on display. *)
Lemma typed_digits_append (ds : list Digit) (s : CalculatorState) (n : Z) :
  (0 <= n)%Z ->
  waitingForOperand s = false ->
  display s = text (decimal_digits n) ->
  let s' := run s (map InputDigit ds) in
  let n' := fold_left (fun a d => 10 * a + digit_number d)%Z ds n in
  s' = setDisplay (text (decimal_digits n')) s.
Proof.
  revert s n. induction ds as [|d ds IH]; intros s n Hn Hw Hd; cbn zeta.
  - cbn [map run fold_left]. rewrite <- Hd. now destruct s.
  - cbn [map run fold_left]. fold (run (step s (InputDigit d)) (map InputDigit ds)).
    pose proof (digit_number_range d) as R.
    assert (E : step s (InputDigit d) =
                setDisplay (text (decimal_digits (10 * n + digit_number d))) s).
    { cbn [step]. unfold inputDigit. rewrite Hw, Hd. f_equal.
      destruct (String.eqb_spec (text (decimal_digits n)) "0") as [Z0|NZ].
      - apply decimal_digits_zero in Z0; [|exact Hn]. subst n.
        cbn [Z.mul Z.add]. rewrite decimal_digits_digit. apply digit_key_number.
      - assert (0 < n)%Z.
        { destruct (Z.eq_dec n 0) as [->|]; [now contradiction NZ | lia]. }
        rewrite decimal_digits_snoc by lia.
        rewrite text_app, digit_key_number. reflexivity. }
    rewrite E.
    rewrite (IH (setDisplay (text (decimal_digits (10 * n + digit_number d))) s)
                (10 * n + digit_number d)%Z); [reflexivity|lia|exact Hw|reflexivity].
Qed.

Lemma parseFloat_decimal_digits (n : Z) :
  (0 <= n)%Z -> parseFloat (text (decimal_digits n)) = of_Z n.
Proof.
  intros Hn. rewrite parseFloat_text, of_Z_nonneg by exact Hn.
  destruct (decimal_digits_spec n Hn) as [D V].
  pose proof (decimal_digits_nonempty n) as NE.
  destruct (decimal_digits n) as [|c r] eqn:E; [congruence|].
  rewrite parse_chars_digit by (now inversion D).
  unfold read_literal. rewrite <- (app_nil_r (c :: r)).
  rewrite (unsigned_literal_integer (c :: r) [] D NE I).
  cbn [number_of_literal exponent_part]. now rewrite V.
Qed.

Lemma typed_digits_state (s : CalculatorState) (ds : list Digit) :
  ds <> [] ->
  waitingForOperand s = true \/ display s = "0" ->
  run s (map InputDigit ds) =
  setDisplay (text (decimal_digits (digits_number ds)))
             (setWaitingForOperand false s).
Proof.
  intros Hne Hs.
  destruct ds as [|d ds]; [congruence|].
  pose proof (digit_number_range d) as R.
  assert (E : step s (InputDigit d) =
              setWaitingForOperand false
                (setDisplay (text (decimal_digits (digit_number d))) s)).
  { cbn [step]. unfold inputDigit.
    rewrite decimal_digits_digit, <- digit_key_number.
    destruct (waitingForOperand s) eqn:W; [reflexivity|].
    destruct Hs as [Hs|Hs]; [discriminate|]. rewrite Hs. cbn.
    destruct s; cbn in *. now subst. }
  cbn [map run fold_left].
  fold (run (step s (InputDigit d)) (map InputDigit ds)). rewrite E.
  rewrite (typed_digits_append ds _ (digit_number d));
    [reflexivity | lia | reflexivity | reflexivity].
Qed.

(** Whole numbers up to [2 ^ 53] are binary64 values: their number
    value is exact. *)
Lemma of_Z_exactly (n : Z) : (0 <= n <= 2 ^ 53)%Z -> is_exactly (of_Z n) n.
Proof.
  intros Hn. rewrite of_Z_nonneg by lia.
  destruct (Z.eq_dec n 0) as [->|N0]; [reflexivity|].
  destruct (Z.eq_dec n (2 ^ 53)) as [->|N53]; [vm_compute; reflexivity|].
  destruct (Z.lt_ge_cases n (2 ^ 52)) as [L|G].
  - destruct (integer_value n ltac:(lia)) as (m & e & V & He & Em).
    rewrite V. cbn [is_exactly]. unfold pow_pos.
    rewrite Z.max_l, Z.max_r by lia. rewrite Em. change (2 ^ 0)%Z with 1%Z. lia.
  - destruct n as [|m|m]; try lia.
    assert (V : valid (S754_finite false m 0))
      by (apply valid_finite_intro; lia).
    pose proof (round_ratio_exact m 0 V) as R.
    unfold number_of_decimal.
    change (pow_pos 10 0) with 1%Z. change (pow_pos 10 (- 0)) with 1%Z.
    change (pow_pos 2 0) with 1%Z in R. change (pow_pos 2 (- 0)) with 1%Z in R.
    rewrite R. reflexivity.
Qed.

(** X1.  Digit keys typed into a fresh operand (one is awaited, or
    display is "0") leave the digits of the number they spell on
    display, without leading zeros; [parseFloat] reads from it the
    number value of that whole number, [of_Z], which rounds it to
    binary64 and is exactly the number spelled as long as that is at
    most [2 ^ 53]; nothing else of the state changes but the awaiting
    flag. *)
Theorem typed_digits (s : CalculatorState) (ds : list Digit) :
  ds <> [] ->
  waitingForOperand s = true \/ display s = "0" ->
  let s' := run s (map InputDigit ds) in
  let n := digits_number ds in
  display s' = text (decimal_digits n) /\
  parseFloat (display s') = of_Z n /\
  ((n <= 2 ^ 53)%Z -> is_exactly (parseFloat (display s')) n) /\
  waitingForOperand s' = false /\
  previousValue s' = previousValue s /\
  operation s' = operation s.
Proof.
  intros Hne Hs s' n. unfold s'.
  rewrite (typed_digits_state s ds Hne Hs). fold n.
  cbn [display setDisplay setWaitingForOperand previousValue
               operation waitingForOperand].
  pose proof (digits_number_nonneg ds) as N0. fold n in N0.
  rewrite (parseFloat_decimal_digits n N0).
  repeat split. intros Hn. apply of_Z_exactly. lia.
Qed.

Lemma typed_digits_witness :
  display (run initial (map InputDigit [d0; d0; d4; d2])) = "42" /\
  parseFloat (display (run initial (map InputDigit [d0; d0; d4; d2])))
  = of_Z 42 /\
  is_exactly
    (parseFloat (display (run initial (map InputDigit [d0; d0; d4; d2])))) 42.
Proof.
  pose proof (typed_digits initial [d0; d0; d4; d2]
                ltac:(discriminate) (or_intror eq_refl)) as (D & P & E & _).
  split; [exact D | split; [exact P | apply E; vm_compute; discriminate]].
Defined.

(** Beyond [2 ^ 53] the number read is the nearest binary64 value, not
    always the number spelled. *)
Example typed_digits_rounded :
  let ds := [d9; d0; d0; d7; d1; d9; d9; d2; d5; d4; d7; d4; d0; d9; d9; d3] in
  digits_number ds = (2 ^ 53 + 1)%Z /\
  parseFloat (display (run initial (map InputDigit ds))) = of_Z (2 ^ 53).
Proof. split; vm_compute; reflexivity. Qed.

Lemma typed_fraction_append (fs : list Digit) (s : CalculatorState)
      (i f : list ascii) :
  waitingForOperand s = false ->
  display s = text (i ++ "."%char :: f) ->
  run s (map InputDigit fs)
  = setDisplay (text (i ++ "."%char :: f ++ digit_chars fs)) s.
Proof.
  revert s f. induction fs as [|d fs IH]; intros s f W D.
  - cbn [map run fold_left digit_chars]. rewrite app_nil_r, <- D.
    now destruct s.
  - cbn [map run fold_left].
    fold (run (step s (InputDigit d)) (map InputDigit fs)).
    assert (E : step s (InputDigit d)
                = setDisplay (text (i ++ "."%char :: f
                                      ++ [digit_char (digit_number d)])) s).
    { cbn [step]. unfold inputDigit. rewrite W, D.
      destruct (String.eqb_spec (text (i ++ "."%char :: f)) "0") as [Z0|_].
      - change "0" with (text ["0"%char]) in Z0. apply text_inj in Z0.
        assert (In "."%char ["0"%char])
          by (rewrite <- Z0; apply in_or_app; right; now left).
        cbn in H. destruct H as [H|[]]. discriminate H.
      - rewrite digit_key_number, <- text_app. f_equal.
        rewrite <- app_assoc. reflexivity. }
    rewrite E.
    rewrite (IH (setDisplay (text (i ++ "."%char :: f
                                     ++ [digit_char (digit_number d)])) s)
                (f ++ [digit_char (digit_number d)])%list W eq_refl).
    cbn [digit_chars map]. fold (digit_chars fs).
    rewrite <- app_assoc. reflexivity.
Qed.

Lemma typed_point_state (s : CalculatorState) (ds : list Digit) :
  waitingForOperand s = true \/ display s = "0" ->
  run s (map InputDigit ds ++ [InputDecimal])
  = setDisplay (text (decimal_digits (digits_number ds) ++ ["."%char]))
               (setWaitingForOperand false s).
Proof.
  intros Hs. unfold run. rewrite fold_left_app. fold (run s (map InputDigit ds)).
  cbn [fold_left step].
  destruct ds as [|d ds].
  - cbn [map run fold_left]. unfold inputDecimal.
    destruct (waitingForOperand s) eqn:W; [reflexivity|].
    destruct Hs as [Hs|Hs]; [discriminate|]. rewrite Hs. cbn.
    destruct s; cbn in *. now subst.
  - rewrite (typed_digits_state s (d :: ds) ltac:(discriminate) Hs).
    unfold inputDecimal.
    cbn [waitingForOperand display setDisplay setWaitingForOperand].
    assert (I : includes (text (decimal_digits (digits_number (d :: ds)))) "."
                = false).
    { apply includes_text_false, digits_have_no_point.
      apply decimal_digits_spec, digits_number_nonneg. }
    rewrite I. cbn [negb]. cbn [setDisplay display previousValue operation
                                waitingForOperand].
    now rewrite text_app.
Qed.

Lemma typed_decimal_state (s : CalculatorState) (ds fs : list Digit) :
  waitingForOperand s = true \/ display s = "0" ->
  run s (map InputDigit ds ++ InputDecimal :: map InputDigit fs)
  = setDisplay
      (text (decimal_digits (digits_number ds) ++ "."%char :: digit_chars fs))
      (setWaitingForOperand false s).
Proof.
  intros Hs.
  change (InputDecimal :: map InputDigit fs)
    with ([InputDecimal] ++ map InputDigit fs)%list.
  rewrite app_assoc. unfold run at 1. rewrite fold_left_app.
  fold (run s (map InputDigit ds ++ [InputDecimal])).
  rewrite (typed_point_state s ds Hs).
  match goal with
  | |- fold_left step ?l ?s0 = ?r => change (run s0 l = r)
  end.
  rewrite (typed_fraction_append fs _ (decimal_digits (digits_number ds)) []);
    reflexivity.
Qed.

(** X2.  Digit keys, the point, and further digit keys typed into a
    fresh operand leave the integer digits without leading zeros, the
    point and the fraction digits as typed on display; [parseFloat]
    reads the number of that decimal from it. *)
Theorem typed_decimal (s : CalculatorState) (ds fs : list Digit) :
  waitingForOperand s = true \/ display s = "0" ->
  let s' := run s (map InputDigit ds ++ InputDecimal :: map InputDigit fs) in
  display s'
  = text (decimal_digits (digits_number ds) ++ "."%char :: digit_chars fs) /\
  parseFloat (display s')
  = number_of_decimal (digits_number (ds ++ fs))
                      (- Z.of_nat (List.length fs)).
Proof.
  intros Hs s'. unfold s'. rewrite (typed_decimal_state s ds fs Hs).
  cbn [display setDisplay]. split; [reflexivity|].
  rewrite parseFloat_text.
  pose proof (digits_number_nonneg ds) as N.
  destruct (decimal_digits_spec _ N) as [D V].
  pose proof (decimal_digits_nonempty (digits_number ds)) as NE.
  pose proof (unsigned_literal_fraction (decimal_digits (digits_number ds))
                (digit_chars fs) [] D NE (digit_chars_digits fs) I) as U.
  rewrite app_nil_r in U.
  destruct (decimal_digits (digits_number ds)) as [|c r] eqn:Ed; [congruence|].
  cbn [app]. rewrite parse_chars_digit by exact (Forall_inv D).
  unfold read_literal.
  change (c :: r ++ "."%char :: digit_chars fs)%list
    with ((c :: r) ++ "."%char :: digit_chars fs)%list.
  rewrite U. cbn [number_of_literal exponent_part].
  rewrite digits_value_digit_chars, V.
  unfold digit_chars. rewrite length_map.
  unfold digits_number. rewrite fold_left_app. reflexivity.
Qed.

Lemma typed_decimal_witness :
  display (run initial [InputDigit d1; InputDigit d2; InputDecimal;
                        InputDigit d5; InputDigit d0]) = "12.50" /\
  parseFloat (display (run initial [InputDigit d1; InputDigit d2; InputDecimal;
                                    InputDigit d5; InputDigit d0]))
  = number_of_decimal 1250 (-2).
Proof.
  exact (typed_decimal initial [d1; d2] [d5; d0] (or_intror eq_refl)).
Defined.

Lemma reachable_display_nonempty (s : CalculatorState) :
  reachable s -> display s <> "".
Proof.
  induction 1 as [|s ev _ IH]; [discriminate | now apply step_nonempty].
Qed.

Lemma backspace_append (s : CalculatorState) (c : ascii) :
  waitingForOperand s = false -> display s <> "" ->
  backspace (setDisplay (display s ++ String c "") s) = s.
Proof.
  intros W NE. unfold backspace. cbn [waitingForOperand setDisplay display].
  rewrite W, length_append. cbn [String.length].
  destruct (String.length (display s)) as [|n] eqn:L.
  - destruct (display s); [congruence | discriminate].
  - replace (S n + 1 =? 1)%nat with false
      by (symmetry; apply Nat.eqb_neq; lia).
    rewrite slice_app_last. now destruct s.
Qed.

(** X3.  While an operand is being typed, [backspace] undoes the last
    key: it takes back a digit, and a point that [inputDecimal] has
    appended. *)
Theorem backspace_undoes_typing (s : CalculatorState) :
  reachable s -> waitingForOperand s = false ->
  (forall d, backspace (inputDigit (digit_key d) s) = s) /\
  (includes (display s) "." = false -> backspace (inputDecimal s) = s).
Proof.
  intros Hr W. pose proof (reachable_display_nonempty s Hr) as NE. split.
  - intros d. unfold inputDigit. rewrite W.
    destruct (digit_key_char d) as [c ->].
    destruct (String.eqb_spec (display s) "0") as [E|_].
    + unfold backspace. cbn. rewrite W. destruct s; cbn in *. now subst.
    + now apply backspace_append.
  - intros I. unfold inputDecimal. rewrite W, I. cbn [negb].
    now apply backspace_append.
Qed.

Lemma backspace_undoes_typing_witness :
  backspace (inputDigit "7" (run initial [InputDigit d1; InputDigit d2]))
  = run initial [InputDigit d1; InputDigit d2] /\
  backspace (inputDecimal (run initial [InputDigit d1; InputDigit d2]))
  = run initial [InputDigit d1; InputDigit d2].
Proof.
  pose proof (backspace_undoes_typing
                (run initial [InputDigit d1; InputDigit d2])
                (run_reachable _ initial reachable_initial) eq_refl)
    as [D P].
  split; [exact (D d7) | exact (P eq_refl)].
Defined.

(** ** At most one decimal point *)

Lemma points_app (a b : list ascii) : points (a ++ b) = (points a + points b)%nat.
Proof. unfold points. now rewrite filter_app, length_app. Qed.

Lemma points_digits (ds : list ascii) : all_digits ds -> points ds = 0%nat.
Proof.
  induction 1 as [|c ds Hc _ IH]; [reflexivity|].
  unfold points in *. cbn [filter].
  rewrite Ascii.eqb_sym, (digit_not_point c Hc). exact IH.
Qed.

Lemma points_zeros (n : nat) : points (zeros n) = 0%nat.
Proof. apply points_digits, zeros_digits. Qed.

Lemma points_decimal_digits (n : Z) : points (decimal_digits n) = 0%nat.
Proof. apply points_digits, digits_fuel_digits. constructor. Qed.

Lemma points_cons (c : ascii) (cs : list ascii) :
  points (c :: cs) = ((if Ascii.eqb "." c then 1 else 0) + points cs)%nat.
Proof. unfold points. cbn [filter]. now destruct (Ascii.eqb "." c). Qed.

Lemma points_format_decimal (s p : Z) :
  (points (format_decimal s p) <= 1)%nat.
Proof.
  unfold format_decimal.
  pose proof (points_decimal_digits s) as D.
  set (ds := decimal_digits s) in *.
  set (n := (p + Z.of_nat (List.length ds))%Z).
  assert (S : forall k, (points (firstn k ds) + points (skipn k ds) = 0)%nat).
  { intros k. now rewrite <- points_app, firstn_skipn. }
  assert (E : points (decimal_digits (Z.abs (n - 1)%Z)) = 0%nat)
    by apply points_decimal_digits.
  assert (G : forall c : ascii,
             (if (n - 1 <? 0)%Z then "-"%char else "+"%char) = c ->
             Ascii.eqb "." c = false).
  { intros c <-. now destruct (n - 1 <? 0)%Z. }
  assert (N : points [] = 0%nat) by reflexivity.
  assert (P : Ascii.eqb "." "." = true) by reflexivity.
  assert (Z0 : Ascii.eqb "." "0" = false) by reflexivity.
  assert (Ze : Ascii.eqb "." "e" = false) by reflexivity.
  destruct ((-5 <=? n) && (n <=? 21))%Z.
  - destruct (Z.of_nat (List.length ds) <=? n)%Z.
    + rewrite points_app, points_zeros. lia.
    + destruct (0 <? n)%Z.
      * rewrite points_app, points_cons, P.
        specialize (S (Z.to_nat n)). lia.
      * rewrite !points_cons, points_app, points_zeros, P, Z0. lia.
  - clearbody ds. destruct ds as [|d [|d' rest]].
    + rewrite points_app, !points_cons, (G _ eq_refl), E, Ze. lia.
    + rewrite !points_cons in D.
      rewrite points_app, !points_cons, (G _ eq_refl), E, Ze. lia.
    + rewrite !points_cons in D.
      rewrite !points_cons, points_app, !points_cons, (G _ eq_refl), E, P, Ze.
      lia.
Qed.

Lemma points_number_chars (x : number) : (points (number_chars x) <= 1)%nat.
Proof.
  destruct x as [s|s| |s m e]; cbn [number_chars].
  - cbn. lia.
  - destruct s; cbn; lia.
  - cbn. lia.
  - destruct (shortest_decimal m e) as [d p].
    pose proof (points_format_decimal d p).
    destruct s; [|exact H].
    rewrite points_app. change (points ["-"%char]) with 0%nat. lia.
Qed.

Lemma points_toString (x : number) : (points (chars (toString x)) <= 1)%nat.
Proof. unfold toString. rewrite chars_text. apply points_number_chars. Qed.

Lemma points_includes (s : string) :
  includes s "." = false -> points (chars s) = 0%nat.
Proof.
  intros H. rewrite <- (text_chars s) in H.
  apply includes_text_false in H. unfold points.
  destruct (filter (Ascii.eqb ".") (chars s)) as [|c r] eqn:E; [reflexivity|].
  assert (I : In c (filter (Ascii.eqb ".") (chars s))) by (rewrite E; now left).
  apply filter_In in I as [I1 I2]. apply Ascii.eqb_eq in I2. subst c.
  contradiction.
Qed.

Lemma points_removelast (cs : list ascii) :
  (points (removelast cs) <= points cs)%nat.
Proof.
  destruct cs as [|c cs] using rev_ind; [cbn; lia|].
  rewrite removelast_last, points_app. lia.
Qed.

Lemma points_slice_init (s : string) :
  s <> "" -> (points (chars (slice s 0 (-1))) <= points (chars s))%nat.
Proof.
  intros H. rewrite <- (text_chars s) at 1.
  rewrite slice_text_init, chars_text.
  - apply points_removelast.
  - intros E. apply H. rewrite <- (text_chars s), E. reflexivity.
Qed.

Lemma points_digit_key (d : Digit) : points (chars (digit_key d)) = 0%nat.
Proof. destruct d; reflexivity. Qed.

Lemma points_step (s : CalculatorState) (ev : event) :
  display s <> "" ->
  (points (chars (display s)) <= 1)%nat ->
  (points (chars (display (step s ev))) <= 1)%nat.
Proof.
  intros NE H. destruct ev; cbn [step].
  - unfold inputDigit. pose proof (points_digit_key d) as D.
    destruct (waitingForOperand s); cbn [display setDisplay setWaitingForOperand];
      [lia|].
    destruct (display s =? "0"); [lia|]. rewrite chars_app, points_app. lia.
  - unfold inputDecimal.
    destruct (waitingForOperand s);
      [cbn [display setDisplay setWaitingForOperand]; cbn; lia|].
    destruct (includes (display s) ".") eqn:I; cbn [negb]; [exact H|].
    cbn [display setDisplay]. rewrite chars_app, points_app.
    rewrite (points_includes _ I). cbn. lia.
  - cbn. lia.
  - unfold backspace. destruct (waitingForOperand s); [exact H|].
    cbn [display setDisplay].
    destruct (String.length (display s) =? 1)%nat; [cbn; lia|].
    pose proof (points_slice_init (display s) NE). lia.
  - apply points_toString.
  - apply points_toString.
  - unfold performOperation. destruct (previousValue s); [|exact H].
    destruct (operation s); [|exact H]. apply points_toString.
  - unfold calculate. destruct (operation s); [|exact H].
    destruct (previousValue s); [|exact H]. apply points_toString.
Qed.

(** X4.  The display of a reachable state has at most one decimal
    point: [inputDecimal] appends one only when there is none, and
    [String] prints at most one. *)
Theorem display_one_point (s : CalculatorState) :
  reachable s -> (points (chars (display s)) <= 1)%nat.
Proof.
  intros Hr. induction Hr as [|s ev Hr IH]; [cbn; lia|].
  apply points_step; [|exact IH]. now apply reachable_display_nonempty.
Qed.

Lemma display_one_point_witness :
  (points (chars (display (run initial [InputDigit d1; InputDecimal;
                                        InputDigit d5; InputDecimal])))
   <= 1)%nat.
Proof.
  exact (display_one_point _ (run_reachable _ initial reachable_initial)).
Defined.

(** ** Results *)

(** X5.  An operator pressed right after the first operator computes
    with the number still on display as both operands: after "5", "+",
    "×" display is "10". *)
Theorem operator_twice (s : CalculatorState) (op next : Op) :
  previousValue s = None ->
  let a := parseFloat (display s) in
  performOperation (Some next) (performOperation (Some op) s) =
  {| display := toString (apply op a a);
     previousValue := Some (apply op a a);
     operation := Some next;
     waitingForOperand := true |}.
Proof.
  intros Hp a.
  rewrite (performOperation_pending (Some next) _ op a).
  - unfold performOperation. rewrite Hp. reflexivity.
  - unfold performOperation. rewrite Hp. reflexivity.
  - reflexivity.
Qed.

Lemma operator_twice_witness :
  display (run initial [InputDigit d5; PerformOperation Plus;
                        PerformOperation Times]) = "10".
Proof.
  change (run initial [InputDigit d5; PerformOperation Plus;
                       PerformOperation Times])
    with (performOperation (Some Times)
            (performOperation (Some Plus) (run initial [InputDigit d5]))).
  rewrite (operator_twice (run initial [InputDigit d5]) Plus Times eq_refl).
  vm_compute. reflexivity.
Defined.

(** X6.  [calculate] right after [calculate] changes nothing: the
    pending operation is not repeated. *)
Theorem calculate_idempotent (s : CalculatorState) :
  calculate (calculate s) = calculate s.
Proof.
  destruct s as [d [p|] [o|] w]; reflexivity.
Qed.

Lemma apply_valid (op : Op) (a b : number) :
  valid a -> valid b -> valid (apply op a b).
Proof.
  intros Va Vb. destruct op; cbn [apply].
  - now apply add_valid.
  - now apply sub_valid.
  - now apply mul_valid.
  - destruct (strict_not_equal b zero); [now apply div_valid | reflexivity].
Qed.

Lemma step_previous_valid (s : CalculatorState) (ev : event) :
  previous_valid s -> previous_valid (step s ev).
Proof.
  intros H.
  destruct (entry_key ev) eqn:K.
  { destruct (entry_key_pending s ev K) as [E _].
    unfold previous_valid. now rewrite E. }
  destruct ev; try discriminate K; cbn [step]; intros p.
  - discriminate.
  - destruct (previousValue s) as [a|] eqn:Hp.
    + destruct (operation s) as [o|] eqn:Ho.
      * rewrite (performOperation_pending (Some op) s o a Hp Ho).
        cbn. intros E. injection E as <-.
        apply apply_valid; [now apply H | apply parseFloat_valid].
      * unfold performOperation. rewrite Hp, Ho. cbn. rewrite Hp.
        intros E. injection E as <-. now apply H.
    + unfold performOperation. rewrite Hp. cbn.
      intros E. injection E as <-. apply parseFloat_valid.
  - unfold calculate. destruct (operation s); [|apply H].
    destruct (previousValue s) eqn:Hp; [discriminate|].
    rewrite Hp. discriminate.
Qed.

Lemma reachable_previous_valid (s : CalculatorState) :
  reachable s -> previous_valid s.
Proof.
  induction 1 as [|s ev _ IH]; [discriminate | now apply step_previous_valid].
Qed.

Lemma reachable_pending (s : CalculatorState) :
  reachable s -> (operation s = None <-> previousValue s = None).
Proof.
  induction 1 as [|s ev _ IH]; [split; reflexivity | now apply pending_step].
Qed.

(** X7.  The text [calculate] shows reads back as the result it
    computed (0 for either zero), and an operator pressed next takes
    that number as its left operand. *)
Theorem calculate_shows_result (s : CalculatorState) (op : Op) (a : number) :
  reachable s -> previousValue s = Some a -> operation s = Some op ->
  let result := apply op a (parseFloat (display s)) in
  parseFloat (display (calculate s)) = read_back result /\
  (forall next,
     previousValue (performOperation (Some next) (calculate s))
     = Some (read_back result)).
Proof.
  intros Hr Hp Ho result.
  assert (V : valid result).
  { apply apply_valid; [|apply parseFloat_valid].
    now apply (reachable_previous_valid s Hr). }
  rewrite (calculate_pending s op a Hp Ho). fold result.
  cbn [display]. split; [now apply parseFloat_toString|].
  intros next. unfold performOperation. cbn.
  now rewrite (parseFloat_toString result V).
Qed.

Lemma calculate_shows_result_witness :
  let s := run initial [InputDigit d1; PerformOperation Divide; InputDigit d3] in
  parseFloat (display (calculate s))
  = read_back (apply Divide (of_Z 1) (of_Z 3)).
Proof.
  exact (proj1 (calculate_shows_result
           (run initial [InputDigit d1; PerformOperation Divide; InputDigit d3])
           Divide (of_Z 1)
           (run_reachable _ initial reachable_initial) eq_refl eq_refl)).
Defined.

(** X8.  After every operator press a left operand is stored, and the
    number on display is that operand. *)
Theorem operator_shows_operand (s : CalculatorState) (next : Op) :
  reachable s ->
  exists p,
    previousValue (performOperation (Some next) s) = Some p /\
    same_value_zero (parseFloat (display (performOperation (Some next) s))) p
    = true.
Proof.
  intros Hr.
  pose proof (reachable_previous_valid s Hr) as V.
  pose proof (reachable_pending s Hr) as Inv.
  destruct (previousValue s) as [a|] eqn:Hp.
  - destruct (operation s) as [o|] eqn:Ho.
    + rewrite (performOperation_pending (Some next) s o a Hp Ho).
      cbv zeta. cbn [previousValue display].
      eexists. split; [reflexivity|].
      rewrite parseFloat_toString.
      * apply same_value_zero_read_back.
      * apply apply_valid; [now apply V | apply parseFloat_valid].
    + assert (Some a = None) by now apply Inv. discriminate.
  - unfold performOperation. rewrite Hp. cbn.
    eexists. split; [reflexivity|]. apply same_value_zero_refl.
Qed.

Lemma operator_shows_operand_witness :
  exists p,
    previousValue
      (performOperation (Some Plus)
         (run initial [InputDigit d2; PerformOperation Times; InputDigit d4]))
    = Some p /\
    same_value_zero
      (parseFloat
         (display
            (performOperation (Some Plus)
               (run initial [InputDigit d2; PerformOperation Times;
                             InputDigit d4])))) p = true.
Proof.
  exact (operator_shows_operand
           (run initial [InputDigit d2; PerformOperation Times; InputDigit d4])
           Plus (run_reachable _ initial reachable_initial)).
Defined.

Lemma apply_NaN (op : Op) (a b : number) :
  isNaN b = true -> apply op a b = NaN.
Proof.
  destruct b; try discriminate. intros _.
  destruct op, a; reflexivity.
Qed.

(** X9.  When display does not read as a number, [calculate] and an
    operator press with an operation pending show "NaN", and the
    operator press stores NaN as the left operand. *)
Theorem unreadable_operand_gives_NaN
        (s : CalculatorState) (op : Op) (a : number) :
  previousValue s = Some a -> operation s = Some op ->
  isNaN (parseFloat (display s)) = true ->
  display (calculate s) = "NaN" /\
  (forall next,
     display (performOperation (Some next) s) = "NaN" /\
     previousValue (performOperation (Some next) s) = Some NaN).
Proof.
  intros Hp Ho Hn.
  pose proof (apply_NaN op a _ Hn) as E.
  rewrite (calculate_pending s op a Hp Ho), E. split; [reflexivity|].
  intros next. rewrite (performOperation_pending (Some next) s op a Hp Ho), E.
  split; reflexivity.
Qed.

Lemma unreadable_operand_gives_NaN_witness :
  display (run initial [InputDigit d2; PerformOperation Plus; InputDigit d5;
                        ToggleSign; Backspace; Calculate]) = "NaN".
Proof.
  exact (proj1 (unreadable_operand_gives_NaN
                  (run initial [InputDigit d2; PerformOperation Plus;
                                InputDigit d5; ToggleSign; Backspace])
                  Plus (of_Z 2) eq_refl eq_refl eq_refl)).
Defined.

(** X10.  [inputPercent] changes display only, to the rendering of a
    hundredth of the number on it, which reads back as that number. *)
Theorem inputPercent_hundredth (s : CalculatorState) :
  let hundredth := div (parseFloat (display s)) (of_Z 100) in
  inputPercent s = setDisplay (toString hundredth) s /\
  parseFloat (display (inputPercent s)) = read_back hundredth.
Proof.
  intros h. split; [reflexivity|].
  unfold inputPercent. cbn [display setDisplay]. fold h.
  apply parseFloat_toString.
  apply div_valid; [apply parseFloat_valid | apply of_Z_valid].
Qed.

(** ** Keyboard support *)

Lemma digit_range_other (c : ascii) (r : string) :
  is_digit c = false ->
  ("0" <=? String c r) && (String c r <=? "9") = false.
Proof.
  intros H. unfold String.leb. cbn [String.compare].
  destruct c as [[] [] [] [] [] [] [] []]; try discriminate H; reflexivity.
Qed.

Lemma digit_char_key (c : ascii) :
  is_digit c = true -> exists d, String c "" = digit_key d.
Proof.
  intros H. destruct c as [[] [] [] [] [] [] [] []]; try discriminate H;
    first [ now exists d0 | now exists d1 | now exists d2 | now exists d3
          | now exists d4 | now exists d5 | now exists d6 | now exists d7
          | now exists d8 | now exists d9 ].
Qed.

Lemma digit_range_key (key : string) :
  keyboard_key key ->
  ("0" <=? key) && (key <=? "9") = true ->
  exists d, key = digit_key d.
Proof.
  intros K R. destruct key as [|c r]; [discriminate R|].
  destruct (is_digit c) eqn:D.
  - destruct K as [L|L]; [|cbn in L; congruence].
    destruct r; [|discriminate L]. now apply digit_char_key.
  - rewrite (digit_range_other c r D) in R. discriminate.
Qed.

(** The handler a key runs. *)
Lemma handleKeyDown_state (key : string) :
  keyboard_key key ->
  (exists ev, ev <> ToggleSign /\ forall s, press s key = step s ev) \/
  (forall s, press s key = s).
Proof.
  intros K. unfold press, handleKeyDown.
  destruct (("0" <=? key) && (key <=? "9")) eqn:R.
  { destruct (digit_range_key key K R) as [d ->].
    left. exists (InputDigit d). split; [discriminate|reflexivity]. }
  destruct (String.eqb_spec key ".") as [->|_];
    [left; exists InputDecimal; split; [discriminate|reflexivity]|].
  destruct (String.eqb_spec key "+") as [->|_];
    [left; exists (PerformOperation Plus); split; [discriminate|reflexivity]|].
  destruct (String.eqb_spec key "-") as [->|_];
    [left; exists (PerformOperation Minus); split; [discriminate|reflexivity]|].
  cbn [orb].
  destruct (String.eqb_spec key "*") as [->|_];
    [left; exists (PerformOperation Times); split; [discriminate|reflexivity]|].
  destruct (String.eqb_spec key "/") as [->|_];
    [left; exists (PerformOperation Divide); split; [discriminate|reflexivity]|].
  destruct (String.eqb_spec key "Enter") as [->|_];
    [left; exists Calculate; split; [discriminate|reflexivity]|].
  destruct (String.eqb_spec key "=") as [->|_];
    [left; exists Calculate; split; [discriminate|reflexivity]|].
  cbn [orb].
  destruct (String.eqb_spec key "Escape") as [->|_];
    [left; exists Clear; split; [discriminate|reflexivity]|].
  destruct (String.eqb_spec key "Backspace") as [->|_];
    [left; exists Backspace; split; [discriminate|reflexivity]|].
  destruct (String.eqb_spec key "%") as [->|_];
    [left; exists InputPercent; split; [discriminate|reflexivity]|].
  right. reflexivity.
Qed.

(** X11.  Every key is ignored or does what one button does, the same
    for every state, and no key toggles the sign; [preventDefault] is
    called for "/" only. *)
Theorem keyboard_acts_as_buttons (key : string) :
  keyboard_key key ->
  ((exists ev, ev <> ToggleSign /\ forall s, press s key = step s ev) \/
   (forall s, press s key = s)) /\
  (forall s, snd (handleKeyDown key s) = (key =? "/")).
Proof.
  intros K. split; [now apply handleKeyDown_state|].
  intros s. unfold handleKeyDown.
  destruct (("0" <=? key) && (key <=? "9")) eqn:R.
  { destruct (digit_range_key key K R) as [d ->]. now destruct d. }
  repeat match goal with
         | |- context [String.eqb key ?k] =>
             destruct (String.eqb_spec key k) as [->|?]; cbn [orb];
             [reflexivity|]
         end.
  reflexivity.
Qed.

Lemma keyboard_acts_as_buttons_witness :
  (exists ev, ev <> ToggleSign /\ forall s, press s "Enter" = step s ev) \/
  (forall s, press s "Enter" = s).
Proof.
  exact (proj1 (keyboard_acts_as_buttons "Enter" (or_intror eq_refl))).
Defined.

(** X12.  Key presses lead from reachable states to reachable states. *)
Theorem keyboard_reachable (keys : list string) (s : CalculatorState) :
  Forall keyboard_key keys -> reachable s ->
  reachable (fold_left press keys s).
Proof.
  intros K. revert s. induction K as [|key keys Hk _ IH]; intros s Hr;
    [exact Hr|].
  cbn [fold_left]. apply IH.
  destruct (handleKeyDown_state key Hk) as [(ev & _ & E)|E];
    rewrite E; [now constructor | exact Hr].
Qed.

Lemma keyboard_reachable_witness :
  reachable (fold_left press ["1"; "2"; "*"; "3"; "Enter"; "F5"] initial).
Proof.
  apply keyboard_reachable; [|exact reachable_initial].
  repeat constructor; (left; reflexivity) || (right; reflexivity).
Defined.

(** A key of several characters that starts with a digit would be
    appended as it is. *)
Example handleKeyDown_long_key :
  display (press initial "12") = "12" /\
  display (press (press initial "1") "2") = "12".
Proof. split; reflexivity. Qed.

(** ** The rendered display *)

Lemma active_iff (op : Op) (s : CalculatorState) :
  active op s = true <-> operation s = Some op.
Proof.
  unfold active. destruct (operation s) as [o|]; [|split; discriminate].
  destruct o, op; split; intros H; try reflexivity; try discriminate H;
    vm_compute in H; discriminate H.
Qed.

(** X13.  In a reachable state with an operator pending, the line above
    the number shows the left operand and the operator, and the button
    of that operator and no other is active; with none pending the
    line is absent and no operator button is active. *)
Theorem pendingLine_shown (s : CalculatorState) :
  reachable s ->
  match operation s with
  | Some op =>
      (exists previous,
         previousValue s = Some previous /\
         pendingLine s = Some (toString previous ++ " " ++ op_symbol op)) /\
      (forall op', active op' s = true <-> op' = op)
  | None =>
      pendingLine s = None /\ (forall op', active op' s = false)
  end.
Proof.
  intros Hr. pose proof (reachable_pending s Hr) as Inv.
  destruct (operation s) as [op|] eqn:Ho.
  - split.
    + unfold pendingLine. rewrite Ho.
      destruct (previousValue s) as [p|] eqn:Hp; [now exists p|].
      assert (Some op = None) by now apply Inv. discriminate.
    + intros op'. rewrite active_iff, Ho. split; congruence.
  - split.
    + unfold pendingLine. now rewrite Ho.
    + intros op'. unfold active. now rewrite Ho.
Qed.

Lemma pendingLine_shown_witness :
  pendingLine (run initial [InputDigit d1; InputDigit d2; PerformOperation Minus])
  = Some "12 -" /\
  pendingLine (run initial [InputDigit d1; PerformOperation Minus; InputDigit d2;
                            Calculate]) = None.
Proof.
  split.
  - pose proof (pendingLine_shown
                  (run initial [InputDigit d1; InputDigit d2;
                                PerformOperation Minus])
                  (run_reachable _ initial reachable_initial))
      as [(p & Hp & E) _].
    rewrite E. injection Hp as <-. vm_compute. reflexivity.
  - exact (proj1 (pendingLine_shown
                    (run initial [InputDigit d1; PerformOperation Minus;
                                  InputDigit d2; Calculate])
                    (run_reachable _ initial reachable_initial))).
Defined.

(** Digits pass the guards of the formatter. *)
Lemma formatDisplay_digits (ds : list ascii) :
  all_digits ds -> ds <> [] ->
  isNaN (parseFloat (text ds)) = false ->
  formatDisplay (text ds) = toLocaleString (parseFloat (text ds)).
Proof.
  intros D NE G0.
  destruct (digits_last _ D NE) as (a & l & E & Hl).
  assert (G1 : endsWith (text ds) "." = false).
  { rewrite E, endsWith_text_last. now apply digit_not_point. }
  assert (G2 : includes (text ds) "." = false).
  { apply includes_text_false. now apply digits_have_no_point. }
  unfold formatDisplay. now rewrite G0, G1, G2.
Qed.

Lemma formatDisplay_integer (N : Z) :
  (0 <= N)%Z ->
  formatDisplay (text (decimal_digits N)) = toLocaleString (of_Z N).
Proof.
  intros HN.
  assert (P : parseFloat (text (decimal_digits N)) = of_Z N)
    by now apply parseFloat_decimal_digits.
  rewrite formatDisplay_digits, P; [reflexivity | | |].
  - now apply decimal_digits_spec.
  - apply decimal_digits_nonempty.
  - rewrite P, of_Z_nonneg by exact HN. apply number_of_decimal_not_NaN.
Qed.

(** X14.  The formatter shows a whole number below [10 ^ 15] as its
    digits grouped by three. *)
Theorem formatDisplay_groups_integers (N : Z) :
  (0 <= N < 10 ^ 15)%Z ->
  formatDisplay (text (decimal_digits N))
  = text (group_digits (decimal_digits N)).
Proof.
  intros HN. rewrite formatDisplay_integer by lia.
  now apply toLocaleString_integer.
Qed.

Lemma formatDisplay_groups_integers_witness :
  formatDisplay "1234567" = "1,234,567".
Proof.
  exact (formatDisplay_groups_integers 1234567
           ltac:(split; [discriminate | reflexivity])).
Defined.

(** X15.  After digit keys typed into a fresh operand, a number below
    [10 ^ 15], the widget shows its digits grouped by three. *)
Theorem typed_digits_shown (s : CalculatorState) (ds : list Digit) :
  ds <> [] ->
  waitingForOperand s = true \/ display s = "0" ->
  (digits_number ds < 10 ^ 15)%Z ->
  shown (run s (map InputDigit ds))
  = text (group_digits (decimal_digits (digits_number ds))).
Proof.
  intros Hne Hs Hn. unfold shown.
  rewrite (typed_digits_state s ds Hne Hs). cbn [display setDisplay].
  pose proof (digits_number_nonneg ds) as H0.
  rewrite formatDisplay_integer by exact H0.
  apply toLocaleString_integer. lia.
Qed.

Lemma typed_digits_shown_witness :
  shown (run initial (map InputDigit [d1; d2; d3; d4; d5])) = "12,345".
Proof.
  exact (typed_digits_shown initial [d1; d2; d3; d4; d5]
           ltac:(discriminate) (or_intror eq_refl) eq_refl).
Defined.

(** X16.  While a fraction is being typed, the text shown is display
    as it is, when it ends in the point or in a zero. *)
Theorem typed_fraction_shown (s : CalculatorState) (ds fs : list Digit) :
  waitingForOperand s = true \/ display s = "0" ->
  fs = [] \/ (exists fs', fs = fs' ++ [d0])%list ->
  let s' := run s (map InputDigit ds ++ InputDecimal :: map InputDigit fs) in
  shown s' = display s' /\
  display s'
  = text (decimal_digits (digits_number ds) ++ "."%char :: digit_chars fs).
Proof.
  intros Hs Hf s'. unfold s', shown.
  rewrite (typed_decimal_state s ds fs Hs). cbn [display setDisplay].
  split; [|reflexivity]. unfold formatDisplay.
  destruct (isNaN _); [reflexivity|].
  destruct Hf as [->|[fs' ->]].
  - cbn [digit_chars map].
    now rewrite endsWith_text_last.
  - destruct (endsWith _ "."); [reflexivity|].
    rewrite includes_point. cbn [andb].
    unfold digit_chars. rewrite map_app. cbn [map].
    change ("."%char :: map (fun d => digit_char (digit_number d)) fs'
              ++ [digit_char (digit_number d0)])%list
      with (("."%char :: map (fun d => digit_char (digit_number d)) fs')
              ++ [digit_char (digit_number d0)])%list.
    rewrite app_assoc, endsWith_text_last. reflexivity.
Qed.

Lemma typed_fraction_shown_witness :
  shown (run initial [InputDigit d1; InputDigit d2; InputDecimal;
                      InputDigit d5; InputDigit d0]) = "12.50".
Proof.
  pose proof (typed_fraction_shown initial [d1; d2] [d5; d0]
                (or_intror eq_refl)
                (or_intror (ex_intro _ [d5] eq_refl))) as [S D].
  exact (eq_trans S D).
Defined.

(** ** Whole-number arithmetic *)

Lemma formatDisplay_plain (cs a : list ascii) (l : ascii) :
  cs = (a ++ [l])%list -> is_digit l = true -> ~ In "."%char cs ->
  isNaN (parseFloat (text cs)) = false ->
  formatDisplay (text cs) = toLocaleString (parseFloat (text cs)).
Proof.
  intros E Hl Hp G0.
  assert (G1 : endsWith (text cs) "." = false).
  { rewrite E, endsWith_text_last. now apply digit_not_point. }
  assert (G2 : includes (text cs) "." = false)
    by now apply includes_text_false.
  unfold formatDisplay. now rewrite G0, G1, G2.
Qed.

Lemma whole_chars_shape (z : Z) :
  (exists a l, whole_chars z = a ++ [l] /\ is_digit l = true)%list /\
  ~ In "."%char (whole_chars z).
Proof.
  unfold whole_chars.
  assert (D : forall n, all_digits (decimal_digits n))
    by (intros n; apply digits_fuel_digits; constructor).
  destruct (z <? 0)%Z.
  - destruct (digits_last _ (D (- z)%Z) (decimal_digits_nonempty _))
      as (a & l & E & Hl).
    split.
    + exists ("-"%char :: a), l. rewrite E. split; [reflexivity | exact Hl].
    + intros [H|H]; [discriminate|].
      now apply (digits_have_no_point _ (D (- z)%Z)).
  - destruct (digits_last _ (D z) (decimal_digits_nonempty _))
      as (a & l & E & Hl).
    split; [now exists a, l|]. apply digits_have_no_point, D.
Qed.

Lemma formatDisplay_whole (z : Z) :
  (- 10 ^ 15 < z < 10 ^ 15)%Z ->
  formatDisplay (text (whole_chars z)) = text (whole_grouped z).
Proof.
  intros Hz.
  assert (P : parseFloat (text (whole_chars z)) = read_back (of_Z z)).
  { rewrite <- toString_whole by exact Hz.
    apply parseFloat_toString, of_Z_valid. }
  assert (R : toLocaleString (read_back (of_Z z)) = toLocaleString (of_Z z)).
  { destruct (Z.lt_trichotomy z 0) as [N|[->|Q]]; [|reflexivity|].
    - replace z with (- - z)%Z by lia. rewrite of_Z_negative by lia.
      destruct (of_Z_finite (- z) ltac:(lia)) as (m & e & F).
      now rewrite F.
    - destruct (of_Z_finite z ltac:(lia)) as (m & e & F). now rewrite F. }
  destruct (whole_chars_shape z) as [(a & l & E & Hl) Hp].
  rewrite (formatDisplay_plain _ a l E Hl Hp).
  - rewrite P, R. now apply toLocaleString_whole.
  - rewrite P. unfold of_Z.
    destruct (z <? 0)%Z.
    + pose proof (number_of_decimal_not_NaN (- z) 0).
      now destruct (number_of_decimal (- z) 0).
    + pose proof (number_of_decimal_not_NaN z 0).
      now destruct (number_of_decimal z 0) as [[]| | |].
Qed.

Lemma run_app (s : CalculatorState) (xs ys : list event) :
  run s (xs ++ ys) = run (run s xs) ys.
Proof. apply fold_left_app. Qed.

(** X17.  Whole numbers are computed exactly: a number typed into a
    fresh operand, an operator, a second number and equals leave the
    decimal digits of the sum, difference, product or exact quotient
    on display (0 for a division by zero), with a minus sign when it is
    negative, and the widget shows them grouped by three; the operands
    and the result are below [10 ^ 15] in magnitude. *)
Theorem whole_number_arithmetic
        (s : CalculatorState) (op : Op) (ds es : list Digit) :
  previousValue s = None ->
  waitingForOperand s = true \/ display s = "0" ->
  ds <> [] -> es <> [] ->
  let a := digits_number ds in
  let b := digits_number es in
  let r := whole_result op a b in
  (a < 10 ^ 15)%Z -> (b < 10 ^ 15)%Z -> (- 10 ^ 15 < r < 10 ^ 15)%Z ->
  (op = Divide -> b = 0%Z \/ (a mod b = 0)%Z) ->
  let s' := run s (map InputDigit ds
                   ++ PerformOperation op :: map InputDigit es
                   ++ [Calculate]) in
  display s' = text (whole_chars r) /\
  shown s' = text (whole_grouped r).
Proof.
  intros Hp Hs Hds Hes a b r Ha Hb Hr Hd s'.
  pose proof (digits_number_nonneg ds) as Na. fold a in Na.
  pose proof (digits_number_nonneg es) as Nb. fold b in Nb.
  assert (H52 : (10 ^ 15 < 2 ^ 52)%Z) by reflexivity.
  assert (E : display s' = text (whole_chars r)).
  { unfold s'.
    change (PerformOperation op :: map InputDigit es ++ [Calculate])
      with ([PerformOperation op] ++ map InputDigit es ++ [Calculate])%list.
    rewrite !run_app. cbn [run fold_left step].
    rewrite (typed_digits_state s ds Hds Hs). fold a.
    set (s1 := setDisplay (text (decimal_digits a))
                          (setWaitingForOperand false s)).
    assert (E2 : performOperation (Some op) s1
                 = {| display := text (decimal_digits a);
                      previousValue := Some (of_Z a);
                      operation := Some op;
                      waitingForOperand := true |}).
    { unfold performOperation, s1.
      cbn [previousValue display operation waitingForOperand setDisplay
           setWaitingForOperand setPreviousValue setOperation].
      rewrite Hp.
      cbn [previousValue display operation waitingForOperand setDisplay
           setWaitingForOperand setPreviousValue setOperation].
      now rewrite parseFloat_decimal_digits. }
    rewrite E2.
    set (s2 := {| display := text (decimal_digits a);
                  previousValue := Some (of_Z a);
                  operation := Some op;
                  waitingForOperand := true |}).
    rewrite (typed_digits_state s2 es Hes (or_introl eq_refl)). fold b.
    rewrite (calculate_pending
               (setDisplay (text (decimal_digits b))
                           (setWaitingForOperand false s2))
               op (of_Z a) eq_refl eq_refl).
    cbn [display setDisplay].
    rewrite parseFloat_decimal_digits by exact Nb.
    assert (Hr' : (- 2 ^ 52 < whole_result op a b < 2 ^ 52)%Z)
      by (fold r; lia).
    apply toString_stands_for; [|exact Hr].
    exact (apply_stands_for op (of_Z a) a b (stands_for_refl a)
             ltac:(lia) ltac:(lia) Hr' Hd). }
  split; [exact E|]. unfold shown. rewrite E.
  now apply formatDisplay_whole.
Qed.

Lemma whole_number_arithmetic_witness :
  display (run initial [InputDigit d1; InputDigit d2; PerformOperation Times;
                        InputDigit d3; InputDigit d4; InputDigit d5;
                        Calculate]) = "4140" /\
  shown (run initial [InputDigit d1; InputDigit d2; PerformOperation Times;
                      InputDigit d3; InputDigit d4; InputDigit d5;
                      Calculate]) = "4,140".
Proof.
  exact (whole_number_arithmetic initial Times [d1; d2] [d3; d4; d5]
           eq_refl (or_intror eq_refl) ltac:(discriminate) ltac:(discriminate)
           eq_refl eq_refl (conj eq_refl eq_refl) ltac:(discriminate)).
Defined.

Lemma chain_exact_last (a : Z) (ks : list (Op * list Digit)) :
  (- 10 ^ 15 < a < 10 ^ 15)%Z -> chain_exact a ks ->
  (- 10 ^ 15 < chain_result a ks < 10 ^ 15)%Z.
Proof.
  revert a. induction ks as [|k ks IH]; intros a Ha Hc; [exact Ha|].
  cbn [chain_exact] in Hc. destruct Hc as (_ & _ & Hr & _ & Hc).
  exact (IH _ Hr Hc).
Qed.

(** From a state with an operation pending and its right operand
    typed. *)
Lemma chain_run (ks : list (Op * list Digit)) :
  forall (s : CalculatorState) (x : number) (z : Z) (op : Op) (b : Z),
    previousValue s = Some x -> operation s = Some op ->
    display s = text (decimal_digits b) ->
    stands_for x z ->
    (- 10 ^ 15 < z < 10 ^ 15)%Z -> (0 <= b < 10 ^ 15)%Z ->
    (- 10 ^ 15 < whole_result op z b < 10 ^ 15)%Z ->
    (op = Divide -> b = 0%Z \/ (z mod b = 0)%Z) ->
    chain_exact (whole_result op z b) ks ->
    let s' := run s (flat_map operation_keys ks ++ [Calculate]) in
    display s' = text (whole_chars (chain_result (whole_result op z b) ks)) /\
    previousValue s' = None /\ operation s' = None.
Proof.
  assert (H52 : (10 ^ 15 < 2 ^ 52)%Z) by reflexivity.
  induction ks as [|[op' ds'] ks IH];
    intros s x z op b Hp Ho Hd S Hz Hb Hr Hdiv Hc; cbv zeta.
  - cbn [flat_map app run fold_left step chain_result].
    rewrite (calculate_pending s op x Hp Ho), Hd.
    cbn [display previousValue operation].
    rewrite parseFloat_decimal_digits by lia.
    split; [|split; reflexivity].
    apply toString_stands_for; [|exact Hr].
    apply apply_stands_for; try assumption; lia.
  - cbn [chain_exact fst snd] in Hc.
    destruct Hc as (Hne & Hb' & Hr' & Hdiv' & Hc).
    cbn [flat_map].
    change (operation_keys (op', ds'))
      with ([PerformOperation op'] ++ map InputDigit ds')%list.
    rewrite <- !app_assoc.
    rewrite (run_app s [PerformOperation op']).
    rewrite (run_app _ (map InputDigit ds')).
    change (run s [PerformOperation op'])
      with (performOperation (Some op') s).
    rewrite (performOperation_pending (Some op') s op x Hp Ho), Hd.
    rewrite parseFloat_decimal_digits by lia. cbv zeta.
    set (x' := apply op x (of_Z b)).
    assert (S' : stands_for x' (whole_result op z b))
      by (apply apply_stands_for; try assumption; lia).
    set (s1 := {| display := toString x'; previousValue := Some x';
                  operation := Some op'; waitingForOperand := true |}).
    rewrite (typed_digits_state s1 ds' Hne (or_introl eq_refl)).
    pose proof (digits_number_nonneg ds') as N.
    exact (IH (setDisplay (text (decimal_digits (digits_number ds')))
                          (setWaitingForOperand false s1))
              x' (whole_result op z b) op' (digits_number ds')
              eq_refl eq_refl eq_refl S' Hr (conj N Hb') Hr' Hdiv' Hc).
Qed.

(** X18.  A chain of operations on whole numbers is evaluated from the
    left, each operator press computing the operation before it: after
    the last operand and equals, display has the digits of the result
    of the chain, the widget shows them grouped by three, and nothing
    is pending; every operand and every intermediate result is below
    [10 ^ 15] in magnitude, and every division is exact or by 0. *)
Theorem evaluates_left_to_right
        (s : CalculatorState) (ds : list Digit) (ks : list (Op * list Digit)) :
  previousValue s = None ->
  waitingForOperand s = true \/ display s = "0" ->
  ds <> [] -> (digits_number ds < 10 ^ 15)%Z ->
  ks <> [] -> chain_exact (digits_number ds) ks ->
  let s' := run s (map InputDigit ds ++ flat_map operation_keys ks
                   ++ [Calculate]) in
  let r := chain_result (digits_number ds) ks in
  display s' = text (whole_chars r) /\
  shown s' = text (whole_grouped r) /\
  previousValue s' = None /\ operation s' = None.
Proof.
  intros Hp Hs Hds Ha Hks Hc s' r.
  destruct ks as [|[op es] ks]; [congruence|].
  cbn [chain_exact fst snd] in Hc.
  destruct Hc as (Hne & Hb & Hr & Hdiv & Hc).
  pose proof (digits_number_nonneg ds) as Na.
  pose proof (digits_number_nonneg es) as Nb.
  set (a := digits_number ds) in *. set (b := digits_number es) in *.
  assert (E : s' = run (setDisplay (text (decimal_digits b))
                          (setWaitingForOperand false
                             {| display := text (decimal_digits a);
                                previousValue := Some (of_Z a);
                                operation := Some op;
                                waitingForOperand := true |}))
                       (flat_map operation_keys ks ++ [Calculate])).
  { unfold s'. cbn [flat_map].
    change (operation_keys (op, es))
      with ([PerformOperation op] ++ map InputDigit es)%list.
    rewrite <- !app_assoc.
    rewrite (run_app s (map InputDigit ds)), (typed_digits_state s ds Hds Hs).
    fold a.
    set (s1 := setDisplay (text (decimal_digits a))
                          (setWaitingForOperand false s)).
    rewrite (run_app s1 [PerformOperation op]).
    change (run s1 [PerformOperation op])
      with (performOperation (Some op) s1).
    assert (E2 : performOperation (Some op) s1
                 = {| display := text (decimal_digits a);
                      previousValue := Some (of_Z a);
                      operation := Some op;
                      waitingForOperand := true |}).
    { unfold performOperation, s1.
      cbn [previousValue display operation waitingForOperand setDisplay
           setWaitingForOperand setPreviousValue setOperation].
      rewrite Hp.
      cbn [previousValue display operation waitingForOperand setDisplay
           setWaitingForOperand setPreviousValue setOperation].
      now rewrite parseFloat_decimal_digits. }
    rewrite E2.
    set (s2 := {| display := text (decimal_digits a);
                  previousValue := Some (of_Z a);
                  operation := Some op;
                  waitingForOperand := true |}).
    rewrite (run_app s2 (map InputDigit es)).
    rewrite (typed_digits_state s2 es Hne (or_introl eq_refl)). reflexivity. }
  assert (H52 : (10 ^ 15 < 2 ^ 52)%Z) by reflexivity.
  assert (Ha' : (- 10 ^ 15 < a < 10 ^ 15)%Z) by lia.
  destruct (chain_run ks
              (setDisplay (text (decimal_digits b))
                 (setWaitingForOperand false
                    {| display := text (decimal_digits a);
                       previousValue := Some (of_Z a);
                       operation := Some op;
                       waitingForOperand := true |}))
              (of_Z a) a op b eq_refl eq_refl eq_refl
              (stands_for_refl a) Ha' (conj Nb Hb) Hr Hdiv Hc)
    as (D & P & O).
  rewrite <- E in D, P, O.
  assert (R : r = chain_result (whole_result op a b) ks) by reflexivity.
  rewrite <- R in D.
  split; [exact D|]. split; [|split; assumption].
  unfold shown. rewrite D. apply formatDisplay_whole.
  rewrite R. exact (chain_exact_last (whole_result op a b) ks Hr Hc).
Qed.

Lemma evaluates_left_to_right_witness :
  display (run initial [InputDigit d2; PerformOperation Plus; InputDigit d3;
                        PerformOperation Times; InputDigit d4;
                        PerformOperation Minus; InputDigit d2; InputDigit d5;
                        Calculate]) = "-5".
Proof.
  exact (proj1 (evaluates_left_to_right initial [d2]
                  [(Plus, [d3]); (Times, [d4]); (Minus, [d2; d5])]
                  eq_refl (or_intror eq_refl) ltac:(discriminate) eq_refl
                  ltac:(discriminate)
                  ltac:(repeat split; solve [discriminate | reflexivity]))).
Defined.
